(** * Provisioner node registry and key stores of the BLE Mesh core

    Shallow embedding of
    [components/bt/ble_mesh/mesh_core/provisioner_main.c]: the table of
    provisioned nodes with its two counters, the provisioner's NetKey and
    AppKey tables with their index cursors, and the unbinding of local
    models that an AppKey deletion triggers.

    Conventions.
    - A C array of pointers is a [list (option A)]: the list's length is
      [ARRAY_SIZE], [None] is a [NULL] entry.
    - [u16_t] values are [Z]; the wrap-around of [++] is written with [u16].
    - A function that can dereference [NULL] or index outside an array has
      a [result] type with the outcome [Fault].
    - Calls into other modules (settings, message cache, timers) are
      recorded, in call order, in the [log] of the state.
    - What [bt_mesh_rand], [osi_calloc] and the key derivation functions
      answer is given by an [env]. *)

From Stdlib Require Import ZArith Bool List Lia.
From stdpp Require Import base decidable option numbers list.

Local Open Scope Z_scope.

(** ** Integers, byte strings, error numbers *)

Definition u16 (z : Z) : Z := z mod 65536.

Definition bytes := list Z.

(** [memcmp(a, b, n) == 0] *)
Definition memcmp0 (a b : bytes) (n : nat) : bool :=
  bool_decide (take n a = take n b).

(** [memset(p, 0, n)] on a byte array *)
Definition zeros (n : nat) : bytes := replicate n 0.

Definition EIO : Z := 5.
Definition ENOMEM : Z := 12.
Definition EEXIST : Z := 17.
Definition ENODEV : Z := 19.
Definition EINVAL : Z := 22.

Definition BLE_MESH_KEY_UNUSED : Z := 0xFFFF.
Definition BLE_MESH_KEY_ANY : Z := 0xFFFF.
Definition BLE_MESH_ADDR_UNASSIGNED : Z := 0.
Definition BLE_MESH_ADDR_LEN : nat := 6.
Definition BLE_MESH_KR_NORMAL : Z := 0.
Definition BLE_MESH_NODE_IDENTITY_NOT_SUPPORTED : Z := 2.

(** Outcome of code that may touch memory it does not own. *)
Inductive result (A : Type) : Type :=
| Ok (a : A)
| Fault.
Arguments Ok {A} a.
Arguments Fault {A}.

(** ** Data model *)

Record bt_mesh_addr_t := {
  addr_val : bytes;
  addr_type : Z
}.

Record bt_mesh_node_t := {
  node_addr : bt_mesh_addr_t;
  dev_uuid : bytes;
  oob_info : Z;
  unicast_addr : Z;
  element_num : Z;
  node_net_idx : Z;
  node_flags : Z;
  iv_index : Z;
  dev_key : bytes;
  node_name : bytes
}.

Record bt_mesh_rpl := {
  rpl_src : Z;
  rpl_old_iv : bool;
  rpl_seq : Z
}.

Record bt_mesh_subnet_keys := {
  net : bytes;
  nid : Z
}.

Record bt_mesh_subnet := {
  sub_net_idx : Z;
  kr_flag : bool;
  kr_phase : Z;
  node_id : Z;
  sub_keys0 : bt_mesh_subnet_keys;
  sub_keys1 : bt_mesh_subnet_keys
}.

Record bt_mesh_app_keys := {
  aid : Z;
  val : bytes
}.

Record bt_mesh_app_key := {
  key_net_idx : Z;
  key_app_idx : Z;
  updated : bool;
  app_keys0 : bt_mesh_app_keys;
  app_keys1 : bt_mesh_app_keys
}.

Record bt_mesh_model_pub := {
  pub_addr : Z;
  pub_key : Z;
  pub_cred : Z;
  pub_ttl : Z;
  pub_period : Z;
  pub_retransmit : Z;
  pub_count : Z;
  pub_update : bool
}.

Record bt_mesh_model := {
  mod_id : Z;
  mod_keys : list Z;
  mod_pub : option bt_mesh_model_pub
}.

Record bt_mesh_elem := {
  elem_addr : Z;
  models : list bt_mesh_model;
  vnd_models : list bt_mesh_model
}.

(** Calls that leave this file, in the order they are made. *)
Inductive event :=
| bt_mesh_msg_cache_clear (addr num : Z)
| bt_mesh_clear_rpl_single (addr : Z)
| bt_mesh_clear_node_info (addr : Z) (prov : bool)
| bt_mesh_store_node_info (node : bt_mesh_node_t) (prov : bool)
| bt_mesh_store_p_net_idx
| bt_mesh_store_p_app_idx
| bt_mesh_store_p_subnet (sub : bt_mesh_subnet)
| bt_mesh_store_p_app_key (key : bt_mesh_app_key)
| bt_mesh_clear_p_app_key (key : bt_mesh_app_key)
| bt_mesh_clear_p_subnet (sub : bt_mesh_subnet)
| bt_mesh_store_mod_bind (model : Z)
| bt_mesh_store_mod_pub (model : Z)
| k_delayed_work_cancel (model : Z).

(** The fields of the global [bt_mesh] that this file uses. *)
Record bt_mesh_net := {
  rpl : list bt_mesh_rpl;
  p_sub : list (option bt_mesh_subnet);
  p_app_keys : list (option bt_mesh_app_key);
  p_net_idx_next : Z;
  p_app_idx_next : Z
}.

Record state := {
  mesh_nodes : list (option bt_mesh_node_t);
  all_node_count : Z;
  prov_node_count : Z;
  bt_mesh : bt_mesh_net;
  comp : list bt_mesh_elem;
  log : list event
}.

(** What the collaborators answer during one call. *)
Record env := {
  bt_mesh_rand : option bytes;
  osi_calloc : bool;
  bt_mesh_net_keys_create : bytes -> option Z;
  bt_mesh_app_id : bytes -> option Z
}.

(** *** Field updates *)

Definition set_mesh_nodes (v : list (option bt_mesh_node_t)) (s : state) : state :=
  {| mesh_nodes := v; all_node_count := all_node_count s;
     prov_node_count := prov_node_count s; bt_mesh := bt_mesh s;
     comp := comp s; log := log s |}.

Definition set_all_node_count (v : Z) (s : state) : state :=
  {| mesh_nodes := mesh_nodes s; all_node_count := v;
     prov_node_count := prov_node_count s; bt_mesh := bt_mesh s;
     comp := comp s; log := log s |}.

Definition set_prov_node_count (v : Z) (s : state) : state :=
  {| mesh_nodes := mesh_nodes s; all_node_count := all_node_count s;
     prov_node_count := v; bt_mesh := bt_mesh s;
     comp := comp s; log := log s |}.

Definition set_bt_mesh (v : bt_mesh_net) (s : state) : state :=
  {| mesh_nodes := mesh_nodes s; all_node_count := all_node_count s;
     prov_node_count := prov_node_count s; bt_mesh := v;
     comp := comp s; log := log s |}.

Definition set_comp (v : list bt_mesh_elem) (s : state) : state :=
  {| mesh_nodes := mesh_nodes s; all_node_count := all_node_count s;
     prov_node_count := prov_node_count s; bt_mesh := bt_mesh s;
     comp := v; log := log s |}.

Definition emit (evs : list event) (s : state) : state :=
  {| mesh_nodes := mesh_nodes s; all_node_count := all_node_count s;
     prov_node_count := prov_node_count s; bt_mesh := bt_mesh s;
     comp := comp s; log := log s ++ evs |}.

Definition set_rpl (v : list bt_mesh_rpl) (b : bt_mesh_net) : bt_mesh_net :=
  {| rpl := v; p_sub := p_sub b; p_app_keys := p_app_keys b;
     p_net_idx_next := p_net_idx_next b; p_app_idx_next := p_app_idx_next b |}.

Definition set_p_sub (v : list (option bt_mesh_subnet)) (b : bt_mesh_net) : bt_mesh_net :=
  {| rpl := rpl b; p_sub := v; p_app_keys := p_app_keys b;
     p_net_idx_next := p_net_idx_next b; p_app_idx_next := p_app_idx_next b |}.

Definition set_p_app_keys (v : list (option bt_mesh_app_key)) (b : bt_mesh_net) : bt_mesh_net :=
  {| rpl := rpl b; p_sub := p_sub b; p_app_keys := v;
     p_net_idx_next := p_net_idx_next b; p_app_idx_next := p_app_idx_next b |}.

Definition set_p_net_idx_next (v : Z) (b : bt_mesh_net) : bt_mesh_net :=
  {| rpl := rpl b; p_sub := p_sub b; p_app_keys := p_app_keys b;
     p_net_idx_next := v; p_app_idx_next := p_app_idx_next b |}.

Definition set_p_app_idx_next (v : Z) (b : bt_mesh_net) : bt_mesh_net :=
  {| rpl := rpl b; p_sub := p_sub b; p_app_keys := p_app_keys b;
     p_net_idx_next := p_net_idx_next b; p_app_idx_next := v |}.

(** ** Loops over a table *)

(** [for (i = 0; i < ARRAY_SIZE(tbl); i++) if (tbl[i] && f(tbl[i])) return ...]:
    the first live row that satisfies [f], with its position (counted from
    [base]). *)
Fixpoint find_row {A : Type} (f : A -> bool) (base : nat) (tbl : list (option A))
  : option (nat * A) :=
  match tbl with
  | [] => None
  | None :: tl => find_row f (S base) tl
  | Some a :: tl => if f a then Some (base, a) else find_row f (S base) tl
  end.

(** [for (i = 0; i < ARRAY_SIZE(tbl); i++) if (!tbl[i]) return i;] *)
Fixpoint find_free {A : Type} (base : nat) (tbl : list (option A)) : option nat :=
  match tbl with
  | [] => None
  | None :: _ => Some base
  | Some _ :: tl => find_free (S base) tl
  end.

(** [for (i = lo; i < lo + n; i++) if (tbl[i] == NULL) ...]: a scan of a
    sub-range of the array, which faults when the range leaves the array. *)
Fixpoint scan_free {A : Type} (tbl : list (option A)) (lo n : nat) : result (option nat) :=
  match n with
  | O => Ok None
  | S n' =>
      match tbl !! lo with
      | None => Fault
      | Some None => Ok (Some lo)
      | Some (Some _) => scan_free tbl (S lo) n'
      end
  end.

Section Provisioner.

(** Build-time configuration: the size of the partition of [mesh_nodes]
    that holds the nodes provisioned by this device, and whether the
    settings module is compiled in. *)
Variable CONFIG_BLE_MESH_MAX_PROV_NODES : Z.
Variable CONFIG_BLE_MESH_SETTINGS : bool.

(** [if (IS_ENABLED(CONFIG_BLE_MESH_SETTINGS)) { call; }] *)
Definition settings (evs : list event) : list event :=
  if CONFIG_BLE_MESH_SETTINGS then evs else [].

(** ** Node registry *)

Definition provisioner_node_count_inc (prov : bool) (s : state) : state :=
  let s := set_all_node_count (u16 (all_node_count s + 1)) s in
  if prov then set_prov_node_count (u16 (prov_node_count s + 1)) s else s.

Definition provisioner_node_count_dec (prov : bool) (s : state) : state :=
  let s := if all_node_count s =? 0 then s
           else set_all_node_count (all_node_count s - 1) s in
  if prov then
    if prov_node_count s =? 0 then s
    else set_prov_node_count (prov_node_count s - 1) s
  else s.

Definition provisioner_get_prov_node_count (s : state) : Z := prov_node_count s.
Definition provisioner_get_node_count (s : state) : Z := all_node_count s.

(** Returns the error code, the slot written (what the caller reads back
    through [index] when that pointer is not [NULL]) and the new state. *)
Definition provisioner_store_node (e : env) (node : bt_mesh_node_t) (prov : bool)
    (s : state) : result (Z * option nat * state) :=
  let min := if prov then 0 else u16 CONFIG_BLE_MESH_MAX_PROV_NODES in
  let max := if prov then u16 CONFIG_BLE_MESH_MAX_PROV_NODES
             else u16 (Z.of_nat (length (mesh_nodes s))) in
  match scan_free (mesh_nodes s) (Z.to_nat min) (Z.to_nat (max - min)) with
  | Fault => Fault
  | Ok None => Ok (- ENOMEM, None, s)
  | Ok (Some i) =>
      if osi_calloc e then
        let s := set_mesh_nodes (<[i := Some node]> (mesh_nodes s)) s in
        let s := provisioner_node_count_inc prov s in
        Ok (0, Some i, emit (settings [bt_mesh_store_node_info node prov]) s)
      else Ok (- ENOMEM, None, s)
  end.

(** The loop over [bt_mesh.rpl] of [provisioner_reset_node]. *)
Fixpoint reset_rpl (node : bt_mesh_node_t) (l : list bt_mesh_rpl)
  : list bt_mesh_rpl * list event :=
  match l with
  | [] => ([], [])
  | r :: tl =>
      let '(tl', evs) := reset_rpl node tl in
      if (rpl_src r >=? unicast_addr node)
         && (rpl_src r <? unicast_addr node + element_num node)
      then ({| rpl_src := 0; rpl_old_iv := false; rpl_seq := 0 |} :: tl',
            settings [bt_mesh_clear_rpl_single (unicast_addr node)] ++ evs)
      else (r :: tl', evs)
  end.

Definition provisioner_reset_node (node_index : nat) (s : state) : result (Z * state) :=
  match mesh_nodes s !! node_index with
  | None => Fault
  | Some None => Ok (0, s)
  | Some (Some node) =>
      let s := emit [bt_mesh_msg_cache_clear (unicast_addr node) (element_num node)] s in
      let '(rpl', evs) := reset_rpl node (rpl (bt_mesh s)) in
      let s := emit evs (set_bt_mesh (set_rpl rpl' (bt_mesh s)) s) in
      let is_prov := Z.of_nat node_index <? CONFIG_BLE_MESH_MAX_PROV_NODES in
      let s := emit (settings [bt_mesh_clear_node_info (unicast_addr node) is_prov]) s in
      let s := set_mesh_nodes (<[node_index := None]> (mesh_nodes s)) s in
      Ok (0, provisioner_node_count_dec is_prov s)
  end.

(** [for (i = i0; i < i0 + n; i++) if (mesh_nodes[i] && matches(mesh_nodes[i]))
    { if (reset) provisioner_reset_node(i); return true; }  return false;] *)
Fixpoint find_reset_loop (matches : bt_mesh_node_t -> bool) (reset : bool)
    (i n : nat) (s : state) : result (bool * state) :=
  match n with
  | O => Ok (false, s)
  | S n' =>
      match mesh_nodes s !! i with
      | None => Fault
      | Some None => find_reset_loop matches reset (S i) n' s
      | Some (Some node) =>
          if matches node then
            if reset then
              match provisioner_reset_node i s with
              | Ok (_, s') => Ok (true, s')
              | Fault => Fault
              end
            else Ok (true, s)
          else find_reset_loop matches reset (S i) n' s
      end
  end.

Definition uuid_matches (uuid : bytes) (node : bt_mesh_node_t) : bool :=
  memcmp0 (dev_uuid node) uuid 16.

Definition addr_matches (addr : bt_mesh_addr_t) (node : bt_mesh_node_t) : bool :=
  memcmp0 (addr_val (node_addr node)) (addr_val addr) BLE_MESH_ADDR_LEN
  && (addr_type (node_addr node) =? addr_type addr).

Definition provisioner_find_reset_node_with_uuid (uuid : bytes) (reset : bool)
    (s : state) : result (bool * state) :=
  find_reset_loop (uuid_matches uuid) reset 0
    (Z.to_nat CONFIG_BLE_MESH_MAX_PROV_NODES) s.

Definition provisioner_find_reset_node_with_addr (addr : bt_mesh_addr_t) (reset : bool)
    (s : state) : result (bool * state) :=
  find_reset_loop (addr_matches addr) reset 0
    (Z.to_nat CONFIG_BLE_MESH_MAX_PROV_NODES) s.

(** ** Key tables: the checks shared by add, get and delete *)

Definition net_key_matches (k : bytes) (sub : bt_mesh_subnet) : bool :=
  memcmp0 (net (sub_keys0 sub)) k 16 || memcmp0 (net (sub_keys1 sub)) k 16.

Definition app_key_matches (k : bytes) (key : bt_mesh_app_key) : bool :=
  memcmp0 (val (app_keys0 key)) k 16 || memcmp0 (val (app_keys1 key)) k 16.

(** Both [provisioner_check_*_key] return the error code and the value
    left in [*idx]. *)
Definition provisioner_check_app_key (app_key : option bytes) (app_idx : Z)
    (s : state) : Z * Z :=
  match app_key with
  | None => (0, app_idx)
  | Some k =>
      match find_row (app_key_matches k) 0 (p_app_keys (bt_mesh s)) with
      | Some (_, key) => (- EEXIST, key_app_idx key)
      | None => (0, app_idx)
      end
  end.

Definition provisioner_check_app_idx (app_idx : Z) (exist : bool) (s : state) : Z :=
  match find_row (fun key => key_app_idx key =? app_idx) 0 (p_app_keys (bt_mesh s)) with
  | Some _ => if exist then - EEXIST else 0
  | None => if exist then 0 else - ENODEV
  end.

Definition provisioner_check_app_key_full (s : state) : Z :=
  match find_free 0 (p_app_keys (bt_mesh s)) with
  | Some i => Z.of_nat i
  | None => - ENOMEM
  end.

Definition provisioner_check_net_key (net_key : option bytes) (net_idx : Z)
    (s : state) : Z * Z :=
  match net_key with
  | None => (0, net_idx)
  | Some k =>
      match find_row (net_key_matches k) 0 (p_sub (bt_mesh s)) with
      | Some (_, sub) => (- EEXIST, sub_net_idx sub)
      | None => (0, net_idx)
      end
  end.

Definition provisioner_check_net_idx (net_idx : Z) (exist : bool) (s : state) : Z :=
  match find_row (fun sub => sub_net_idx sub =? net_idx) 0 (p_sub (bt_mesh s)) with
  | Some _ => if exist then - EEXIST else 0
  | None => if exist then 0 else - ENODEV
  end.

Definition provisioner_check_net_key_full (s : state) : Z :=
  match find_free 0 (p_sub (bt_mesh s)) with
  | Some i => Z.of_nat i
  | None => - ENOMEM
  end.

(** ** Return values

    The C functions return [0] or a negative error number; several error
    paths share a number and differ by the message they log.  A [failure]
    names the path, [errno] gives the number returned. *)
Inductive failure :=
| NoIndexAvailable   (* "No NetKey/AppKey Index available" *)
| InvalidParameter   (* "Invalid parameter" *)
| IndexExists        (* "NetKey/AppKey Index already exists" *)
| QueueFull          (* "NetKey/AppKey queue is full" *)
| RandFailed         (* "Failed to generate NetKey/AppKey" *)
| AllocFailed        (* "Failed to allocate memory" *)
| DeriveFailed       (* "Failed to generate NID/AID" *)
| NetIdxMissing      (* "NetKey Index does not exist" *)
| AppIdxMissing.     (* "AppKey Index does not exist" *)

Definition errno (f : failure) : Z :=
  match f with
  | NoIndexAvailable | RandFailed | DeriveFailed => - EIO
  | InvalidParameter => - EINVAL
  | IndexExists => - EEXIST
  | QueueFull | AllocFailed => - ENOMEM
  | NetIdxMissing | AppIdxMissing => - ENODEV
  end.

Inductive status :=
| OK
| ERR (f : failure).

Definition ret (st : status) : Z :=
  match st with
  | OK => 0
  | ERR f => errno f
  end.

(** ** Index allocation

    [idx = next; while (1) { if (in_use(idx)) { idx = ++next;
       if (idx >= 0x1000) fail; } else break; }]
    The result is [inr idx] when the loop breaks and [inl next] when it
    fails; in both cases the value is also what is left in the cursor.
    [None] is the loop still running after [fuel] tests. *)
Fixpoint idx_alloc (in_use : Z -> bool) (fuel : nat) (next : Z) : option (Z + Z) :=
  match fuel with
  | O => None
  | S fuel' =>
      if in_use next then
        let next' := u16 (next + 1) in
        if next' >=? 0x1000 then Some (inl next')
        else idx_alloc in_use fuel' next'
      else Some (inr next)
  end.

Definition idx_fuel (next : Z) : nat := S (Z.to_nat (0x1000 - next)).

Definition net_idx_in_use (s : state) (idx : Z) : bool :=
  negb (provisioner_check_net_idx idx true s =? 0).

Definition app_idx_in_use (s : state) (idx : Z) : bool :=
  negb (provisioner_check_app_idx idx true s =? 0).

(** [if (!key) { if (bt_mesh_rand(p_key, 16)) fail; } else memcpy(p_key, key, 16);]
    [None] is the failure of the random generator. *)
Definition fill_p_key (e : env) (key : option bytes) : option bytes :=
  match key with
  | None => bt_mesh_rand e
  | Some k => Some (take 16 k)
  end.

(** ** Network key store *)

(** Modelled from the spec: [bt_mesh_net_keys_create] lives in the network
    layer, outside this file.  The spec has it derive the NID from the 16
    key bytes, and a key slot hold "16-byte key + derived NID"; so the
    subnet that [osi_calloc] returned zeroed gets [p_key] and the NID [n]
    in slot 0. *)
Definition new_subnet (idx : Z) (p_key : bytes) (n : Z) : bt_mesh_subnet :=
  {| sub_net_idx := idx; kr_flag := false; kr_phase := BLE_MESH_KR_NORMAL;
     node_id := BLE_MESH_NODE_IDENTITY_NOT_SUPPORTED;
     sub_keys0 := {| net := p_key; nid := n |};
     sub_keys1 := {| net := zeros 16; nid := 0 |} |}.

(** [bt_mesh.p_sub[add] = sub] with the cursor left at [next], then the
    two settings calls. *)
Definition net_key_commit (add : Z) (sub : bt_mesh_subnet) (next : Z) (s : state) : state :=
  let b := set_p_net_idx_next next (bt_mesh s) in
  let b := set_p_sub (<[Z.to_nat add := Some sub]> (p_sub b)) b in
  emit (settings [bt_mesh_store_p_net_idx; bt_mesh_store_p_subnet sub])
       (set_bt_mesh b s).

(** [net_key] is [None] for a [NULL] key, [net_idx] is [None] for a [NULL]
    pointer; the second component of the result is what [*net_idx] holds
    on return. *)
Definition bt_mesh_provisioner_local_net_key_add (e : env) (net_key : option bytes)
    (net_idx : option Z) (s : state) : option (status * option Z * state) :=
  if p_net_idx_next (bt_mesh s) >=? 0x1000 then Some (ERR NoIndexAvailable, net_idx, s)
  else
  match net_idx with
  | None => Some (ERR InvalidParameter, None, s)
  | Some idx0 =>
    if negb (idx0 =? 0xFFFF) && (idx0 >=? 0x1000)
    then Some (ERR InvalidParameter, Some idx0, s)
    else
    let '(dup, idx) := provisioner_check_net_key net_key idx0 s in
    if negb (dup =? 0) then Some (OK, Some idx, s)
    else if negb (provisioner_check_net_idx idx true s =? 0)
    then Some (ERR IndexExists, Some idx, s)
    else
    let add := provisioner_check_net_key_full s in
    if add <? 0 then Some (ERR QueueFull, Some idx, s)
    else
    match fill_p_key e net_key with
    | None => Some (ERR RandFailed, Some idx, s)
    | Some p_key =>
      if negb (osi_calloc e) then Some (ERR AllocFailed, Some idx, s)
      else
      match bt_mesh_net_keys_create e p_key with
      | None => Some (ERR DeriveFailed, Some idx, s)
      | Some n =>
        if negb (idx =? 0xFFFF) then
          Some (OK, Some idx,
                net_key_commit add (new_subnet idx p_key n) (p_net_idx_next (bt_mesh s)) s)
        else
          match idx_alloc (net_idx_in_use s) (idx_fuel (p_net_idx_next (bt_mesh s)))
                          (p_net_idx_next (bt_mesh s)) with
          | None => None
          | Some (inl next) =>
              Some (ERR NoIndexAvailable, Some idx,
                    set_bt_mesh (set_p_net_idx_next next (bt_mesh s)) s)
          | Some (inr j) =>
              Some (OK, Some j, net_key_commit add (new_subnet j p_key n) j s)
          end
      end
    end
  end.

Definition bt_mesh_provisioner_local_net_key_get (net_idx : Z) (s : state) : option bytes :=
  if negb (provisioner_check_net_idx net_idx false s =? 0) then None
  else
  match find_row (fun sub => sub_net_idx sub =? net_idx) 0 (p_sub (bt_mesh s)) with
  | Some (_, sub) =>
      if kr_flag sub then Some (net (sub_keys1 sub)) else Some (net (sub_keys0 sub))
  | None => None
  end.

(** ** Application key store *)

(** The zeroed row with the AID [a] that [bt_mesh_app_id] returned, the
    key copied into slot 0, and the two indices. *)
Definition new_app_key (net_idx idx : Z) (p_key : bytes) (a : Z) : bt_mesh_app_key :=
  {| key_net_idx := net_idx; key_app_idx := idx; updated := false;
     app_keys0 := {| aid := a; val := p_key |};
     app_keys1 := {| aid := 0; val := zeros 16 |} |}.

Definition app_key_commit (add : Z) (key : bt_mesh_app_key) (next : Z) (s : state) : state :=
  let b := set_p_app_idx_next next (bt_mesh s) in
  let b := set_p_app_keys (<[Z.to_nat add := Some key]> (p_app_keys b)) b in
  emit (settings [bt_mesh_store_p_app_idx; bt_mesh_store_p_app_key key])
       (set_bt_mesh b s).

Definition bt_mesh_provisioner_local_app_key_add (e : env) (app_key : option bytes)
    (net_idx : Z) (app_idx : option Z) (s : state) : option (status * option Z * state) :=
  if p_app_idx_next (bt_mesh s) >=? 0x1000 then Some (ERR NoIndexAvailable, app_idx, s)
  else
  match app_idx with
  | None => Some (ERR InvalidParameter, None, s)
  | Some idx0 =>
    if negb (idx0 =? 0xFFFF) && (idx0 >=? 0x1000)
    then Some (ERR InvalidParameter, Some idx0, s)
    else
    let '(dup, idx) := provisioner_check_app_key app_key idx0 s in
    if negb (dup =? 0) then Some (OK, Some idx, s)
    else if negb (provisioner_check_net_idx net_idx false s =? 0)
    then Some (ERR NetIdxMissing, Some idx, s)
    else if negb (provisioner_check_app_idx idx true s =? 0)
    then Some (ERR IndexExists, Some idx, s)
    else
    let add := provisioner_check_app_key_full s in
    if add <? 0 then Some (ERR QueueFull, Some idx, s)
    else
    match fill_p_key e app_key with
    | None => Some (ERR RandFailed, Some idx, s)
    | Some p_key =>
      if negb (osi_calloc e) then Some (ERR AllocFailed, Some idx, s)
      else
      match bt_mesh_app_id e p_key with
      | None => Some (ERR DeriveFailed, Some idx, s)
      | Some a =>
        if negb (idx =? 0xFFFF) then
          Some (OK, Some idx,
                app_key_commit add (new_app_key net_idx idx p_key a)
                               (p_app_idx_next (bt_mesh s)) s)
        else
          match idx_alloc (app_idx_in_use s) (idx_fuel (p_app_idx_next (bt_mesh s)))
                          (p_app_idx_next (bt_mesh s)) with
          | None => None
          | Some (inl next) =>
              Some (ERR NoIndexAvailable, Some idx,
                    set_bt_mesh (set_p_app_idx_next next (bt_mesh s)) s)
          | Some (inr j) =>
              Some (OK, Some j, app_key_commit add (new_app_key net_idx j p_key a) j s)
          end
      end
    end
  end.

Definition app_key_is (net_idx app_idx : Z) (key : bt_mesh_app_key) : bool :=
  (key_net_idx key =? net_idx) && (key_app_idx key =? app_idx).

Definition bt_mesh_provisioner_local_app_key_get (net_idx app_idx : Z) (s : state)
  : option bytes :=
  if negb (provisioner_check_net_idx net_idx false s =? 0) then None
  else if negb (provisioner_check_app_idx app_idx false s =? 0) then None
  else
  match find_row (app_key_is net_idx app_idx) 0 (p_app_keys (bt_mesh s)) with
  | Some (_, key) =>
      if updated key then Some (val (app_keys1 key)) else Some (val (app_keys0 key))
  | None => None
  end.

(** ** Model bindings *)

Definition set_mod_pub (p : option bt_mesh_model_pub) (model : bt_mesh_model) : bt_mesh_model :=
  {| mod_id := mod_id model; mod_keys := mod_keys model; mod_pub := p |}.

Definition set_mod_keys (k : list Z) (model : bt_mesh_model) : bt_mesh_model :=
  {| mod_id := mod_id model; mod_keys := k; mod_pub := mod_pub model |}.

Definition model_pub_clear (model : bt_mesh_model) : bt_mesh_model * list event :=
  match mod_pub model with
  | None => (model, [])
  | Some pub =>
      if pub_addr pub =? BLE_MESH_ADDR_UNASSIGNED then (model, [])
      else
        (set_mod_pub
           (Some {| pub_addr := BLE_MESH_ADDR_UNASSIGNED; pub_key := 0; pub_cred := 0;
                    pub_ttl := 0; pub_period := 0; pub_retransmit := 0;
                    pub_count := 0; pub_update := pub_update pub |}) model,
         (if pub_update pub then [k_delayed_work_cancel (mod_id model)] else [])
         ++ settings [bt_mesh_store_mod_pub (mod_id model)])
  end.

(** The loop of [model_unbind] over the slots [model->keys[i]] that are
    still to be visited; it returns the new content of these slots, the
    model with its publication state as the loop leaves it, and the calls
    made. *)
Fixpoint model_unbind_slots (app_idx : Z) (slots : list Z) (model : bt_mesh_model)
  : list Z * bt_mesh_model * list event :=
  match slots with
  | [] => ([], model, [])
  | k :: tl =>
      if k =? app_idx then
        let '(model1, evs1) := model_pub_clear model in
        let '(tl', model2, evs2) := model_unbind_slots app_idx tl model1 in
        (BLE_MESH_KEY_UNUSED :: tl', model2,
         settings [bt_mesh_store_mod_bind (mod_id model)] ++ evs1 ++ evs2)
      else
        let '(tl', model2, evs2) := model_unbind_slots app_idx tl model in
        (k :: tl', model2, evs2)
  end.

Definition model_unbind (model : bt_mesh_model) (app_idx : Z) : bt_mesh_model * list event :=
  let '(keys, model', evs) := model_unbind_slots app_idx (mod_keys model) model in
  (set_mod_keys keys model', evs).

Fixpoint foreach_model (func : bt_mesh_model -> bt_mesh_model * list event)
    (l : list bt_mesh_model) : list bt_mesh_model * list event :=
  match l with
  | [] => ([], [])
  | m :: tl =>
      let '(m', evs1) := func m in
      let '(tl', evs2) := foreach_model func tl in
      (m' :: tl', evs1 ++ evs2)
  end.

(** Modelled from the spec: [bt_mesh_model_foreach] lives in the access
    layer, outside this file.  The spec has it apply the callback "to every
    model in every element of the local directory"; here the elements are
    visited in order, and in each element the SIG models before the vendor
    models. *)
Fixpoint bt_mesh_model_foreach (func : bt_mesh_model -> bt_mesh_model * list event)
    (elems : list bt_mesh_elem) : list bt_mesh_elem * list event :=
  match elems with
  | [] => ([], [])
  | el :: tl =>
      let '(ms, evs1) := foreach_model func (models el) in
      let '(vs, evs2) := foreach_model func (vnd_models el) in
      let '(tl', evs3) := bt_mesh_model_foreach func tl in
      ({| elem_addr := elem_addr el; models := ms; vnd_models := vs |} :: tl',
       evs1 ++ evs2 ++ evs3)
  end.

(** [_model_unbind]: the callback handed to [bt_mesh_model_foreach]. *)
Definition _model_unbind (app_idx : Z) (model : bt_mesh_model) : bt_mesh_model * list event :=
  model_unbind model app_idx.

(** ** Key deletion *)

Definition bt_mesh_provisioner_local_app_key_delete (net_idx app_idx : Z) (s : state)
  : status * state :=
  if negb (provisioner_check_net_idx net_idx false s =? 0) then (ERR NetIdxMissing, s)
  else if negb (provisioner_check_app_idx app_idx false s =? 0) then (ERR AppIdxMissing, s)
  else
  match find_row (app_key_is net_idx app_idx) 0 (p_app_keys (bt_mesh s)) with
  | Some (i, key) =>
      let '(elems, evs) := bt_mesh_model_foreach (_model_unbind app_idx) (comp s) in
      let s := emit evs (set_comp elems s) in
      let s := emit (settings [bt_mesh_clear_p_app_key key]) s in
      (OK, set_bt_mesh (set_p_app_keys (<[i := None]> (p_app_keys (bt_mesh s))) (bt_mesh s)) s)
  | None => (ERR AppIdxMissing, s)
  end.

(** The inner loop of [bt_mesh_provisioner_local_net_key_delete], from slot
    [j] on for [n] slots.  [key->net_idx] is read without a test of [key]:
    an empty slot is a [NULL] dereference.  The value returned by the
    AppKey deletion is dropped, as in the source. *)
Fixpoint app_keys_cascade (net_idx : Z) (j n : nat) (s : state) : result state :=
  match n with
  | O => Ok s
  | S n' =>
      match p_app_keys (bt_mesh s) !! j with
      | None => Fault
      | Some None => Fault
      | Some (Some key) =>
          let s :=
            if key_net_idx key =? net_idx then
              snd (bt_mesh_provisioner_local_app_key_delete
                     (key_net_idx key) (key_app_idx key) s)
            else s in
          app_keys_cascade net_idx (S j) n' s
      end
  end.

(** The last steps of a NetKey deletion: the settings call, then
    [bt_mesh.p_sub[i] = NULL]. *)
Definition subnet_free (i : nat) (sub : bt_mesh_subnet) (s : state) : state :=
  let s := emit (settings [bt_mesh_clear_p_subnet sub]) s in
  set_bt_mesh (set_p_sub (<[i := None]> (p_sub (bt_mesh s))) (bt_mesh s)) s.

Definition bt_mesh_provisioner_local_net_key_delete (net_idx : Z) (s : state)
  : result (status * state) :=
  if negb (provisioner_check_net_idx net_idx false s =? 0) then Ok (ERR NetIdxMissing, s)
  else
  match find_row (fun sub => sub_net_idx sub =? net_idx) 0 (p_sub (bt_mesh s)) with
  | Some (i, sub) =>
      match app_keys_cascade (sub_net_idx sub) 0 (length (p_app_keys (bt_mesh s))) s with
      | Fault => Fault
      | Ok s1 => Ok (OK, subnet_free i sub s1)
      end
  | None => Ok (ERR NetIdxMissing, s)
  end.

(** ** Sequences of registry operations *)

Inductive node_op :=
| op_store (e : env) (node : bt_mesh_node_t) (prov : bool)
| op_reset (node_index : nat).

Definition run_op (o : node_op) (s : state) : result state :=
  match o with
  | op_store e node prov =>
      match provisioner_store_node e node prov s with
      | Ok (_, _, s') => Ok s'
      | Fault => Fault
      end
  | op_reset i =>
      match provisioner_reset_node i s with
      | Ok (_, s') => Ok s'
      | Fault => Fault
      end
  end.

Fixpoint run_ops (ops : list node_op) (s : state) : result state :=
  match ops with
  | [] => Ok s
  | o :: tl =>
      match run_op o s with
      | Ok s' => run_ops tl s'
      | Fault => Fault
      end
  end.

(** Number of occupied slots among the first [n] of a table. *)
Definition occupied {A : Type} (n : nat) (tbl : list (option A)) : Z :=
  Z.of_nat (length (filter is_Some (take n tbl))).

(** The counters agree with the table. *)
Definition counts_ok (s : state) : Prop :=
  all_node_count s = occupied (length (mesh_nodes s)) (mesh_nodes s)
  /\ prov_node_count s
     = occupied (Z.to_nat CONFIG_BLE_MESH_MAX_PROV_NODES) (mesh_nodes s).

(** The state the C statics start in: an empty table of [n] slots and both
    counters zero. *)
Definition init_state (n : nat) (b : bt_mesh_net) (c : list bt_mesh_elem) : state :=
  {| mesh_nodes := replicate n None; all_node_count := 0; prov_node_count := 0;
     bt_mesh := b; comp := c; log := [] |}.

(** ** Lookups and the other entry points of the file *)

(** Two macros of the mesh headers that this file uses without defining
    them: the test for a unicast address and the size of a node name. *)
Variable BLE_MESH_ADDR_IS_UNICAST : Z -> bool.
Variable MESH_NAME_SIZE : nat.

Definition provisioner_index_check (node_index : Z) (s : state) : Z :=
  if node_index <? 0 then - EINVAL
  else if node_index >=? Z.of_nat (length (mesh_nodes s)) then - EINVAL
  else
    match mesh_nodes s !! Z.to_nat node_index with
    | Some (Some _) => 0
    | _ => - EINVAL
    end.

(** [addr], [uuid] and [dev_key] are [None] for [NULL] pointers, [index]
    tells whether the pointer [index] is not [NULL]. *)
Definition provisioner_node_provision (e : env) (addr : option bt_mesh_addr_t)
    (uuid : option bytes) (oob unicast : Z) (element_count net_idx flags iv : Z)
    (dev_key_arg : option bytes) (index : bool) (s : state)
  : result (Z * option nat * state) :=
  match addr, uuid, dev_key_arg, index with
  | Some a, Some u, Some k, true =>
      provisioner_store_node e
        {| node_addr := a; dev_uuid := take 16 u; oob_info := oob;
           unicast_addr := unicast; element_num := element_count;
           node_net_idx := net_idx; node_flags := flags; iv_index := iv;
           dev_key := take 16 k; node_name := zeros MESH_NAME_SIZE |}
        true s
  | _, _, _, _ => Ok (- EINVAL, None, s)
  end.

(** [for (i = i0; i < i0 + n; i++) { err = provisioner_reset_node(i);
    if (err == -ENODEV) return 0; }  return 0;] *)
Fixpoint reset_all_loop (i n : nat) (s : state) : result (Z * state) :=
  match n with
  | O => Ok (0, s)
  | S n' =>
      match provisioner_reset_node i s with
      | Fault => Fault
      | Ok (err, s') =>
          if err =? - ENODEV then Ok (0, s') else reset_all_loop (S i) n' s'
      end
  end.

Definition provisioner_reset_all_nodes (s : state) : result (Z * state) :=
  reset_all_loop 0 (length (mesh_nodes s)) s.

(** The key of the subnet that is in use: slot 1 during a key refresh. *)
Definition subnet_active_key (sub : bt_mesh_subnet) : bytes :=
  if kr_flag sub then net (sub_keys1 sub) else net (sub_keys0 sub).

Definition provisioner_net_key_get (net_idx : Z) (s : state) : option bytes :=
  match find_row (fun sub => sub_net_idx sub =? net_idx) 0 (p_sub (bt_mesh s)) with
  | Some (_, sub) => Some (subnet_active_key sub)
  | None => None
  end.

(** [bt_mesh.p_sub[0]] is read without a test of the array size. *)
Definition provisioner_subnet_get (net_idx : Z) (s : state)
  : result (option bt_mesh_subnet) :=
  if net_idx =? BLE_MESH_KEY_ANY then
    match p_sub (bt_mesh s) !! 0%nat with
    | Some row => Ok row
    | None => Fault
    end
  else
    match find_row (fun sub => sub_net_idx sub =? net_idx) 0 (p_sub (bt_mesh s)) with
    | Some (_, sub) => Ok (Some sub)
    | None => Ok None
    end.

(** [dst_addr >= node->unicast_addr && dst_addr < node->unicast_addr +
    node->element_num], in [int] arithmetic. *)
Definition node_has_addr (a : Z) (node : bt_mesh_node_t) : bool :=
  (a >=? unicast_addr node) && (a <? unicast_addr node + element_num node).

Definition provisioner_check_msg_dst_addr (dst_addr : Z) (s : state) : bool :=
  if negb (BLE_MESH_ADDR_IS_UNICAST dst_addr) then true
  else
    match find_row (node_has_addr dst_addr) 0 (mesh_nodes s) with
    | Some _ => true
    | None => false
    end.

Definition provisioner_get_device_key (dst_addr : Z) (s : state) : option bytes :=
  if negb (BLE_MESH_ADDR_IS_UNICAST dst_addr) then None
  else
    match find_row (fun node => unicast_addr node =? dst_addr) 0 (mesh_nodes s) with
    | Some (_, node) => Some (dev_key node)
    | None => None
    end.

Definition provisioner_app_key_find (app_idx : Z) (s : state) : option bt_mesh_app_key :=
  match find_row (fun key => negb (key_net_idx key =? BLE_MESH_KEY_UNUSED)
                             && (key_app_idx key =? app_idx))
                 0 (p_app_keys (bt_mesh s)) with
  | Some (_, key) => Some key
  | None => None
  end.

(** [node] is [None] for a [NULL] pointer. *)
Definition bt_mesh_provisioner_store_node_info (e : env) (node : option bt_mesh_node_t)
    (prov : bool) (s : state) : result (Z * state) :=
  match node with
  | None => Ok (- EINVAL, s)
  | Some node =>
      match find_row (fun n => memcmp0 (dev_uuid n) (dev_uuid node) 16) 0
                     (mesh_nodes s) with
      | Some _ => Ok (- EEXIST, s)
      | None =>
          match provisioner_store_node e node prov s with
          | Ok (err, _, s') => Ok (err, s')
          | Fault => Fault
          end
      end
  end.

Definition bt_mesh_provisioner_get_node_info (unicast : Z) (s : state)
  : option bt_mesh_node_t :=
  if negb (BLE_MESH_ADDR_IS_UNICAST unicast) then None
  else
    match find_row (node_has_addr unicast) 0 (mesh_nodes s) with
    | Some (_, node) => Some node
    | None => None
    end.

Definition bt_mesh_provisioner_get_node_count (s : state) : Z := prov_node_count s.

Definition set_key_net_idx (net_idx : Z) (key : bt_mesh_app_key) : bt_mesh_app_key :=
  {| key_net_idx := net_idx; key_app_idx := key_app_idx key; updated := updated key;
     app_keys0 := app_keys0 key; app_keys1 := app_keys1 key |}.

Definition bt_mesh_provisioner_bind_local_app_net_idx (net_idx app_idx : Z) (s : state)
  : Z * state :=
  if negb (provisioner_check_net_idx net_idx false s =? 0) then (- ENODEV, s)
  else if negb (provisioner_check_app_idx app_idx false s =? 0) then (- ENODEV, s)
  else
    match find_row (fun key => key_app_idx key =? app_idx) 0 (p_app_keys (bt_mesh s)) with
    | Some (i, key) =>
        (0, set_bt_mesh
              (set_p_app_keys (<[i := Some (set_key_net_idx net_idx key)]>
                                 (p_app_keys (bt_mesh s)))
                              (bt_mesh s)) s)
    | None => (- ENODEV, s)
    end.

(** ** Binding a model to an application key *)

(** The two model lookups of the access layer, which this file calls
    without defining them: the position, in the element's array of SIG
    models (of vendor models), of the model they return, [None] for
    [NULL]. *)
Variable bt_mesh_model_find : bt_mesh_elem -> Z -> option nat.
Variable bt_mesh_model_find_vnd : bt_mesh_elem -> Z -> Z -> option nat.

(** [for (i = 0; i < comp->elem_count; i++) if (comp->elem[i].addr ==
    elem_addr) break;] *)
Fixpoint find_elem (addr : Z) (base : nat) (l : list bt_mesh_elem)
  : option (nat * bt_mesh_elem) :=
  match l with
  | [] => None
  | el :: tl => if elem_addr el =? addr then Some (base, el) else find_elem addr (S base) tl
  end.

(** [for (i...) if (model->keys[i] == BLE_MESH_KEY_UNUSED)
    { model->keys[i] = app_idx; ... return 0; }]: the slots after the
    write, [None] when no slot is unused. *)
Fixpoint bind_slot (app_idx : Z) (keys : list Z) : option (list Z) :=
  match keys with
  | [] => None
  | k :: tl =>
      if k =? BLE_MESH_KEY_UNUSED then Some (app_idx :: tl)
      else
        match bind_slot app_idx tl with
        | Some tl' => Some (k :: tl')
        | None => None
        end
  end.

Definition set_elem_model (vnd : bool) (j : nat) (model : bt_mesh_model)
    (el : bt_mesh_elem) : bt_mesh_elem :=
  if vnd then
    {| elem_addr := elem_addr el; models := models el;
       vnd_models := <[j := model]> (vnd_models el) |}
  else
    {| elem_addr := elem_addr el; models := <[j := model]> (models el);
       vnd_models := vnd_models el |}.

(** [comp_set] tells whether the static pointer [comp] of this file has
    been set (by [bt_mesh_provisioner_net_create]); the composition data
    it then points to is [comp s]. *)
Definition bt_mesh_provisioner_bind_local_model_app_idx (comp_set : bool)
    (addr mod_id_arg cid app_idx : Z) (s : state) : result (Z * state) :=
  if negb comp_set then Ok (- EINVAL, s)
  else
  match find_elem addr 0 (comp s) with
  | None => Ok (- ENODEV, s)
  | Some (i, el) =>
      let vnd := negb (cid =? 0xFFFF) in
      match (if vnd then bt_mesh_model_find_vnd el cid mod_id_arg
             else bt_mesh_model_find el mod_id_arg) with
      | None => Ok (- ENODEV, s)
      | Some j =>
          match (if vnd then vnd_models el else models el) !! j with
          | None => Fault
          | Some model =>
              if negb (provisioner_check_app_idx app_idx false s =? 0)
              then Ok (- ENODEV, s)
              else if existsb (fun k => k =? app_idx) (mod_keys model) then Ok (0, s)
              else
                match bind_slot app_idx (mod_keys model) with
                | Some keys =>
                    Ok (0,
                        emit (settings [bt_mesh_store_mod_bind (mod_id model)])
                          (set_comp
                             (<[i := set_elem_model vnd j (set_mod_keys keys model) el]>
                                (comp s)) s))
                | None => Ok (- ENOMEM, s)
                end
          end
      end
  end.

(** ** Fast provisioning *)

(** Two functions of the provisioning layer, which this file calls
    without defining them: the NetKey index that fast provisioning is
    configured with, and the status that storing a key and an index there
    returns ([None] is a [NULL] key). *)
Variable provisioner_get_fast_prov_net_idx : Z.
Variable provisioner_set_fast_prov_net_idx : option bytes -> Z -> Z.

(** [net_key] is [None] for a [NULL] key.  The local [net_idx] is passed
    by address, so the index read back is what the add left in it. *)
Definition bt_mesh_add_fast_prov_net_key (e : env) (net_key : option bytes) (s : state)
  : option (Z * state) :=
  let net_idx := provisioner_get_fast_prov_net_idx in
  let s := set_bt_mesh (set_p_net_idx_next net_idx (bt_mesh s)) s in
  match bt_mesh_provisioner_local_net_key_add e net_key (Some net_idx) s with
  | None => None
  | Some (st, out, s') =>
      if negb (ret st =? 0) then Some (0x01, s')
      else
        let net_idx := default net_idx out in
        match bt_mesh_provisioner_local_net_key_get net_idx s' with
        | None => Some (0x01, s')
        | Some keys => Some (provisioner_set_fast_prov_net_idx (Some keys) net_idx, s')
        end
  end.

(** * Specification vocabulary

    The predicates on states and tables that the statements below are
    written with. *)

(** ** Key tables *)

(** Some live row of the table carries the index [idx]. *)
Definition net_idx_live (s : state) (idx : Z) : Prop :=
  exists (i : nat) (sub : bt_mesh_subnet),
    p_sub (bt_mesh s) !! i = Some (Some sub) /\ sub_net_idx sub = idx.

Definition app_idx_live (s : state) (idx : Z) : Prop :=
  exists (i : nat) (key : bt_mesh_app_key),
    p_app_keys (bt_mesh s) !! i = Some (Some key) /\ key_app_idx key = idx.

(** Some live row holds the bytes [k] in one of its two key slots. *)
Definition net_key_stored (s : state) (k : bytes) : Prop :=
  exists (i : nat) (sub : bt_mesh_subnet),
    p_sub (bt_mesh s) !! i = Some (Some sub) /\ net_key_matches k sub = true.

Definition app_key_stored (s : state) (k : bytes) : Prop :=
  exists (i : nat) (key : bt_mesh_app_key),
    p_app_keys (bt_mesh s) !! i = Some (Some key) /\ app_key_matches k key = true.

(** The key handed to an add is new: it is absent, or no live row holds it. *)
Definition net_key_fresh (s : state) (net_key : option bytes) : Prop :=
  forall k : bytes, net_key = Some k -> ~ net_key_stored s k.

Definition app_key_fresh (s : state) (app_key : option bytes) : Prop :=
  forall k : bytes, app_key = Some k -> ~ app_key_stored s k.

(** Row [i] is the first [NULL] entry of the table. *)
Definition first_free {A : Type} (tbl : list (option A)) (i : nat) : Prop :=
  tbl !! i = Some None /\ forall j : nat, (j < i)%nat -> tbl !! j <> Some None.

(** The table has no [NULL] entry. *)
Definition table_full {A : Type} (tbl : list (option A)) : Prop :=
  forall j : nat, tbl !! j <> Some None.

(** [j] is the smallest index at or after [c], and below 0x1000, that
    [in_use] does not hold of. *)
Definition least_unused (in_use : Z -> Prop) (c j : Z) : Prop :=
  c <= j < 0x1000 /\ ~ in_use j /\ forall k : Z, c <= k < j -> in_use k.

(** Every index from [c] up to 0xFFF is in use. *)
Definition exhausted (in_use : Z -> Prop) (c : Z) : Prop :=
  forall k : Z, c <= k < 0x1000 -> in_use k.

(** An auto-index NetKey add gets as far as the allocation loop: the cursor
    is a [u16_t] below 0x1000, the key is new, no row carries the sentinel
    as its index, [add] is the first free row, and key generation,
    allocation and derivation succeed with [p_key] and [n]. *)
Definition net_add_reaches_alloc (e : env) (net_key : option bytes) (s : state)
    (add : nat) (p_key : bytes) (n : Z) : Prop :=
  0 <= p_net_idx_next (bt_mesh s) < 0x1000
  /\ net_key_fresh s net_key
  /\ ~ net_idx_live s 0xFFFF
  /\ first_free (p_sub (bt_mesh s)) add
  /\ fill_p_key e net_key = Some p_key
  /\ osi_calloc e = true
  /\ bt_mesh_net_keys_create e p_key = Some n.

Definition app_add_reaches_alloc (e : env) (app_key : option bytes) (net_idx : Z)
    (s : state) (add : nat) (p_key : bytes) (a : Z) : Prop :=
  0 <= p_app_idx_next (bt_mesh s) < 0x1000
  /\ app_key_fresh s app_key
  /\ net_idx_live s net_idx
  /\ ~ app_idx_live s 0xFFFF
  /\ first_free (p_app_keys (bt_mesh s)) add
  /\ fill_p_key e app_key = Some p_key
  /\ osi_calloc e = true
  /\ bt_mesh_app_id e p_key = Some a.

(** Case analysis on every test of an add whose result is [H]. *)
Ltac break_add H :=
  repeat match type of H with
         | context [if ?b then _ else _] => destruct b eqn:?
         | context [match ?x with _ => _ end] => destruct x eqn:?
         end.

(** ** Node registry *)

(** Slot [j] holds a node that [matches]. *)
Definition node_match (matches : bt_mesh_node_t -> bool) (s : state) (j : nat) : Prop :=
  exists node : bt_mesh_node_t,
    mesh_nodes s !! j = Some (Some node) /\ matches node = true.

(** What one of the two find functions does, given the predicate
    [matches] that it tests the nodes with and its result [r]. *)
Definition find_reset_scope (matches : bt_mesh_node_t -> bool) (reset : bool)
    (s : state) (r : result (bool * state)) : Prop :=
  exists (b : bool) (s' : state),
    r = Ok (b, s')
    /\ (b = true <->
        exists j : nat,
          (j < Z.to_nat CONFIG_BLE_MESH_MAX_PROV_NODES)%nat /\ node_match matches s j)
    /\ (forall k : nat,
          (Z.to_nat CONFIG_BLE_MESH_MAX_PROV_NODES <= k)%nat ->
          mesh_nodes s' !! k = mesh_nodes s !! k)
    /\ (b = false \/ reset = false -> s' = s)
    /\ (b = true -> reset = true ->
        exists j : nat,
          (j < Z.to_nat CONFIG_BLE_MESH_MAX_PROV_NODES)%nat
          /\ node_match matches s j
          /\ (forall j' : nat, (j' < j)%nat -> ~ node_match matches s j')
          /\ provisioner_reset_node j s = Ok (0, s')
          /\ mesh_nodes s' !! j = Some None).

(** What a slot adds to the number of occupied slots. *)
Definition slot_weight {A : Type} (x : option A) : Z :=
  match x with
  | Some _ => 1
  | None => 0
  end.

(** The configuration fits the table: the partition of self-provisioned
    nodes lies inside the table, and the table is small enough for the
    [u16_t] loop bounds and counters. *)
Definition config_ok (s : state) : Prop :=
  0 <= CONFIG_BLE_MESH_MAX_PROV_NODES <= Z.of_nat (length (mesh_nodes s))
  /\ Z.of_nat (length (mesh_nodes s)) <= 65535.

(** An operation addresses the table: a reset names one of its [len]
    slots (the callers of [provisioner_reset_node] pass loop counters
    below [ARRAY_SIZE(mesh_nodes)]). *)
Definition op_in_range (len : nat) (o : node_op) : Prop :=
  match o with
  | op_store _ _ _ => True
  | op_reset i => (i < len)%nat
  end.

(** ** Model bindings and the cascade *)

(** What unbinding [app_idx] writes into a slot that holds [k]. *)
Definition unbind_slot (app_idx k : Z) : Z :=
  if k =? app_idx then BLE_MESH_KEY_UNUSED else k.

(** The element with [g] applied to each of its models. *)
Definition elem_map (g : bt_mesh_model -> bt_mesh_model) (el : bt_mesh_elem) : bt_mesh_elem :=
  {| elem_addr := elem_addr el; models := g <$> models el;
     vnd_models := g <$> vnd_models el |}.

(** [slot] is the content of a key-binding slot of some model, SIG or
    vendor, of some element. *)
Definition slot_in (elems : list bt_mesh_elem) (slot : Z) : Prop :=
  exists (el : bt_mesh_elem) (m : bt_mesh_model),
    el ∈ elems /\ (m ∈ models el \/ m ∈ vnd_models el) /\ slot ∈ mod_keys m.

(** No slot refers to the AppKey index [app_idx]: a slot with that value
    can only be the unused marker itself. *)
Definition unbound (elems : list bt_mesh_elem) (app_idx : Z) : Prop :=
  forall slot : Z, slot_in elems slot -> slot = app_idx -> slot = BLE_MESH_KEY_UNUSED.

(** No live AppKey row belongs to the subnet [net_idx]. *)
Definition no_app_key_of (s : state) (net_idx : Z) : Prop :=
  forall (k : nat) (key : bt_mesh_app_key),
    p_app_keys (bt_mesh s) !! k = Some (Some key) -> key_net_idx key <> net_idx.

(** Every AppKey of the subnet [net_idx] that is live in [s0] is unbound
    in the models of [s]. *)
Definition app_keys_unbound (s0 s : state) (net_idx : Z) : Prop :=
  forall (k : nat) (key : bt_mesh_app_key),
    p_app_keys (bt_mesh s0) !! k = Some (Some key) -> key_net_idx key = net_idx ->
    unbound (comp s) (key_app_idx key).

(** The AppKeys of other subnets stay where they are, and no row appears. *)
Definition other_app_keys_kept (s0 s : state) (net_idx : Z) : Prop :=
  (forall (k : nat) (key : bt_mesh_app_key),
     p_app_keys (bt_mesh s0) !! k = Some (Some key) -> key_net_idx key <> net_idx ->
     p_app_keys (bt_mesh s) !! k = Some (Some key))
  /\ (forall (k : nat) (key : bt_mesh_app_key),
        p_app_keys (bt_mesh s) !! k = Some (Some key) ->
        p_app_keys (bt_mesh s0) !! k = Some (Some key)).

(** ** Invariants of the tables *)

(** No two live rows carry the same index. *)
Definition net_idx_unique (s : state) : Prop :=
  forall (i j : nat) (sub sub' : bt_mesh_subnet),
    p_sub (bt_mesh s) !! i = Some (Some sub) ->
    p_sub (bt_mesh s) !! j = Some (Some sub') ->
    sub_net_idx sub = sub_net_idx sub' -> i = j.

Definition app_idx_unique (s : state) : Prop :=
  forall (i j : nat) (key key' : bt_mesh_app_key),
    p_app_keys (bt_mesh s) !! i = Some (Some key) ->
    p_app_keys (bt_mesh s) !! j = Some (Some key') ->
    key_app_idx key = key_app_idx key' -> i = j.

(** Every live row carries an index below 0x1000. *)
Definition net_idx_in_range (s : state) : Prop :=
  forall (i : nat) (sub : bt_mesh_subnet),
    p_sub (bt_mesh s) !! i = Some (Some sub) -> sub_net_idx sub < 0x1000.

Definition app_idx_in_range (s : state) : Prop :=
  forall (i : nat) (key : bt_mesh_app_key),
    p_app_keys (bt_mesh s) !! i = Some (Some key) -> key_app_idx key < 0x1000.

(** No two live nodes have the same first 16 UUID bytes. *)
Definition uuid_unique (s : state) : Prop :=
  forall (i j : nat) (n n' : bt_mesh_node_t),
    mesh_nodes s !! i = Some (Some n) ->
    mesh_nodes s !! j = Some (Some n') ->
    memcmp0 (dev_uuid n) (dev_uuid n') 16 = true -> i = j.

(** The model publishes to no address. *)
Definition pub_cleared (m : bt_mesh_model) : Prop :=
  match mod_pub m with
  | None => True
  | Some pub => pub_addr pub = BLE_MESH_ADDR_UNASSIGNED
  end.

(** Slot [i] is the first empty slot of the slots [lo .. hi-1]. *)
Definition first_free_in {A : Type} (tbl : list (option A)) (lo hi i : nat) : Prop :=
  (lo <= i < hi)%nat /\ tbl !! i = Some None
  /\ forall j : nat, (lo <= j < i)%nat -> tbl !! j <> Some None.

(** The slots [lo .. hi-1] are all occupied. *)
Definition full_in {A : Type} (tbl : list (option A)) (lo hi : nat) : Prop :=
  forall j : nat, (lo <= j < hi)%nat -> tbl !! j <> Some None.

(** The partition of the node table that a store with flag [prov] scans. *)
Definition partition_lo (prov : bool) : nat :=
  if prov then 0%nat else Z.to_nat CONFIG_BLE_MESH_MAX_PROV_NODES.

Definition partition_hi (prov : bool) (s : state) : nat :=
  if prov then Z.to_nat CONFIG_BLE_MESH_MAX_PROV_NODES else length (mesh_nodes s).

(** ** Replay protection list *)

(** The source address of the entry lies in the element addresses of the
    node. *)
Definition rpl_of_node (node : bt_mesh_node_t) (r : bt_mesh_rpl) : bool :=
  (rpl_src r >=? unicast_addr node)
  && (rpl_src r <? unicast_addr node + element_num node).

(** An entry after [memset(rpl, 0, sizeof(struct bt_mesh_rpl))]. *)
Definition rpl_zero : bt_mesh_rpl :=
  {| rpl_src := 0; rpl_old_iv := false; rpl_seq := 0 |}.

(** ** Composition data *)


(** * Sample configuration

    The data of the worked examples at the end of the file. *)

Definition key_p : bytes := [208; 17; 34; 51; 68; 85; 102; 119; 136; 153; 170; 187; 204; 221; 238; 255].
Definition key_a : bytes := [1; 2; 3; 4; 5; 6; 7; 8; 9; 10; 11; 12; 13; 14; 15; 16].
Definition key_b : bytes := [99; 150; 71; 113; 115; 79; 189; 118; 227; 184; 5; 25; 209; 217; 74; 72].
Definition key_c : bytes := [61; 203; 12; 96; 40; 7; 255; 0; 18; 52; 86; 120; 154; 188; 222; 240].
Definition key_n : bytes := [125; 215; 54; 76; 210; 132; 33; 131; 182; 245; 60; 9; 28; 127; 19; 250].

(** Collaborators that all succeed. *)
Definition env_ok : env :=
  {| bt_mesh_rand := Some key_n;
     osi_calloc := true;
     bt_mesh_net_keys_create := fun k => Some (hd 0 k mod 128);
     bt_mesh_app_id := fun k => Some (hd 0 k mod 64) |}.

(** Key derivation fails. *)
Definition env_no_derive : env :=
  {| bt_mesh_rand := Some key_n;
     osi_calloc := true;
     bt_mesh_net_keys_create := fun _ => None;
     bt_mesh_app_id := fun _ => None |}.

Definition sub0 : bt_mesh_subnet := new_subnet 0 key_p 80.
Definition sub1 : bt_mesh_subnet := new_subnet 1 key_a 1.
Definition app5 : bt_mesh_app_key := new_app_key 1 5 key_b 35.
Definition app6 : bt_mesh_app_key := new_app_key 0 6 key_c 61.

(** One element, one SIG model bound to AppKey 5 and publishing with it,
    one vendor model bound to AppKeys 6 and 5. *)
Definition elem0 : bt_mesh_elem :=
  {| elem_addr := 1;
     models := [ {| mod_id := 4096; mod_keys := [5; 65535];
                    mod_pub := Some {| pub_addr := 49152; pub_key := 5; pub_cred := 0;
                                       pub_ttl := 7; pub_period := 10;
                                       pub_retransmit := 1; pub_count := 0;
                                       pub_update := true |} |} ];
     vnd_models := [ {| mod_id := 741; mod_keys := [6; 5]; mod_pub := None |} ] |}.

Definition node_of (uuid : bytes) (mac : bytes) (ua : Z) : bt_mesh_node_t :=
  {| node_addr := {| addr_val := mac; addr_type := 0 |}; dev_uuid := uuid;
     oob_info := 0; unicast_addr := ua; element_num := 2; node_net_idx := 0;
     node_flags := 0; iv_index := 0; dev_key := key_c; node_name := [] |}.

Definition uuid1 : bytes := replicate 16 17.
Definition uuid2 : bytes := replicate 16 34.
Definition mac1 : bytes := [1; 2; 3; 4; 5; 6].
Definition mac2 : bytes := [10; 11; 12; 13; 14; 15].

(** Two subnets (indices 0 and 1) and a free row; an AppKey table of two
    rows, both occupied; a node table of three slots, the first two for
    self-provisioned nodes, with one node in slot 0 and one in slot 2. *)
Definition base_state : state :=
  {| mesh_nodes := [Some (node_of uuid1 mac1 2); None; Some (node_of uuid2 mac2 4)];
     all_node_count := 2;
     prov_node_count := 1;
     bt_mesh := {| rpl := [ {| rpl_src := 3; rpl_old_iv := false; rpl_seq := 77 |};
                            {| rpl_src := 4; rpl_old_iv := false; rpl_seq := 12 |} ];
                   p_sub := [Some sub0; Some sub1; None];
                   p_app_keys := [Some app5; Some app6];
                   p_net_idx_next := 0;
                   p_app_idx_next := 5 |};
     comp := [elem0];
     log := [] |}.

(** A late state: the second subnet has index 0xFFF and the NetKey cursor
    stands at 0xFFF. *)
Definition sub4095 : bt_mesh_subnet := new_subnet 4095 key_a 1.

Definition late_state : state :=
  set_bt_mesh
    (set_p_net_idx_next 4095
       (set_p_sub [Some sub0; Some sub4095; None] (bt_mesh base_state)))
    base_state.

(** The state in which an auto-index add leaves [late_state]: the cursor
    has run to 0x1000. *)
Definition spent_state : state :=
  set_bt_mesh (set_p_net_idx_next 4096 (bt_mesh late_state)) late_state.

(** The same with the second AppKey row empty. *)
Definition sparse_state : state :=
  set_bt_mesh (set_p_app_keys [Some app5; None] (bt_mesh base_state)) base_state.

(** * Properties *)

(** ** The table loops *)

Lemma find_row_Some_inv {A : Type} (f : A -> bool) (tbl : list (option A)) :
  forall (base i : nat) (a : A),
    find_row f base tbl = Some (i, a) ->
    exists k : nat,
      i = (base + k)%nat /\ tbl !! k = Some (Some a) /\ f a = true
      /\ forall (j : nat) (a' : A),
           (j < k)%nat -> tbl !! j = Some (Some a') -> f a' = false.
Proof.
  induction tbl as [|[x|] tl IH]; intros base i a H; simpl in H.
  - discriminate.
  - destruct (f x) eqn:Hfx.
    + inversion H; subst. exists 0%nat. repeat split; auto; try lia.
    + apply IH in H as (k & -> & Hk & Hfa & Hmin).
      exists (S k). repeat split; auto; try lia.
      intros [|j] a' Hj Hl; simpl in Hl.
      * congruence.
      * apply (Hmin j); auto. lia.
  - apply IH in H as (k & -> & Hk & Hfa & Hmin).
    exists (S k). repeat split; auto; try lia.
    intros [|j] a' Hj Hl; simpl in Hl.
    + discriminate.
    + apply (Hmin j); auto. lia.
Qed.

Lemma find_row_None_inv {A : Type} (f : A -> bool) (tbl : list (option A)) :
  forall (base : nat),
    find_row f base tbl = None ->
    forall (j : nat) (a : A), tbl !! j = Some (Some a) -> f a = false.
Proof.
  induction tbl as [|[x|] tl IH]; intros base H j a Hl; simpl in H.
  - destruct j; discriminate.
  - destruct (f x) eqn:Hfx; [discriminate|].
    destruct j as [|j]; simpl in Hl; [congruence | eauto].
  - destruct j as [|j]; simpl in Hl; [discriminate | eauto].
Qed.

Lemma find_row_found {A : Type} (f : A -> bool) (tbl : list (option A)) :
  forall (base j : nat) (a : A),
    tbl !! j = Some (Some a) -> f a = true ->
    exists (i : nat) (a' : A), find_row f base tbl = Some (i, a').
Proof.
  intros base j a Hl Hf.
  destruct (find_row f base tbl) as [[i a']|] eqn:E; eauto.
  rewrite (find_row_None_inv f tbl base E j a Hl) in Hf. discriminate.
Qed.

Lemma find_row_0 {A : Type} (f : A -> bool) (tbl : list (option A)) (i : nat) (a : A) :
  find_row f 0 tbl = Some (i, a) ->
  tbl !! i = Some (Some a) /\ f a = true
  /\ forall (j : nat) (a' : A),
       (j < i)%nat -> tbl !! j = Some (Some a') -> f a' = false.
Proof.
  intros H. apply find_row_Some_inv in H as (k & -> & H). exact H.
Qed.

Lemma find_free_Some_inv {A : Type} (tbl : list (option A)) :
  forall (base i : nat),
    find_free base tbl = Some i ->
    exists k : nat, i = (base + k)%nat /\ tbl !! k = Some None.
Proof.
  induction tbl as [|[x|] tl IH]; intros base i H; simpl in H.
  - discriminate.
  - apply IH in H as (k & -> & Hk). exists (S k). split; [lia | exact Hk].
  - inversion H; subst. exists 0%nat. split; [lia | reflexivity].
Qed.

Lemma find_free_None_inv {A : Type} (tbl : list (option A)) :
  forall (base : nat),
    find_free base tbl = None ->
    forall j : nat, tbl !! j <> Some None.
Proof.
  induction tbl as [|[x|] tl IH]; intros base H j; simpl in H.
  - destruct j; discriminate.
  - destruct j as [|j]; simpl; [discriminate | eauto].
  - discriminate.
Qed.

(** ** Index checks in terms of the table *)

Lemma check_net_idx_live (s : state) (idx : Z) (exist : bool) :
  net_idx_live s idx ->
  provisioner_check_net_idx idx exist s = if exist then - EEXIST else 0.
Proof.
  intros (i & sub & Hl & Hidx). unfold provisioner_check_net_idx.
  destruct (find_row_found (fun sub => sub_net_idx sub =? idx) _ 0 i sub Hl)
    as (i' & a' & ->); [apply Z.eqb_eq; exact Hidx | reflexivity].
Qed.

Lemma check_net_idx_dead (s : state) (idx : Z) (exist : bool) :
  ~ net_idx_live s idx ->
  provisioner_check_net_idx idx exist s = if exist then 0 else - ENODEV.
Proof.
  intros Hn. unfold provisioner_check_net_idx.
  destruct (find_row _ 0 _) as [[i sub]|] eqn:E; [|reflexivity].
  apply find_row_0 in E as (Hl & Hf & _). apply Z.eqb_eq in Hf.
  exfalso. apply Hn. exists i, sub. auto.
Qed.

Lemma check_app_idx_live (s : state) (idx : Z) (exist : bool) :
  app_idx_live s idx ->
  provisioner_check_app_idx idx exist s = if exist then - EEXIST else 0.
Proof.
  intros (i & key & Hl & Hidx). unfold provisioner_check_app_idx.
  destruct (find_row_found (fun key => key_app_idx key =? idx) _ 0 i key Hl)
    as (i' & a' & ->); [apply Z.eqb_eq; exact Hidx | reflexivity].
Qed.

Lemma check_app_idx_dead (s : state) (idx : Z) (exist : bool) :
  ~ app_idx_live s idx ->
  provisioner_check_app_idx idx exist s = if exist then 0 else - ENODEV.
Proof.
  intros Hn. unfold provisioner_check_app_idx.
  destruct (find_row _ 0 _) as [[i key]|] eqn:E; [|reflexivity].
  apply find_row_0 in E as (Hl & Hf & _). apply Z.eqb_eq in Hf.
  exfalso. apply Hn. exists i, key. auto.
Qed.

Lemma net_idx_live_dec (s : state) (idx : Z) :
  net_idx_live s idx \/ ~ net_idx_live s idx.
Proof.
  destruct (find_row (fun sub => sub_net_idx sub =? idx) 0 (p_sub (bt_mesh s)))
    as [[i sub]|] eqn:E.
  - left. apply find_row_0 in E as (Hl & Hf & _). apply Z.eqb_eq in Hf.
    exists i, sub. auto.
  - right. intros (i & sub & Hl & Hidx).
    pose proof (find_row_None_inv _ _ _ E i sub Hl) as Hf.
    apply Z.eqb_neq in Hf. contradiction.
Qed.

Lemma app_idx_live_dec (s : state) (idx : Z) :
  app_idx_live s idx \/ ~ app_idx_live s idx.
Proof.
  destruct (find_row (fun key => key_app_idx key =? idx) 0 (p_app_keys (bt_mesh s)))
    as [[i key]|] eqn:E.
  - left. apply find_row_0 in E as (Hl & Hf & _). apply Z.eqb_eq in Hf.
    exists i, key. auto.
  - right. intros (i & key & Hl & Hidx).
    pose proof (find_row_None_inv _ _ _ E i key Hl) as Hf.
    apply Z.eqb_neq in Hf. contradiction.
Qed.

(** ** Duplicate key material in terms of the table *)

Lemma check_net_key_fresh (s : state) (net_key : option bytes) (idx : Z) :
  net_key_fresh s net_key ->
  provisioner_check_net_key net_key idx s = (0, idx).
Proof.
  intros Hf. unfold provisioner_check_net_key.
  destruct net_key as [k|]; [|reflexivity].
  destruct (find_row _ 0 _) as [[i sub]|] eqn:E; [|reflexivity].
  apply find_row_0 in E as (Hl & Hm & _).
  exfalso. apply (Hf k eq_refl). exists i, sub. auto.
Qed.

Lemma check_net_key_stored (s : state) (k : bytes) (idx : Z) :
  net_key_stored s k ->
  exists (i : nat) (sub : bt_mesh_subnet),
    p_sub (bt_mesh s) !! i = Some (Some sub) /\ net_key_matches k sub = true
    /\ (forall (j : nat) (sub' : bt_mesh_subnet),
          (j < i)%nat -> p_sub (bt_mesh s) !! j = Some (Some sub') ->
          net_key_matches k sub' = false)
    /\ provisioner_check_net_key (Some k) idx s = (- EEXIST, sub_net_idx sub).
Proof.
  intros (i0 & sub0 & Hl0 & Hm0). unfold provisioner_check_net_key.
  destruct (find_row_found (net_key_matches k) _ 0 i0 sub0 Hl0 Hm0) as (i & sub & E).
  rewrite E. apply find_row_0 in E as (Hl & Hm & Hmin).
  exists i, sub. auto.
Qed.

Lemma check_app_key_fresh (s : state) (app_key : option bytes) (idx : Z) :
  app_key_fresh s app_key ->
  provisioner_check_app_key app_key idx s = (0, idx).
Proof.
  intros Hf. unfold provisioner_check_app_key.
  destruct app_key as [k|]; [|reflexivity].
  destruct (find_row _ 0 _) as [[i key]|] eqn:E; [|reflexivity].
  apply find_row_0 in E as (Hl & Hm & _).
  exfalso. apply (Hf k eq_refl). exists i, key. auto.
Qed.

Lemma check_app_key_stored (s : state) (k : bytes) (idx : Z) :
  app_key_stored s k ->
  exists (i : nat) (key : bt_mesh_app_key),
    p_app_keys (bt_mesh s) !! i = Some (Some key) /\ app_key_matches k key = true
    /\ (forall (j : nat) (key' : bt_mesh_app_key),
          (j < i)%nat -> p_app_keys (bt_mesh s) !! j = Some (Some key') ->
          app_key_matches k key' = false)
    /\ provisioner_check_app_key (Some k) idx s = (- EEXIST, key_app_idx key).
Proof.
  intros (i0 & key0 & Hl0 & Hm0). unfold provisioner_check_app_key.
  destruct (find_row_found (app_key_matches k) _ 0 i0 key0 Hl0 Hm0) as (i & key & E).
  rewrite E. apply find_row_0 in E as (Hl & Hm & Hmin).
  exists i, key. auto.
Qed.

(** The argument test at the head of both adds lets through the sentinel
    and every index below 0x1000. *)
Lemma geb_false (a b : Z) : a < b -> (a >=? b) = false.
Proof. intros H. rewrite Z.geb_leb. apply Z.leb_gt. exact H. Qed.

Lemma geb_true (a b : Z) : b <= a -> (a >=? b) = true.
Proof. intros H. rewrite Z.geb_leb. apply Z.leb_le. exact H. Qed.

Lemma idx_arg_ok (idx : Z) :
  idx = 0xFFFF \/ idx < 0x1000 ->
  negb (idx =? 0xFFFF) && (idx >=? 0x1000) = false.
Proof.
  intros [->|H]; [reflexivity|].
  apply andb_false_iff. right. apply geb_false. exact H.
Qed.

Lemma cursor_ok (c : Z) : c < 0x1000 -> (c >=? 0x1000) = false.
Proof. apply geb_false. Qed.

(** ** Application key add on an unknown NetKey index *)

(** C2 (as amended): an AppKey add whose [net_idx] names no live subnet
    fails with [-ENODEV] (NotFound) and changes nothing, provided the call
    gets as far as that test: the AppKey cursor is below 0x1000, the
    requested index is the sentinel or below 0x1000, and the key bytes do
    not repeat a stored AppKey. *)
Theorem app_key_add_unknown_net_idx (e : env) (app_key : option bytes)
    (net_idx idx : Z) (s : state) :
  p_app_idx_next (bt_mesh s) < 0x1000 ->
  idx = 0xFFFF \/ idx < 0x1000 ->
  app_key_fresh s app_key ->
  ~ net_idx_live s net_idx ->
  bt_mesh_provisioner_local_app_key_add e app_key net_idx (Some idx) s
    = Some (ERR NetIdxMissing, Some idx, s)
  /\ ret (ERR NetIdxMissing) = - ENODEV.
Proof.
  intros Hc Hi Hf Hn. split; [|reflexivity].
  unfold bt_mesh_provisioner_local_app_key_add.
  rewrite (cursor_ok _ Hc), (idx_arg_ok _ Hi), (check_app_key_fresh _ _ _ Hf).
  simpl. rewrite (check_net_idx_dead _ _ false Hn). reflexivity.
Qed.

(** ** Adding key material that is already stored *)

(** C3 (as amended): with the NetKey cursor below 0x1000 and a requested
    index that is the sentinel or below 0x1000, adding key bytes that equal
    either key slot of a live subnet succeeds, reports the index of the
    first such subnet in table order, and leaves the whole state as it
    was, whatever index was requested. *)
Theorem net_key_add_stored_key (e : env) (k : bytes) (idx : Z) (s : state) :
  p_net_idx_next (bt_mesh s) < 0x1000 ->
  idx = 0xFFFF \/ idx < 0x1000 ->
  net_key_stored s k ->
  exists (i : nat) (sub : bt_mesh_subnet),
    p_sub (bt_mesh s) !! i = Some (Some sub)
    /\ net_key_matches k sub = true
    /\ (forall (j : nat) (sub' : bt_mesh_subnet),
          (j < i)%nat -> p_sub (bt_mesh s) !! j = Some (Some sub') ->
          net_key_matches k sub' = false)
    /\ bt_mesh_provisioner_local_net_key_add e (Some k) (Some idx) s
       = Some (OK, Some (sub_net_idx sub), s).
Proof.
  intros Hc Hi Hs.
  destruct (check_net_key_stored s k idx Hs) as (i & sub & Hl & Hm & Hmin & Hchk).
  exists i, sub. repeat split; auto.
  unfold bt_mesh_provisioner_local_net_key_add.
  rewrite (cursor_ok _ Hc), (idx_arg_ok _ Hi), Hchk. reflexivity.
Qed.

(** The same for the AppKey table. *)
Lemma app_key_add_stored_key (e : env) (k : bytes) (net_idx idx : Z) (s : state) :
  p_app_idx_next (bt_mesh s) < 0x1000 ->
  idx = 0xFFFF \/ idx < 0x1000 ->
  app_key_stored s k ->
  exists (i : nat) (key : bt_mesh_app_key),
    p_app_keys (bt_mesh s) !! i = Some (Some key)
    /\ app_key_matches k key = true
    /\ bt_mesh_provisioner_local_app_key_add e (Some k) net_idx (Some idx) s
       = Some (OK, Some (key_app_idx key), s).
Proof.
  intros Hc Hi Hs.
  destruct (check_app_key_stored s k idx Hs) as (i & key & Hl & Hm & Hmin & Hchk).
  exists i, key. repeat split; auto.
  unfold bt_mesh_provisioner_local_app_key_add.
  rewrite (cursor_ok _ Hc), (idx_arg_ok _ Hi), Hchk. reflexivity.
Qed.

(** The two tests that come before the duplicate check. *)
Lemma net_key_add_cursor_spent (e : env) (net_key : option bytes)
    (net_idx : option Z) (s : state) :
  0x1000 <= p_net_idx_next (bt_mesh s) ->
  bt_mesh_provisioner_local_net_key_add e net_key net_idx s
    = Some (ERR NoIndexAvailable, net_idx, s).
Proof.
  intros H. unfold bt_mesh_provisioner_local_net_key_add.
  rewrite (geb_true _ _ H). reflexivity.
Qed.

Lemma net_key_add_idx_out_of_range (e : env) (net_key : option bytes)
    (idx : Z) (s : state) :
  p_net_idx_next (bt_mesh s) < 0x1000 ->
  0x1000 <= idx -> idx <> 0xFFFF ->
  bt_mesh_provisioner_local_net_key_add e net_key (Some idx) s
    = Some (ERR InvalidParameter, Some idx, s).
Proof.
  intros Hc Hi Hne. unfold bt_mesh_provisioner_local_net_key_add.
  rewrite (cursor_ok _ Hc).
  replace (negb (idx =? 0xFFFF) && (idx >=? 0x1000)) with true; [reflexivity|].
  symmetry. apply andb_true_iff. split.
  - apply negb_true_iff, Z.eqb_neq. exact Hne.
  - apply geb_true. exact Hi.
Qed.

(** ** Free rows *)

Lemma find_free_first {A : Type} (tbl : list (option A)) :
  forall (base i : nat), first_free tbl i -> find_free base tbl = Some (base + i)%nat.
Proof.
  induction tbl as [|[x|] tl IH]; intros base i [Hl Hmin]; simpl.
  - destruct i; discriminate.
  - destruct i as [|i]; [discriminate|].
    rewrite (IH (S base) i); [f_equal; lia|].
    split; [exact Hl|]. intros j Hj. apply (Hmin (S j)). lia.
  - destruct i as [|i]; [f_equal; lia|].
    exfalso. apply (Hmin 0%nat); [lia | reflexivity].
Qed.

Lemma find_free_full {A : Type} (tbl : list (option A)) :
  forall base : nat, table_full tbl -> find_free base tbl = None.
Proof.
  induction tbl as [|[x|] tl IH]; intros base Hfull; simpl.
  - reflexivity.
  - apply IH. intros j. apply (Hfull (S j)).
  - exfalso. apply (Hfull 0%nat). reflexivity.
Qed.

Lemma check_net_key_full_first (s : state) (i : nat) :
  first_free (p_sub (bt_mesh s)) i ->
  provisioner_check_net_key_full s = Z.of_nat i.
Proof.
  intros H. unfold provisioner_check_net_key_full.
  rewrite (find_free_first _ 0 i H). reflexivity.
Qed.

Lemma check_net_key_full_none (s : state) :
  table_full (p_sub (bt_mesh s)) ->
  provisioner_check_net_key_full s = - ENOMEM.
Proof.
  intros H. unfold provisioner_check_net_key_full.
  rewrite (find_free_full _ 0 H). reflexivity.
Qed.

Lemma check_app_key_full_first (s : state) (i : nat) :
  first_free (p_app_keys (bt_mesh s)) i ->
  provisioner_check_app_key_full s = Z.of_nat i.
Proof.
  intros H. unfold provisioner_check_app_key_full.
  rewrite (find_free_first _ 0 i H). reflexivity.
Qed.

Lemma of_nat_ltb_0 (i : nat) : (Z.of_nat i <? 0) = false.
Proof. apply Z.ltb_ge. lia. Qed.

(** ** Network key add with an explicit index *)

(** C4 (as amended): for a NetKey add that passes the two tests at the
    head of the function (cursor below 0x1000, requested index below
    0x1000) and brings key material that is not stored yet: an index in use
    gives [-EEXIST] (AlreadyExists); otherwise a table without free row
    gives [-ENOMEM] (ResourceExhausted); otherwise index and capacity
    reject nothing, and the outcome is decided by the random generator,
    the allocator and the key derivation alone, a success storing the new
    row under the requested index in the first free row. *)
Theorem net_key_add_explicit_idx (e : env) (net_key : option bytes) (idx : Z) (s : state) :
  p_net_idx_next (bt_mesh s) < 0x1000 ->
  idx < 0x1000 ->
  net_key_fresh s net_key ->
  (net_idx_live s idx ->
     bt_mesh_provisioner_local_net_key_add e net_key (Some idx) s
       = Some (ERR IndexExists, Some idx, s)
     /\ ret (ERR IndexExists) = - EEXIST)
  /\ (~ net_idx_live s idx -> table_full (p_sub (bt_mesh s)) ->
        bt_mesh_provisioner_local_net_key_add e net_key (Some idx) s
          = Some (ERR QueueFull, Some idx, s)
        /\ ret (ERR QueueFull) = - ENOMEM)
  /\ (forall i : nat,
        ~ net_idx_live s idx -> first_free (p_sub (bt_mesh s)) i ->
        bt_mesh_provisioner_local_net_key_add e net_key (Some idx) s
          = Some
              match fill_p_key e net_key with
              | None => (ERR RandFailed, Some idx, s)
              | Some p_key =>
                  if osi_calloc e then
                    match bt_mesh_net_keys_create e p_key with
                    | None => (ERR DeriveFailed, Some idx, s)
                    | Some n =>
                        (OK, Some idx,
                         net_key_commit (Z.of_nat i) (new_subnet idx p_key n)
                                        (p_net_idx_next (bt_mesh s)) s)
                    end
                  else (ERR AllocFailed, Some idx, s)
              end).
Proof.
  intros Hc Hi Hf.
  assert (Harg : negb (idx =? 0xFFFF) && (idx >=? 0x1000) = false)
    by (apply idx_arg_ok; right; exact Hi).
  assert (Hne : (idx =? 0xFFFF) = false) by (apply Z.eqb_neq; lia).
  unfold bt_mesh_provisioner_local_net_key_add.
  rewrite (cursor_ok _ Hc), Harg, (check_net_key_fresh _ _ _ Hf). simpl.
  split; [|split].
  - intros Hl. rewrite (check_net_idx_live _ _ true Hl). split; reflexivity.
  - intros Hd Hfull.
    rewrite (check_net_idx_dead _ _ true Hd), (check_net_key_full_none _ Hfull).
    split; reflexivity.
  - intros i Hd Hfree.
    rewrite (check_net_idx_dead _ _ true Hd), (check_net_key_full_first _ _ Hfree).
    simpl. rewrite of_nat_ltb_0, Hne. simpl.
    destruct (fill_p_key e net_key) as [p_key|]; [|reflexivity].
    destruct (osi_calloc e); simpl; [|reflexivity].
    destruct (bt_mesh_net_keys_create e p_key); reflexivity.
Qed.

(** What a successful commit leaves in the table and in the cursor. *)
Lemma net_key_commit_p_sub (add : Z) (sub : bt_mesh_subnet) (next : Z) (s : state) :
  p_sub (bt_mesh (net_key_commit add sub next s))
    = <[Z.to_nat add := Some sub]> (p_sub (bt_mesh s))
  /\ p_net_idx_next (bt_mesh (net_key_commit add sub next s)) = next
  /\ p_app_keys (bt_mesh (net_key_commit add sub next s)) = p_app_keys (bt_mesh s).
Proof. repeat split. Qed.

Lemma app_key_commit_p_app_keys (add : Z) (key : bt_mesh_app_key) (next : Z) (s : state) :
  p_app_keys (bt_mesh (app_key_commit add key next s))
    = <[Z.to_nat add := Some key]> (p_app_keys (bt_mesh s))
  /\ p_app_idx_next (bt_mesh (app_key_commit add key next s)) = next
  /\ p_sub (bt_mesh (app_key_commit add key next s)) = p_sub (bt_mesh s).
Proof. repeat split. Qed.

(** ** Reading the active application key *)

(** C8 (as amended): when the subnet [net_idx] is live and some live
    AppKey row carries both [net_idx] and [app_idx], the get returns the
    key of the first such row in table order: slot 1 if its [updated] flag
    is set, slot 0 otherwise.  When no live row carries both, as when the
    AppKey [app_idx] is bound to another subnet, the get returns [NULL]. *)
Theorem app_key_get_bound_key (net_idx app_idx : Z) (s : state) :
  net_idx_live s net_idx ->
  ((exists (j : nat) (key : bt_mesh_app_key),
      p_app_keys (bt_mesh s) !! j = Some (Some key)
      /\ key_net_idx key = net_idx /\ key_app_idx key = app_idx) ->
   exists (j : nat) (key : bt_mesh_app_key),
     p_app_keys (bt_mesh s) !! j = Some (Some key)
     /\ key_net_idx key = net_idx /\ key_app_idx key = app_idx
     /\ (forall (j' : nat) (key' : bt_mesh_app_key),
           (j' < j)%nat -> p_app_keys (bt_mesh s) !! j' = Some (Some key') ->
           ~ (key_net_idx key' = net_idx /\ key_app_idx key' = app_idx))
     /\ bt_mesh_provisioner_local_app_key_get net_idx app_idx s
        = Some (if updated key then val (app_keys1 key) else val (app_keys0 key)))
  /\ ((forall (j : nat) (key : bt_mesh_app_key),
         p_app_keys (bt_mesh s) !! j = Some (Some key) ->
         key_app_idx key = app_idx -> key_net_idx key <> net_idx) ->
      bt_mesh_provisioner_local_app_key_get net_idx app_idx s = None).
Proof.
  intros Hnet. split.
  - intros (j0 & key0 & Hl0 & Hn0 & Ha0).
    assert (Hm0 : app_key_is net_idx app_idx key0 = true).
    { unfold app_key_is. apply andb_true_iff. split; apply Z.eqb_eq; assumption. }
    destruct (find_row_found _ _ 0 j0 key0 Hl0 Hm0) as (j & key & E).
    pose proof (find_row_0 _ _ _ _ E) as (Hl & Hm & Hmin).
    unfold app_key_is in Hm. apply andb_true_iff in Hm as [Hn Ha].
    apply Z.eqb_eq in Hn, Ha.
    exists j, key. repeat split; auto.
    + intros j' key' Hj' Hl' [Hn' Ha'].
      specialize (Hmin j' key' Hj' Hl'). unfold app_key_is in Hmin.
      apply andb_false_iff in Hmin as [H|H]; apply Z.eqb_neq in H; contradiction.
    + unfold bt_mesh_provisioner_local_app_key_get.
      rewrite (check_net_idx_live _ _ false Hnet).
      rewrite (check_app_idx_live s app_idx false) by (exists j0, key0; auto).
      simpl. rewrite E. destruct (updated key); reflexivity.
  - intros Hother. unfold bt_mesh_provisioner_local_app_key_get.
    destruct (negb (provisioner_check_net_idx net_idx false s =? 0)); [reflexivity|].
    destruct (negb (provisioner_check_app_idx app_idx false s =? 0)); [reflexivity|].
    destruct (find_row (app_key_is net_idx app_idx) 0 (p_app_keys (bt_mesh s)))
      as [[j key]|] eqn:E; [|reflexivity].
    exfalso. apply find_row_0 in E as (Hl & Hm & _).
    unfold app_key_is in Hm. apply andb_true_iff in Hm as [Hn Ha].
    apply Z.eqb_eq in Hn, Ha. apply (Hother j key Hl Ha Hn).
Qed.

(** ** The index allocation loop *)

Lemma u16_succ (c : Z) : 0 <= c < 0x1000 -> u16 (c + 1) = c + 1.
Proof. intros H. unfold u16. apply Z.mod_small. lia. Qed.

Lemma u16_succ_ge (c : Z) : c < 0x1000 -> c + 1 <= u16 (c + 1).
Proof.
  intros H. unfold u16.
  destruct (Z_lt_le_dec (c + 1) 0) as [Hneg|Hpos].
  - pose proof (Z.mod_pos_bound (c + 1) 65536). lia.
  - rewrite Z.mod_small; lia.
Qed.

(** The loop ends within the fuel that the adds give it. *)
Lemma idx_alloc_total (in_use : Z -> bool) :
  forall (fuel : nat) (c : Z),
    c < 0x1000 -> (Z.to_nat (0x1000 - c) < fuel)%nat ->
    exists r : Z + Z, idx_alloc in_use fuel c = Some r.
Proof.
  induction fuel as [|fuel IH]; intros c Hc Hfuel; [lia|].
  simpl. destruct (in_use c); [|eauto].
  destruct (u16 (c + 1) >=? 0x1000) eqn:Hge; [eauto|].
  rewrite Z.geb_leb in Hge. apply Z.leb_gt in Hge.
  pose proof (u16_succ_ge c Hc).
  apply IH; lia.
Qed.

Lemma idx_alloc_spec (in_use : Z -> bool) :
  forall (fuel : nat) (c : Z),
    0 <= c < 0x1000 -> (Z.to_nat (0x1000 - c) < fuel)%nat ->
    (exists j : Z,
        least_unused (fun k => in_use k = true) c j
        /\ idx_alloc in_use fuel c = Some (inr j))
    \/ (exhausted (fun k => in_use k = true) c
        /\ idx_alloc in_use fuel c = Some (inl 0x1000)).
Proof.
  induction fuel as [|fuel IH]; intros c Hc Hfuel; [lia|].
  simpl. destruct (in_use c) eqn:Hu.
  - rewrite (u16_succ c Hc).
    destruct (c + 1 >=? 0x1000) eqn:Hge; rewrite Z.geb_leb in Hge.
    + apply Z.leb_le in Hge. right. split.
      * intros k Hk. replace k with c by lia. exact Hu.
      * do 2 f_equal. lia.
    + apply Z.leb_gt in Hge.
      destruct (IH (c + 1)) as [(j & (Hj & Hfree & Hbusy) & Hr)|(Hex & Hr)]; try lia.
      * left. exists j. split; [|exact Hr].
        split; [lia|]. split; [exact Hfree|].
        intros k Hk. destruct (Z.eq_dec k c) as [->|Hne]; [exact Hu|].
        apply Hbusy. lia.
      * right. split; [|exact Hr].
        intros k Hk. destruct (Z.eq_dec k c) as [->|Hne]; [exact Hu|].
        apply Hex. lia.
  - left. exists c. split; [|reflexivity].
    split; [lia|]. split; [rewrite Hu; discriminate|].
    intros k Hk. lia.
Qed.

Lemma net_idx_in_use_live (s : state) (idx : Z) :
  net_idx_in_use s idx = true <-> net_idx_live s idx.
Proof.
  unfold net_idx_in_use. split.
  - intros H. destruct (net_idx_live_dec s idx) as [Hl|Hd]; [exact Hl|].
    rewrite (check_net_idx_dead _ _ true Hd) in H. discriminate.
  - intros Hl. rewrite (check_net_idx_live _ _ true Hl). reflexivity.
Qed.

Lemma app_idx_in_use_live (s : state) (idx : Z) :
  app_idx_in_use s idx = true <-> app_idx_live s idx.
Proof.
  unfold app_idx_in_use. split.
  - intros H. destruct (app_idx_live_dec s idx) as [Hl|Hd]; [exact Hl|].
    rewrite (check_app_idx_dead _ _ true Hd) in H. discriminate.
  - intros Hl. rewrite (check_app_idx_live _ _ true Hl). reflexivity.
Qed.

Lemma idx_fuel_enough (c : Z) : (Z.to_nat (0x1000 - c) < idx_fuel c)%nat.
Proof. unfold idx_fuel. lia. Qed.

(** The loop on the NetKey table, stated on the table. *)
Lemma net_idx_alloc_spec (s : state) (c : Z) :
  0 <= c < 0x1000 ->
  (exists j : Z,
      least_unused (net_idx_live s) c j
      /\ idx_alloc (net_idx_in_use s) (idx_fuel c) c = Some (inr j))
  \/ (exhausted (net_idx_live s) c
      /\ idx_alloc (net_idx_in_use s) (idx_fuel c) c = Some (inl 0x1000)).
Proof.
  intros Hc.
  destruct (idx_alloc_spec (net_idx_in_use s) (idx_fuel c) c Hc (idx_fuel_enough c))
    as [(j & (Hj & Hfree & Hbusy) & Hr)|(Hex & Hr)].
  - left. exists j. split; [|exact Hr]. split; [exact Hj|]. split.
    + intros Hl. apply Hfree. apply net_idx_in_use_live. exact Hl.
    + intros k Hk. apply net_idx_in_use_live. apply Hbusy. exact Hk.
  - right. split; [|exact Hr].
    intros k Hk. apply net_idx_in_use_live. apply Hex. exact Hk.
Qed.

Lemma app_idx_alloc_spec (s : state) (c : Z) :
  0 <= c < 0x1000 ->
  (exists j : Z,
      least_unused (app_idx_live s) c j
      /\ idx_alloc (app_idx_in_use s) (idx_fuel c) c = Some (inr j))
  \/ (exhausted (app_idx_live s) c
      /\ idx_alloc (app_idx_in_use s) (idx_fuel c) c = Some (inl 0x1000)).
Proof.
  intros Hc.
  destruct (idx_alloc_spec (app_idx_in_use s) (idx_fuel c) c Hc (idx_fuel_enough c))
    as [(j & (Hj & Hfree & Hbusy) & Hr)|(Hex & Hr)].
  - left. exists j. split; [|exact Hr]. split; [exact Hj|]. split.
    + intros Hl. apply Hfree. apply app_idx_in_use_live. exact Hl.
    + intros k Hk. apply app_idx_in_use_live. apply Hbusy. exact Hk.
  - right. split; [|exact Hr].
    intros k Hk. apply app_idx_in_use_live. apply Hex. exact Hk.
Qed.

Lemma least_unused_unique (in_use : Z -> Prop) (c j j' : Z) :
  least_unused in_use c j -> least_unused in_use c j' -> j = j'.
Proof.
  intros (Hj & Hf & Hb) (Hj' & Hf' & Hb').
  destruct (Z.lt_trichotomy j j') as [Hlt|[Heq|Hgt]]; [|exact Heq|].
  - exfalso. apply Hf. apply Hb'. lia.
  - exfalso. apply Hf'. apply Hb. lia.
Qed.

Lemma least_unused_not_exhausted (in_use : Z -> Prop) (c j : Z) :
  least_unused in_use c j -> ~ exhausted in_use c.
Proof. intros (Hj & Hf & _) Hex. apply Hf. apply Hex. exact Hj. Qed.

(** Both adds always return. *)
Lemma net_key_add_total (e : env) (net_key : option bytes) (net_idx : option Z) (s : state) :
  exists r, bt_mesh_provisioner_local_net_key_add e net_key net_idx s = Some r.
Proof.
  unfold bt_mesh_provisioner_local_net_key_add.
  destruct (p_net_idx_next (bt_mesh s) >=? 0x1000) eqn:Hc; [eauto|].
  rewrite Z.geb_leb in Hc. apply Z.leb_gt in Hc.
  destruct net_idx as [idx0|]; [|eauto].
  destruct (negb (idx0 =? 0xFFFF) && (idx0 >=? 0x1000)); [eauto|].
  destruct (provisioner_check_net_key net_key idx0 s) as [dup idx].
  destruct (negb (dup =? 0)); [eauto|].
  destruct (negb (provisioner_check_net_idx idx true s =? 0)); [eauto|].
  destruct (provisioner_check_net_key_full s <? 0); [eauto|].
  destruct (fill_p_key e net_key) as [p_key|]; [|eauto].
  destruct (negb (osi_calloc e)); [eauto|].
  destruct (bt_mesh_net_keys_create e p_key) as [n|]; [|eauto].
  destruct (negb (idx =? 0xFFFF)); [eauto|].
  destruct (idx_alloc_total (net_idx_in_use s) (idx_fuel (p_net_idx_next (bt_mesh s)))
              (p_net_idx_next (bt_mesh s)) Hc (idx_fuel_enough _)) as [[next|j] ->]; eauto.
Qed.

Lemma app_key_add_total (e : env) (app_key : option bytes) (net_idx : Z)
    (app_idx : option Z) (s : state) :
  exists r, bt_mesh_provisioner_local_app_key_add e app_key net_idx app_idx s = Some r.
Proof.
  unfold bt_mesh_provisioner_local_app_key_add.
  destruct (p_app_idx_next (bt_mesh s) >=? 0x1000) eqn:Hc; [eauto|].
  rewrite Z.geb_leb in Hc. apply Z.leb_gt in Hc.
  destruct app_idx as [idx0|]; [|eauto].
  destruct (negb (idx0 =? 0xFFFF) && (idx0 >=? 0x1000)); [eauto|].
  destruct (provisioner_check_app_key app_key idx0 s) as [dup idx].
  destruct (negb (dup =? 0)); [eauto|].
  destruct (negb (provisioner_check_net_idx net_idx false s =? 0)); [eauto|].
  destruct (negb (provisioner_check_app_idx idx true s =? 0)); [eauto|].
  destruct (provisioner_check_app_key_full s <? 0); [eauto|].
  destruct (fill_p_key e app_key) as [p_key|]; [|eauto].
  destruct (negb (osi_calloc e)); [eauto|].
  destruct (bt_mesh_app_id e p_key) as [a|]; [|eauto].
  destruct (negb (idx =? 0xFFFF)); [eauto|].
  destruct (idx_alloc_total (app_idx_in_use s) (idx_fuel (p_app_idx_next (bt_mesh s)))
              (p_app_idx_next (bt_mesh s)) Hc (idx_fuel_enough _)) as [[next|j] ->]; eauto.
Qed.

(** ** Automatic index allocation *)

#[local] Arguments idx_alloc : simpl never.
#[local] Arguments idx_fuel : simpl never.

Lemma net_key_add_auto (e : env) (net_key : option bytes) (s : state)
    (add : nat) (p_key : bytes) (n : Z) :
  net_add_reaches_alloc e net_key s add p_key n ->
  (exists j : Z,
      least_unused (net_idx_live s) (p_net_idx_next (bt_mesh s)) j
      /\ bt_mesh_provisioner_local_net_key_add e net_key (Some 0xFFFF) s
         = Some (OK, Some j, net_key_commit (Z.of_nat add) (new_subnet j p_key n) j s))
  \/ (exhausted (net_idx_live s) (p_net_idx_next (bt_mesh s))
      /\ bt_mesh_provisioner_local_net_key_add e net_key (Some 0xFFFF) s
         = Some (ERR NoIndexAvailable, Some 0xFFFF,
                 set_bt_mesh (set_p_net_idx_next 0x1000 (bt_mesh s)) s)).
Proof.
  intros (Hc & Hf & Hs & Hfree & Hk & Hm & Hd).
  unfold bt_mesh_provisioner_local_net_key_add.
  rewrite (cursor_ok _ (proj2 Hc)), (check_net_key_fresh _ _ _ Hf). simpl.
  rewrite (check_net_idx_dead _ _ true Hs), (check_net_key_full_first _ _ Hfree).
  simpl. rewrite of_nat_ltb_0, Hk, Hm, Hd. simpl.
  destruct (net_idx_alloc_spec s _ Hc) as [(j & Hj & ->)|(Hex & ->)].
  - left. exists j. auto.
  - right. auto.
Qed.

Lemma app_key_add_auto (e : env) (app_key : option bytes) (net_idx : Z) (s : state)
    (add : nat) (p_key : bytes) (a : Z) :
  app_add_reaches_alloc e app_key net_idx s add p_key a ->
  (exists j : Z,
      least_unused (app_idx_live s) (p_app_idx_next (bt_mesh s)) j
      /\ bt_mesh_provisioner_local_app_key_add e app_key net_idx (Some 0xFFFF) s
         = Some (OK, Some j,
                 app_key_commit (Z.of_nat add) (new_app_key net_idx j p_key a) j s))
  \/ (exhausted (app_idx_live s) (p_app_idx_next (bt_mesh s))
      /\ bt_mesh_provisioner_local_app_key_add e app_key net_idx (Some 0xFFFF) s
         = Some (ERR NoIndexAvailable, Some 0xFFFF,
                 set_bt_mesh (set_p_app_idx_next 0x1000 (bt_mesh s)) s)).
Proof.
  intros (Hc & Hf & Hn & Hs & Hfree & Hk & Hm & Hd).
  unfold bt_mesh_provisioner_local_app_key_add.
  rewrite (cursor_ok _ (proj2 Hc)), (check_app_key_fresh _ _ _ Hf). simpl.
  rewrite (check_net_idx_live _ _ false Hn). simpl.
  rewrite (check_app_idx_dead _ _ true Hs), (check_app_key_full_first _ _ Hfree).
  simpl. rewrite of_nat_ltb_0, Hk, Hm, Hd. simpl.
  destruct (app_idx_alloc_spec s _ Hc) as [(j & Hj & ->)|(Hex & ->)].
  - left. exists j. auto.
  - right. auto.
Qed.

(** C5: once an auto-index add reaches the allocation loop, exactly one of
    two things happens.  Either some index from the cursor up to 0xFFF is
    unused: the add succeeds, the index [j] it reports and stores is the
    smallest such index (so below 0x1000, every index from the old cursor
    up to [j] being in use), the new row sits in the first free row, and
    the cursor has advanced to [j].  Or every index from the cursor up to
    0xFFF is in use: the add fails with [-EIO] on the "no index available"
    path, both tables are as before, and the cursor has advanced to 0x1000.
    This holds for the NetKey table and for the AppKey table. *)
Theorem key_add_auto_index (e : env) (s : state)
    (net_key app_key : option bytes) (net_idx : Z)
    (add_n add_a : nat) (p_key_n p_key_a : bytes) (n a : Z) :
  (net_add_reaches_alloc e net_key s add_n p_key_n n ->
   exists (st : status) (out : Z) (s' : state),
     bt_mesh_provisioner_local_net_key_add e net_key (Some 0xFFFF) s
       = Some (st, Some out, s')
     /\ p_net_idx_next (bt_mesh s) <= p_net_idx_next (bt_mesh s')
     /\ p_app_keys (bt_mesh s') = p_app_keys (bt_mesh s)
     /\ ((least_unused (net_idx_live s) (p_net_idx_next (bt_mesh s)) out
          /\ st = OK /\ out < 0x1000
          /\ p_net_idx_next (bt_mesh s') = out
          /\ p_sub (bt_mesh s')
             = <[add_n := Some (new_subnet out p_key_n n)]> (p_sub (bt_mesh s)))
         \/ (exhausted (net_idx_live s) (p_net_idx_next (bt_mesh s))
             /\ st = ERR NoIndexAvailable /\ ret st = - EIO
             /\ p_net_idx_next (bt_mesh s') = 0x1000
             /\ p_sub (bt_mesh s') = p_sub (bt_mesh s))))
  /\ (app_add_reaches_alloc e app_key net_idx s add_a p_key_a a ->
      exists (st : status) (out : Z) (s' : state),
        bt_mesh_provisioner_local_app_key_add e app_key net_idx (Some 0xFFFF) s
          = Some (st, Some out, s')
        /\ p_app_idx_next (bt_mesh s) <= p_app_idx_next (bt_mesh s')
        /\ p_sub (bt_mesh s') = p_sub (bt_mesh s)
        /\ ((least_unused (app_idx_live s) (p_app_idx_next (bt_mesh s)) out
             /\ st = OK /\ out < 0x1000
             /\ p_app_idx_next (bt_mesh s') = out
             /\ p_app_keys (bt_mesh s')
                = <[add_a := Some (new_app_key net_idx out p_key_a a)]>
                    (p_app_keys (bt_mesh s)))
            \/ (exhausted (app_idx_live s) (p_app_idx_next (bt_mesh s))
                /\ st = ERR NoIndexAvailable /\ ret st = - EIO
                /\ p_app_idx_next (bt_mesh s') = 0x1000
                /\ p_app_keys (bt_mesh s') = p_app_keys (bt_mesh s)))).
Proof.
  split.
  - intros Hr. pose proof Hr as (Hc & _).
    destruct (net_key_add_auto _ _ _ _ _ _ Hr) as [(j & Hj & ->)|(Hex & ->)].
    + pose proof Hj as (Hrange & _).
      exists OK, j, (net_key_commit (Z.of_nat add_n) (new_subnet j p_key_n n) j s).
      split; [reflexivity|]. split; [simpl; lia|]. split; [reflexivity|].
      left. repeat split; try assumption; try lia.
      * destruct Hj as (_ & Hfree & _). exact Hfree.
      * destruct Hj as (_ & _ & Hbusy). exact Hbusy.
      * simpl. rewrite Nat2Z.id. reflexivity.
    + eexists _, _, _. split; [reflexivity|]. split; [simpl; lia|].
      split; [reflexivity|]. right. repeat split. exact Hex.
  - intros Hr. pose proof Hr as (Hc & _).
    destruct (app_key_add_auto _ _ _ _ _ _ _ Hr) as [(j & Hj & ->)|(Hex & ->)].
    + pose proof Hj as (Hrange & _).
      exists OK, j, (app_key_commit (Z.of_nat add_a) (new_app_key net_idx j p_key_a a) j s).
      split; [reflexivity|]. split; [simpl; lia|]. split; [reflexivity|].
      left. repeat split; try assumption; try lia.
      * destruct Hj as (_ & Hfree & _). exact Hfree.
      * destruct Hj as (_ & _ & Hbusy). exact Hbusy.
      * simpl. rewrite Nat2Z.id. reflexivity.
    + eexists _, _, _. split; [reflexivity|]. split; [simpl; lia|].
      split; [reflexivity|]. right. repeat split. exact Hex.
Qed.

(** The cursor never moves back, whatever the arguments and the outcome. *)
Lemma idx_alloc_ge (in_use : Z -> bool) :
  forall (fuel : nat) (c x : Z),
    0 <= c < 0x1000 ->
    idx_alloc in_use fuel c = Some (inl x) \/ idx_alloc in_use fuel c = Some (inr x) ->
    c <= x.
Proof.
  induction fuel as [|fuel IH]; intros c x Hc H;
    unfold idx_alloc in H; fold idx_alloc in H.
  - destruct H; discriminate.
  - destruct (in_use c).
    + rewrite (u16_succ c Hc) in H.
      destruct (c + 1 >=? 0x1000) eqn:Hge; rewrite Z.geb_leb in Hge.
      * destruct H as [H|H]; inversion H; lia.
      * apply Z.leb_gt in Hge. assert (c + 1 <= x); [|lia].
        apply IH; [lia | exact H].
    + destruct H as [H|H]; inversion H; lia.
Qed.

Lemma net_key_add_cursor_monotone (e : env) (net_key : option bytes)
    (net_idx : option Z) (s : state) (st : status) (out : option Z) (s' : state) :
  0 <= p_net_idx_next (bt_mesh s) ->
  bt_mesh_provisioner_local_net_key_add e net_key net_idx s = Some (st, out, s') ->
  p_net_idx_next (bt_mesh s) <= p_net_idx_next (bt_mesh s').
Proof.
  intros H0. unfold bt_mesh_provisioner_local_net_key_add.
  destruct (p_net_idx_next (bt_mesh s) >=? 0x1000) eqn:Hc.
  { intros H; inversion H; subst; lia. }
  rewrite Z.geb_leb in Hc. apply Z.leb_gt in Hc.
  destruct (idx_alloc (net_idx_in_use s) (idx_fuel (p_net_idx_next (bt_mesh s)))
              (p_net_idx_next (bt_mesh s))) as [[x|x]|] eqn:Ha.
  - assert (Hx : p_net_idx_next (bt_mesh s) <= x)
      by (eapply idx_alloc_ge; [exact (conj H0 Hc) | left; exact Ha]).
    intros H. break_add H; inversion H; subst; simpl; lia.
  - assert (Hx : p_net_idx_next (bt_mesh s) <= x)
      by (eapply idx_alloc_ge; [exact (conj H0 Hc) | right; exact Ha]).
    intros H. break_add H; inversion H; subst; simpl; lia.
  - intros H. break_add H; inversion H; subst; simpl; lia.
Qed.

(** ** Failed adds *)

Lemma net_key_add_failure (e : env) (net_key : option bytes) (net_idx : option Z)
    (s : state) (f : failure) (out : option Z) (s' : state) :
  bt_mesh_provisioner_local_net_key_add e net_key net_idx s = Some (ERR f, out, s') ->
  p_sub (bt_mesh s') = p_sub (bt_mesh s)
  /\ p_app_keys (bt_mesh s') = p_app_keys (bt_mesh s)
  /\ (f <> NoIndexAvailable -> s' = s).
Proof.
  unfold bt_mesh_provisioner_local_net_key_add. intros H.
  break_add H; inversion H; subst; repeat split; auto; congruence.
Qed.

Lemma app_key_add_failure (e : env) (app_key : option bytes) (net_idx : Z)
    (app_idx : option Z) (s : state) (f : failure) (out : option Z) (s' : state) :
  bt_mesh_provisioner_local_app_key_add e app_key net_idx app_idx s
    = Some (ERR f, out, s') ->
  p_sub (bt_mesh s') = p_sub (bt_mesh s)
  /\ p_app_keys (bt_mesh s') = p_app_keys (bt_mesh s)
  /\ (f <> NoIndexAvailable -> s' = s).
Proof.
  unfold bt_mesh_provisioner_local_app_key_add. intros H.
  break_add H; inversion H; subst; repeat split; auto; congruence.
Qed.

(** C6: when a NetKey or AppKey add fails because the key could not be
    generated or derived ([-EIO] on the paths [RandFailed] and
    [DeriveFailed]) or because no row or no memory was left ([-ENOMEM] on
    the paths [QueueFull] and [AllocFailed]), the state after the call is
    the state before it; and whatever the failure, neither key table has
    changed, so that no scan can meet a row of the failed add. *)
Theorem key_add_failure_rollback (e : env) (key : option bytes) (net_idx : Z)
    (idx : option Z) (s : state) (f : failure) (out : option Z) (s' : state) :
  bt_mesh_provisioner_local_net_key_add e key idx s = Some (ERR f, out, s')
  \/ bt_mesh_provisioner_local_app_key_add e key net_idx idx s = Some (ERR f, out, s') ->
  p_sub (bt_mesh s') = p_sub (bt_mesh s)
  /\ p_app_keys (bt_mesh s') = p_app_keys (bt_mesh s)
  /\ (f = DeriveFailed \/ f = RandFailed \/ f = QueueFull \/ f = AllocFailed ->
      s' = s).
Proof.
  intros [H|H].
  - destruct (net_key_add_failure _ _ _ _ _ _ _ H) as (Hs & Ha & Heq).
    repeat split; auto. intros [-> | [-> | [-> | ->]]]; apply Heq; discriminate.
  - destruct (app_key_add_failure _ _ _ _ _ _ _ _ H) as (Hs & Ha & Heq).
    repeat split; auto. intros [-> | [-> | [-> | ->]]]; apply Heq; discriminate.
Qed.

(** ** Node reset *)

Lemma node_count_dec_mesh_nodes (prov : bool) (s : state) :
  mesh_nodes (provisioner_node_count_dec prov s) = mesh_nodes s.
Proof.
  unfold provisioner_node_count_dec.
  destruct (all_node_count s =? 0), prov; simpl; try reflexivity;
    match goal with |- context [if ?b then _ else _] => destruct b end; reflexivity.
Qed.

Lemma node_count_inc_mesh_nodes (prov : bool) (s : state) :
  mesh_nodes (provisioner_node_count_inc prov s) = mesh_nodes s.
Proof. destruct prov; reflexivity. Qed.

(** What a reset of an occupied slot leaves in the table. *)
Lemma reset_node_occupied (i : nat) (node : bt_mesh_node_t) (s : state) :
  mesh_nodes s !! i = Some (Some node) ->
  exists s' : state,
    provisioner_reset_node i s = Ok (0, s')
    /\ mesh_nodes s' = <[i := None]> (mesh_nodes s)
    /\ all_node_count s'
       = (if all_node_count s =? 0 then 0 else all_node_count s - 1)
    /\ prov_node_count s'
       = (if Z.of_nat i <? CONFIG_BLE_MESH_MAX_PROV_NODES
          then if prov_node_count s =? 0 then 0 else prov_node_count s - 1
          else prov_node_count s).
Proof.
  intros Hl. unfold provisioner_reset_node. rewrite Hl.
  cbn [emit bt_mesh].
  destruct (reset_rpl node (rpl (bt_mesh s))) as [rpl' evs].
  eexists. split; [reflexivity|].
  rewrite node_count_dec_mesh_nodes. split; [reflexivity|].
  unfold provisioner_node_count_dec. simpl.
  destruct (all_node_count s =? 0) eqn:Ha;
    destruct (Z.of_nat i <? CONFIG_BLE_MESH_MAX_PROV_NODES); simpl;
    try destruct (prov_node_count s =? 0) eqn:Hp; simpl;
    repeat split; try reflexivity;
    try (apply Z.eqb_eq in Ha; exact Ha); try (apply Z.eqb_eq in Hp; exact Hp).
Qed.

Lemma reset_node_empty (i : nat) (s : state) :
  mesh_nodes s !! i = Some None -> provisioner_reset_node i s = Ok (0, s).
Proof. intros Hl. unfold provisioner_reset_node. rewrite Hl. reflexivity. Qed.

(** A reset inside the table returns, leaves the slot empty and touches no
    other slot. *)
Lemma reset_node_in_range (i : nat) (s : state) :
  (i < length (mesh_nodes s))%nat ->
  exists s' : state,
    provisioner_reset_node i s = Ok (0, s')
    /\ mesh_nodes s' = <[i := None]> (mesh_nodes s).
Proof.
  intros Hi. destruct (lookup_lt_is_Some_2 _ _ Hi) as [[node|] Hl].
  - destruct (reset_node_occupied i node s Hl) as (s' & Hr & Hn & _). eauto.
  - exists s. split; [apply reset_node_empty; exact Hl|].
    symmetry. apply list_insert_id. exact Hl.
Qed.

(** C7: a reset of an empty slot returns 0 and changes nothing; and for a
    slot of the table, the first reset returns 0 and leaves the slot
    empty, and a second reset of the same slot returns 0 and leaves the
    state of the first (node table, both counters and everything else)
    as it is. *)
Theorem reset_node_idempotent (i : nat) (s : state) :
  (i < length (mesh_nodes s))%nat ->
  (mesh_nodes s !! i = Some None -> provisioner_reset_node i s = Ok (0, s))
  /\ exists s1 : state,
       provisioner_reset_node i s = Ok (0, s1)
       /\ mesh_nodes s1 !! i = Some None
       /\ provisioner_reset_node i s1 = Ok (0, s1)
       /\ forall s2 : state,
            provisioner_reset_node i s1 = Ok (0, s2) ->
            mesh_nodes s2 = mesh_nodes s1
            /\ provisioner_get_node_count s2 = provisioner_get_node_count s1
            /\ provisioner_get_prov_node_count s2 = provisioner_get_prov_node_count s1.
Proof.
  intros Hi. split; [apply reset_node_empty|].
  destruct (reset_node_in_range i s Hi) as (s1 & Hr & Hn).
  assert (Hl : mesh_nodes s1 !! i = Some None).
  { rewrite Hn. apply list_lookup_insert_eq. exact Hi. }
  exists s1. split; [exact Hr|]. split; [exact Hl|].
  split; [apply reset_node_empty; exact Hl|].
  intros s2 H2. rewrite (reset_node_empty i s1 Hl) in H2.
  inversion H2; subst. auto.
Qed.

(** ** Finding a node by UUID or by address *)

Lemma node_match_dec (matches : bt_mesh_node_t -> bool) (s : state) (j : nat) :
  node_match matches s j \/ ~ node_match matches s j.
Proof.
  unfold node_match. destruct (mesh_nodes s !! j) as [[node|]|] eqn:Hl.
  - destruct (matches node) eqn:Hm.
    + left. eauto.
    + right. intros (node' & Heq & Hm'). congruence.
  - right. intros (node' & Heq & _). discriminate.
  - right. intros (node' & Heq & _). discriminate.
Qed.

Lemma find_reset_loop_spec (matches : bt_mesh_node_t -> bool) (reset : bool) :
  forall (n i : nat) (s : state),
    (i + n <= length (mesh_nodes s))%nat ->
    ((forall j : nat, (i <= j < i + n)%nat -> ~ node_match matches s j)
     /\ find_reset_loop matches reset i n s = Ok (false, s))
    \/ (exists (j : nat) (s' : state),
          (i <= j < i + n)%nat
          /\ node_match matches s j
          /\ (forall j' : nat, (i <= j' < j)%nat -> ~ node_match matches s j')
          /\ find_reset_loop matches reset i n s = Ok (true, s')
          /\ (if reset
              then provisioner_reset_node j s = Ok (0, s')
                   /\ mesh_nodes s' = <[j := None]> (mesh_nodes s)
              else s' = s)).
Proof.
  induction n as [|n IH]; intros i s Hlen.
  - left. split; [intros j Hj; lia | reflexivity].
  - simpl. destruct (node_match_dec matches s i) as [Hm|Hn].
    + right. destruct Hm as (node & Hl & Hm). rewrite Hl, Hm.
      destruct reset.
      * destruct (reset_node_occupied i node s Hl) as (s' & Hr & Hn' & _).
        exists i, s'. rewrite Hr.
        split; [lia|]. split; [exists node; auto|].
        split; [intros j' Hj'; lia|]. split; [reflexivity|].
        split; [reflexivity | exact Hn'].
      * exists i, s.
        split; [lia|]. split; [exists node; auto|].
        split; [intros j' Hj'; lia|]. split; reflexivity.
    + assert (Hstep : find_reset_loop matches reset i (S n) s
                      = find_reset_loop matches reset (S i) n s).
      { simpl. destruct (mesh_nodes s !! i) as [[node|]|] eqn:Hl.
        - destruct (matches node) eqn:Hm; [|reflexivity].
          exfalso. apply Hn. exists node. auto.
        - reflexivity.
        - apply lookup_ge_None in Hl. lia. }
      simpl in Hstep. rewrite Hstep.
      destruct (IH (S i) s) as [(Hnone & Hr)|(j & s' & Hj & Hm & Hmin & Hr & Hs)];
        [lia| |].
      * left. split; [|exact Hr].
        intros j Hj. destruct (Nat.eq_dec j i) as [->|Hne]; [exact Hn|].
        apply Hnone. lia.
      * right. exists j, s'.
        split; [lia|]. split; [exact Hm|]. split; [|split; [exact Hr | exact Hs]].
        intros j' Hj'. destruct (Nat.eq_dec j' i) as [->|Hne]; [exact Hn|].
        apply Hmin. lia.
Qed.

Lemma find_reset_loop_scope (matches : bt_mesh_node_t -> bool) (reset : bool) (s : state) :
  (Z.to_nat CONFIG_BLE_MESH_MAX_PROV_NODES <= length (mesh_nodes s))%nat ->
  find_reset_scope matches reset s
    (find_reset_loop matches reset 0 (Z.to_nat CONFIG_BLE_MESH_MAX_PROV_NODES) s).
Proof.
  intros Hlen. unfold find_reset_scope.
  destruct (find_reset_loop_spec matches reset
              (Z.to_nat CONFIG_BLE_MESH_MAX_PROV_NODES) 0 s)
    as [(Hnone & Hr)|(j & s' & Hj & Hm & Hmin & Hr & Hs)]; [lia | |].
  - exists false, s. split; [exact Hr|]. split.
    { split; [discriminate|]. intros (j & Hj & Hm). exfalso.
      apply (Hnone j); [lia | exact Hm]. }
    split; [reflexivity|]. split; [reflexivity|]. discriminate.
  - exists true, s'. split; [exact Hr|]. split.
    { split; [|reflexivity]. intros _. exists j. split; [lia | exact Hm]. }
    destruct reset.
    + destruct Hs as [Hreset Hnodes]. split.
      { intros k Hk. rewrite Hnodes. apply list_lookup_insert_ne. lia. }
      split; [intros [H|H]; discriminate|].
      intros _ _. exists j.
      split; [lia|]. split; [exact Hm|].
      split; [intros j' Hj'; apply Hmin; lia|]. split; [exact Hreset|].
      rewrite Hnodes. apply list_lookup_insert_eq. lia.
    + subst s'. split; [reflexivity|]. split; [reflexivity|]. discriminate.
Qed.

(** C9: both find functions look at the slots below
    [CONFIG_BLE_MESH_MAX_PROV_NODES] only.  They return [true] exactly when
    one of these slots holds a matching node; the slots from
    [CONFIG_BLE_MESH_MAX_PROV_NODES] on are the same after the call as
    before, whatever they hold; without a match, or without the reset
    option, the state is unchanged; and with a match and the reset option,
    the state returned is the one that [provisioner_reset_node] leaves for
    the first matching slot, which is then empty. *)
Theorem find_reset_node_prov_partition (uuid : bytes) (addr : bt_mesh_addr_t)
    (reset : bool) (s : state) :
  (Z.to_nat CONFIG_BLE_MESH_MAX_PROV_NODES <= length (mesh_nodes s))%nat ->
  find_reset_scope (uuid_matches uuid) reset s
    (provisioner_find_reset_node_with_uuid uuid reset s)
  /\ find_reset_scope (addr_matches addr) reset s
       (provisioner_find_reset_node_with_addr addr reset s).
Proof.
  intros Hlen. split; apply find_reset_loop_scope; exact Hlen.
Qed.

(** ** The node counters *)

Lemma occupied_0 {A : Type} (tbl : list (option A)) : occupied 0 tbl = 0.
Proof. unfold occupied. rewrite take_0. reflexivity. Qed.

Lemma occupied_nil {A : Type} (n : nat) : occupied n (@nil (option A)) = 0.
Proof. unfold occupied. rewrite take_nil. reflexivity. Qed.

Lemma occupied_cons {A : Type} (n : nat) (x : option A) (tl : list (option A)) :
  occupied (S n) (x :: tl) = slot_weight x + occupied n tl.
Proof.
  unfold occupied. rewrite firstn_cons, filter_cons.
  destruct (decide (is_Some x)) as [Hs|Hn].
  - destruct Hs as [a ->]. simpl. lia.
  - destruct x as [a|]; [exfalso; apply Hn; eauto|]. simpl. lia.
Qed.

Lemma occupied_bounds {A : Type} (tbl : list (option A)) :
  forall n : nat, 0 <= occupied n tbl <= Z.of_nat (Nat.min n (length tbl)).
Proof.
  induction tbl as [|x tl IH]; intros n.
  - rewrite occupied_nil. simpl. lia.
  - destruct n as [|n]; [rewrite occupied_0; simpl; lia|].
    rewrite occupied_cons. specialize (IH n). simpl length.
    destruct x; simpl slot_weight; lia.
Qed.

Lemma occupied_insert {A : Type} (new old : option A) (tbl : list (option A)) :
  forall (i n : nat),
    tbl !! i = Some old ->
    occupied n (<[i := new]> tbl)
    = occupied n tbl
      + (if (i <? n)%nat then slot_weight new - slot_weight old else 0).
Proof.
  induction tbl as [|x tl IH]; intros i n Hl.
  - destruct i; discriminate.
  - destruct i as [|i]; simpl in Hl.
    + inversion Hl; subst. simpl. destruct n as [|n].
      * rewrite !occupied_0. simpl. lia.
      * rewrite !occupied_cons. simpl. lia.
    + simpl. destruct n as [|n].
      * rewrite !occupied_0. simpl. lia.
      * rewrite !occupied_cons, (IH i n Hl).
        replace (S i <? S n)%nat with (i <? n)%nat; [lia|].
        destruct (Nat.ltb_spec i n), (Nat.ltb_spec (S i) (S n)); auto; lia.
Qed.

Lemma scan_free_spec {A : Type} (tbl : list (option A)) :
  forall (n lo : nat),
    (lo + n <= length tbl)%nat ->
    scan_free tbl lo n = Ok None
    \/ exists i : nat,
         (lo <= i < lo + n)%nat /\ tbl !! i = Some None
         /\ scan_free tbl lo n = Ok (Some i).
Proof.
  induction n as [|n IH]; intros lo Hlen; simpl.
  - left. reflexivity.
  - destruct (tbl !! lo) as [[a|]|] eqn:Hl.
    + destruct (IH (S lo)) as [Hr|(i & Hi & Hf & Hr)]; [lia | left; exact Hr |].
      right. exists i. split; [lia|]. auto.
    + right. exists lo. split; [lia|]. auto.
    + apply lookup_ge_None in Hl. lia.
Qed.

Lemma u16_small (z : Z) : 0 <= z <= 65535 -> u16 z = z.
Proof. intros H. unfold u16. apply Z.mod_small. lia. Qed.

Lemma store_node_counts (e : env) (node : bt_mesh_node_t) (prov : bool) (s : state) :
  config_ok s -> counts_ok s ->
  exists (err : Z) (idx : option nat) (s' : state),
    provisioner_store_node e node prov s = Ok (err, idx, s')
    /\ length (mesh_nodes s') = length (mesh_nodes s)
    /\ counts_ok s'.
Proof.
  intros [Hprov Hsize] [Hall Hp]. unfold provisioner_store_node.
  rewrite (u16_small CONFIG_BLE_MESH_MAX_PROV_NODES) by lia.
  rewrite (u16_small (Z.of_nat (length (mesh_nodes s)))) by lia.
  set (min := if prov then 0 else CONFIG_BLE_MESH_MAX_PROV_NODES).
  set (max := if prov then CONFIG_BLE_MESH_MAX_PROV_NODES
              else Z.of_nat (length (mesh_nodes s))).
  assert (Hmm : 0 <= min <= max /\ max <= Z.of_nat (length (mesh_nodes s))).
  { subst min max. destruct prov; lia. }
  destruct (scan_free_spec (mesh_nodes s) (Z.to_nat (max - min)) (Z.to_nat min))
    as [->|(i & Hi & Hfree & ->)]; [lia | |].
  - exists (- ENOMEM), None, s. repeat split; auto.
  - destruct (osi_calloc e).
    2:{ exists (- ENOMEM), None, s. repeat split; auto. }
    eexists _, _, _. split; [reflexivity|].
    cbn [emit mesh_nodes]. rewrite node_count_inc_mesh_nodes. cbn [set_mesh_nodes mesh_nodes].
    split; [apply length_insert|].
    unfold counts_ok. cbn [emit mesh_nodes all_node_count prov_node_count].
    rewrite node_count_inc_mesh_nodes. cbn [set_mesh_nodes mesh_nodes].
    rewrite length_insert.
    rewrite !(occupied_insert (Some node) None _ _ _ Hfree). simpl slot_weight.
    pose proof (occupied_bounds (<[i := Some node]> (mesh_nodes s))
                  (length (mesh_nodes s))) as Hb1.
    pose proof (occupied_bounds (<[i := Some node]> (mesh_nodes s))
                  (Z.to_nat CONFIG_BLE_MESH_MAX_PROV_NODES)) as Hb2.
    rewrite length_insert in Hb1, Hb2.
    rewrite (occupied_insert (Some node) None _ _ _ Hfree) in Hb1.
    rewrite (occupied_insert (Some node) None _ _ _ Hfree) in Hb2.
    simpl slot_weight in Hb1, Hb2.
    assert (Hlt : (i <? length (mesh_nodes s))%nat = true)
      by (apply Nat.ltb_lt; subst min max; destruct prov; lia).
    rewrite Hlt in *.
    subst min max. destruct prov; simpl.
    + assert (Hltp : (i <? Z.to_nat CONFIG_BLE_MESH_MAX_PROV_NODES)%nat = true)
        by (apply Nat.ltb_lt; lia).
      rewrite Hltp in *. rewrite Hall, Hp.
      split; apply u16_small; lia.
    + assert (Hltp : (i <? Z.to_nat CONFIG_BLE_MESH_MAX_PROV_NODES)%nat = false)
        by (apply Nat.ltb_ge; lia).
      rewrite Hltp. rewrite Hall, Hp.
      split; [apply u16_small; lia | lia].
Qed.

Lemma reset_node_counts (i : nat) (s : state) :
  config_ok s -> counts_ok s -> (i < length (mesh_nodes s))%nat ->
  exists s' : state,
    provisioner_reset_node i s = Ok (0, s')
    /\ length (mesh_nodes s') = length (mesh_nodes s)
    /\ counts_ok s'.
Proof.
  intros [Hprov Hsize] [Hall Hp] Hi.
  destruct (lookup_lt_is_Some_2 _ _ Hi) as [[node|] Hl].
  2:{ exists s. split; [apply reset_node_empty; exact Hl|]. split; [reflexivity|].
      split; assumption. }
  destruct (reset_node_occupied i node s Hl) as (s' & Hr & Hn & Ha' & Hp').
  exists s'. split; [exact Hr|]. rewrite Hn, length_insert. split; [reflexivity|].
  unfold counts_ok. rewrite Hn, length_insert, Ha', Hp'.
  rewrite !(occupied_insert None (Some node) _ _ _ Hl). simpl slot_weight.
  pose proof (occupied_bounds (<[i := None]> (mesh_nodes s))
                (length (mesh_nodes s))) as Hb1.
  pose proof (occupied_bounds (<[i := None]> (mesh_nodes s))
                (Z.to_nat CONFIG_BLE_MESH_MAX_PROV_NODES)) as Hb2.
  rewrite length_insert in Hb1, Hb2.
  rewrite (occupied_insert None (Some node) _ _ _ Hl) in Hb1.
  rewrite (occupied_insert None (Some node) _ _ _ Hl) in Hb2.
  simpl slot_weight in Hb1, Hb2.
  assert (Hlt : (i <? length (mesh_nodes s))%nat = true) by (apply Nat.ltb_lt; lia).
  rewrite Hlt in *.
  destruct (Z.of_nat i <? CONFIG_BLE_MESH_MAX_PROV_NODES) eqn:Hip.
  - apply Z.ltb_lt in Hip.
    assert (Hltp : (i <? Z.to_nat CONFIG_BLE_MESH_MAX_PROV_NODES)%nat = true)
      by (apply Nat.ltb_lt; lia).
    rewrite Hltp in *.
    destruct (all_node_count s =? 0) eqn:E1; destruct (prov_node_count s =? 0) eqn:E2;
      try apply Z.eqb_eq in E1; try apply Z.eqb_eq in E2; split; lia.
  - apply Z.ltb_ge in Hip.
    assert (Hltp : (i <? Z.to_nat CONFIG_BLE_MESH_MAX_PROV_NODES)%nat = false)
      by (apply Nat.ltb_ge; lia).
    rewrite Hltp in *.
    destruct (all_node_count s =? 0) eqn:E1;
      try apply Z.eqb_eq in E1; split; lia.
Qed.

Lemma run_ops_counts (ops : list node_op) :
  forall s : state,
    config_ok s -> counts_ok s ->
    Forall (op_in_range (length (mesh_nodes s))) ops ->
    exists s' : state,
      run_ops ops s = Ok s'
      /\ length (mesh_nodes s') = length (mesh_nodes s)
      /\ counts_ok s'.
Proof.
  induction ops as [|o tl IH]; intros s Hcfg Hcnt Hr.
  - exists s. auto.
  - inversion Hr as [|? ? Ho Htl]; subst.
    assert (Hstep : exists s1 : state,
               run_op o s = Ok s1
               /\ length (mesh_nodes s1) = length (mesh_nodes s)
               /\ counts_ok s1).
    { destruct o as [e node prov|i]; simpl.
      - destruct (store_node_counts e node prov s Hcfg Hcnt)
          as (err & idx & s1 & -> & Hlen & Hc). eauto.
      - destruct (reset_node_counts i s Hcfg Hcnt Ho) as (s1 & -> & Hlen & Hc). eauto. }
    destruct Hstep as (s1 & Hrun & Hlen & Hc).
    destruct (IH s1) as (s' & Hrun' & Hlen' & Hc').
    + unfold config_ok in *. rewrite Hlen. exact Hcfg.
    + exact Hc.
    + rewrite Hlen. exact Htl.
    + exists s'. simpl. rewrite Hrun. split; [exact Hrun'|].
      split; [congruence | exact Hc'].
Qed.

Lemma occupied_replicate_None {A : Type} (k n : nat) :
  occupied k (replicate n (@None A)) = 0.
Proof.
  revert k. induction n as [|n IH]; intros k; simpl.
  - apply occupied_nil.
  - destruct k as [|k]; [apply occupied_0|].
    rewrite occupied_cons, IH. reflexivity.
Qed.

Lemma init_counts_ok (n : nat) (b : bt_mesh_net) (c : list bt_mesh_elem) :
  counts_ok (init_state n b c).
Proof.
  unfold counts_ok, init_state. simpl.
  rewrite !occupied_replicate_None. auto.
Qed.

(** C10: with a table of [n] slots, [0 <= CONFIG_BLE_MESH_MAX_PROV_NODES
    <= n <= 65535], the counters agree with the table in the initial
    state, and from every state in which they agree, every sequence of
    stores and of resets of slots of the table runs to a state in which
    [all_node_count] is the number of occupied slots and
    [prov_node_count] is the number of occupied slots below
    [CONFIG_BLE_MESH_MAX_PROV_NODES]; both are then at least 0. *)
Theorem node_counts_track_table (n : nat) (b : bt_mesh_net) (c : list bt_mesh_elem) :
  0 <= CONFIG_BLE_MESH_MAX_PROV_NODES <= Z.of_nat n ->
  Z.of_nat n <= 65535 ->
  counts_ok (init_state n b c)
  /\ forall (s : state) (ops : list node_op),
       length (mesh_nodes s) = n ->
       counts_ok s ->
       Forall (op_in_range n) ops ->
       exists s' : state,
         run_ops ops s = Ok s'
         /\ length (mesh_nodes s') = n
         /\ provisioner_get_node_count s'
            = occupied (length (mesh_nodes s')) (mesh_nodes s')
         /\ provisioner_get_prov_node_count s'
            = occupied (Z.to_nat CONFIG_BLE_MESH_MAX_PROV_NODES) (mesh_nodes s')
         /\ 0 <= provisioner_get_node_count s'
         /\ 0 <= provisioner_get_prov_node_count s'.
Proof.
  intros Hprov Hsize. split; [apply init_counts_ok|].
  intros s ops Hlen Hcnt Hr.
  destruct (run_ops_counts ops s) as (s' & Hrun & Hlen' & [Hall Hp]).
  - unfold config_ok. rewrite Hlen. auto.
  - exact Hcnt.
  - rewrite Hlen. exact Hr.
  - exists s'. split; [exact Hrun|]. split; [congruence|].
    unfold provisioner_get_node_count, provisioner_get_prov_node_count.
    split; [exact Hall|]. split; [exact Hp|].
    rewrite Hall, Hp. split; apply occupied_bounds.
Qed.

(** ** Unbinding *)

Lemma model_unbind_slots_keys (app_idx : Z) :
  forall (slots : list Z) (model : bt_mesh_model),
    (model_unbind_slots app_idx slots model).1.1 = unbind_slot app_idx <$> slots.
Proof.
  induction slots as [|k tl IH]; intros model; simpl; [reflexivity|].
  unfold unbind_slot at 1. destruct (k =? app_idx).
  - destruct (model_pub_clear model) as [model1 evs1].
    specialize (IH model1).
    destruct (model_unbind_slots app_idx tl model1) as [[tl' model2] evs2].
    simpl in *. rewrite IH. reflexivity.
  - specialize (IH model).
    destruct (model_unbind_slots app_idx tl model) as [[tl' model2] evs2].
    simpl in *. rewrite IH. reflexivity.
Qed.

Lemma model_unbind_keys (model : bt_mesh_model) (app_idx : Z) :
  mod_keys (model_unbind model app_idx).1 = unbind_slot app_idx <$> mod_keys model.
Proof.
  unfold model_unbind.
  pose proof (model_unbind_slots_keys app_idx (mod_keys model) model) as H.
  destruct (model_unbind_slots app_idx (mod_keys model) model) as [[keys model'] evs].
  simpl in *. exact H.
Qed.

Lemma foreach_model_fst (func : bt_mesh_model -> bt_mesh_model * list event) :
  forall l : list bt_mesh_model,
    (foreach_model func l).1 = (fun m => (func m).1) <$> l.
Proof.
  induction l as [|m tl IH]; simpl; [reflexivity|].
  destruct (func m) as [m' evs1].
  destruct (foreach_model func tl) as [tl' evs2].
  simpl in *. rewrite IH. reflexivity.
Qed.

Lemma bt_mesh_model_foreach_fst (func : bt_mesh_model -> bt_mesh_model * list event) :
  forall elems : list bt_mesh_elem,
    (bt_mesh_model_foreach func elems).1 = elem_map (fun m => (func m).1) <$> elems.
Proof.
  induction elems as [|el tl IH]; simpl; [reflexivity|].
  pose proof (foreach_model_fst func (models el)) as Hm.
  pose proof (foreach_model_fst func (vnd_models el)) as Hv.
  destruct (foreach_model func (models el)) as [ms evs1].
  destruct (foreach_model func (vnd_models el)) as [vs evs2].
  destruct (bt_mesh_model_foreach func tl) as [tl' evs3].
  simpl in *. rewrite IH, Hm, Hv. reflexivity.
Qed.

Lemma slot_in_unbind (app_idx : Z) (elems : list bt_mesh_elem) (slot : Z) :
  slot_in (bt_mesh_model_foreach (_model_unbind app_idx) elems).1 slot ->
  slot = BLE_MESH_KEY_UNUSED \/ (slot <> app_idx /\ slot_in elems slot).
Proof.
  rewrite bt_mesh_model_foreach_fst. intros (el' & m' & Hel & Hm & Hs).
  apply list_elem_of_fmap in Hel as (el & -> & Hel). simpl in Hm.
  assert (Hm0 : exists m : bt_mesh_model,
             m' = (_model_unbind app_idx m).1
             /\ (m ∈ models el \/ m ∈ vnd_models el)).
  { destruct Hm as [Hm|Hm]; apply list_elem_of_fmap in Hm as (m & -> & Hm); eauto. }
  destruct Hm0 as (m & -> & Hm0).
  unfold _model_unbind in Hs. rewrite model_unbind_keys in Hs.
  apply list_elem_of_fmap in Hs as (k & -> & Hk).
  unfold unbind_slot. destruct (k =? app_idx) eqn:E.
  - left. reflexivity.
  - right. apply Z.eqb_neq in E. split; [exact E|]. exists el, m. auto.
Qed.

Lemma unbind_unbound (app_idx : Z) (elems : list bt_mesh_elem) :
  unbound (bt_mesh_model_foreach (_model_unbind app_idx) elems).1 app_idx.
Proof.
  intros slot Hin Heq. apply slot_in_unbind in Hin as [H|[H _]]; [exact H | contradiction].
Qed.

Lemma unbind_keeps_unbound (app_idx a : Z) (elems : list bt_mesh_elem) :
  unbound elems a ->
  unbound (bt_mesh_model_foreach (_model_unbind app_idx) elems).1 a.
Proof.
  intros Hu slot Hin Heq. apply slot_in_unbind in Hin as [H|[_ H]]; [exact H|].
  apply Hu; assumption.
Qed.

(** ** Deleting an application key *)

(** The deletion of the key found in slot [j], when no earlier slot holds a
    key of the same subnet: the models are unbound, then slot [j] is
    cleared; the subnet table is not touched. *)
Lemma app_key_delete_at (j : nat) (key : bt_mesh_app_key) (s : state) :
  net_idx_live s (key_net_idx key) ->
  p_app_keys (bt_mesh s) !! j = Some (Some key) ->
  (forall (k : nat) (key' : bt_mesh_app_key),
     (k < j)%nat -> p_app_keys (bt_mesh s) !! k = Some (Some key') ->
     key_net_idx key' <> key_net_idx key) ->
  exists s' : state,
    bt_mesh_provisioner_local_app_key_delete (key_net_idx key) (key_app_idx key) s
      = (OK, s')
    /\ p_app_keys (bt_mesh s') = <[j := None]> (p_app_keys (bt_mesh s))
    /\ p_sub (bt_mesh s') = p_sub (bt_mesh s)
    /\ comp s' = (bt_mesh_model_foreach (_model_unbind (key_app_idx key)) (comp s)).1.
Proof.
  intros Hnet Hl Hprefix.
  unfold bt_mesh_provisioner_local_app_key_delete.
  rewrite (check_net_idx_live _ _ false Hnet).
  rewrite (check_app_idx_live s (key_app_idx key) false) by (exists j, key; auto).
  simpl.
  assert (Hm : app_key_is (key_net_idx key) (key_app_idx key) key = true).
  { unfold app_key_is. rewrite !Z.eqb_refl. reflexivity. }
  destruct (find_row_found _ _ 0 j key Hl Hm) as (i & key' & E).
  rewrite E. apply find_row_0 in E as (Hl' & Hm' & Hmin).
  assert (Hij : i = j).
  { destruct (Nat.lt_trichotomy i j) as [Hlt|[Heq|Hgt]]; [|exact Heq|].
    - exfalso. unfold app_key_is in Hm'. apply andb_true_iff in Hm' as [Hn _].
      apply Z.eqb_eq in Hn. exact (Hprefix i key' Hlt Hl' Hn).
    - specialize (Hmin j key Hgt Hl). congruence. }
  subst i. assert (key' = key) by congruence. subst key'.
  destruct (bt_mesh_model_foreach (_model_unbind (key_app_idx key)) (comp s))
    as [elems evs] eqn:Ef.
  eexists. split; [reflexivity|]. repeat split.
Qed.

(** ** Deleting a network key *)

Lemma net_idx_live_p_sub (s s' : state) (idx : Z) :
  p_sub (bt_mesh s') = p_sub (bt_mesh s) -> net_idx_live s idx -> net_idx_live s' idx.
Proof. unfold net_idx_live. intros ->. auto. Qed.

Lemma app_keys_cascade_spec (net_idx : Z) :
  forall (n j : nat) (s s' : state),
    (j + n = length (p_app_keys (bt_mesh s)))%nat ->
    net_idx_live s net_idx ->
    (forall (k : nat) (key : bt_mesh_app_key),
       (k < j)%nat -> p_app_keys (bt_mesh s) !! k = Some (Some key) ->
       key_net_idx key <> net_idx) ->
    app_keys_cascade net_idx j n s = Ok s' ->
    p_sub (bt_mesh s') = p_sub (bt_mesh s)
    /\ no_app_key_of s' net_idx
    /\ app_keys_unbound s s' net_idx
    /\ (forall a : Z, unbound (comp s) a -> unbound (comp s') a)
    /\ other_app_keys_kept s s' net_idx.
Proof.
  induction n as [|n IH]; intros j s s' Hlen Hnet Hprefix Hrun; simpl in Hrun.
  - inversion Hrun; subst s'. split; [reflexivity|]. split.
    { intros k key Hl. apply (Hprefix k key); [|exact Hl].
      apply lookup_lt_Some in Hl. lia. }
    split.
    { intros k key Hl Hk. exfalso. apply (Hprefix k key); auto.
      apply lookup_lt_Some in Hl. lia. }
    split; [auto|]. split; auto.
  - destruct (p_app_keys (bt_mesh s) !! j) as [[key|]|] eqn:Hj; try discriminate.
    destruct (key_net_idx key =? net_idx) eqn:Hk.
    + apply Z.eqb_eq in Hk.
      assert (Hnet' : net_idx_live s (key_net_idx key)) by (rewrite Hk; exact Hnet).
      assert (Hprefix' : forall (k : nat) (key' : bt_mesh_app_key),
                 (k < j)%nat -> p_app_keys (bt_mesh s) !! k = Some (Some key') ->
                 key_net_idx key' <> key_net_idx key)
        by (rewrite Hk; exact Hprefix).
      destruct (app_key_delete_at j key s Hnet' Hj Hprefix')
        as (s1 & Hdel & Hkeys & Hsub & Hcomp).
      rewrite Hdel in Hrun. simpl in Hrun.
      assert (Hjlt : (j < length (p_app_keys (bt_mesh s)))%nat) by lia.
      destruct (IH (S j) s1 s') as (H1 & H2 & H3 & H4 & H5 & H6); auto.
      { rewrite Hkeys, length_insert. lia. }
      { apply (net_idx_live_p_sub s); auto. }
      { intros k key' Hlt Hl. rewrite Hkeys in Hl.
        destruct (Nat.eq_dec k j) as [->|Hne].
        - rewrite list_lookup_insert_eq in Hl by exact Hjlt. discriminate.
        - rewrite list_lookup_insert_ne in Hl by auto.
          apply (Hprefix k key'); [lia | exact Hl]. }
      split; [congruence|]. split; [exact H2|]. split.
      { intros k key' Hl Hn. destruct (Nat.eq_dec k j) as [->|Hne].
        - assert (key' = key) by congruence. subst key'.
          apply H4. rewrite Hcomp. apply unbind_unbound.
        - apply (H3 k key'); [|exact Hn].
          rewrite Hkeys, list_lookup_insert_ne by auto. exact Hl. }
      split.
      { intros a Hu. apply H4. rewrite Hcomp. apply unbind_keeps_unbound. exact Hu. }
      split.
      { intros k key' Hl Hn. apply H5; [|exact Hn].
        destruct (Nat.eq_dec k j) as [->|Hne]; [congruence|].
        rewrite Hkeys, list_lookup_insert_ne by auto. exact Hl. }
      { intros k key' Hl. apply H6 in Hl. rewrite Hkeys in Hl.
        destruct (Nat.eq_dec k j) as [->|Hne].
        - rewrite list_lookup_insert_eq in Hl by exact Hjlt. discriminate.
        - rewrite list_lookup_insert_ne in Hl by auto. exact Hl. }
    + apply Z.eqb_neq in Hk.
      apply (IH (S j) s s'); auto; [lia|].
      intros k key' Hlt Hl. destruct (Nat.eq_dec k j) as [->|Hne].
      * congruence.
      * apply (Hprefix k key'); [lia | exact Hl].
Qed.

(** C1: when the NetKey deletion of index [n] returns 0, no live AppKey
    row has [net_idx = n]; no key-binding slot of any model of any element
    holds the index of an AppKey of [n] that was live before the call;
    and the final state is the one that freeing the subnet row [i] makes
    of the state [s1] in which the cascade over the AppKey table ended:
    in [s1] the subnet table is still as before the call, with row [i]
    live, while the AppKeys of [n] are already gone and unbound.  The
    AppKeys of other subnets are untouched. *)
Theorem net_key_delete_cascade (n : Z) (s s' : state) :
  bt_mesh_provisioner_local_net_key_delete n s = Ok (OK, s') ->
  no_app_key_of s' n
  /\ app_keys_unbound s s' n
  /\ other_app_keys_kept s s' n
  /\ exists (i : nat) (sub : bt_mesh_subnet) (s1 : state),
       p_sub (bt_mesh s) !! i = Some (Some sub) /\ sub_net_idx sub = n
       /\ app_keys_cascade n 0 (length (p_app_keys (bt_mesh s))) s = Ok s1
       /\ p_sub (bt_mesh s1) = p_sub (bt_mesh s)
       /\ no_app_key_of s1 n
       /\ app_keys_unbound s s1 n
       /\ s' = subnet_free i sub s1
       /\ p_sub (bt_mesh s') = <[i := None]> (p_sub (bt_mesh s)).
Proof.
  unfold bt_mesh_provisioner_local_net_key_delete. intros H.
  destruct (negb (provisioner_check_net_idx n false s =? 0)); [discriminate|].
  destruct (find_row _ 0 _) as [[i sub]|] eqn:E; [|discriminate].
  apply find_row_0 in E as (Hl & Hidx & _). apply Z.eqb_eq in Hidx.
  rewrite Hidx in H.
  destruct (app_keys_cascade n 0 _ s) as [s1|] eqn:Hc; [|discriminate].
  inversion H; subst s'. clear H.
  destruct (app_keys_cascade_spec n (length (p_app_keys (bt_mesh s))) 0 s s1)
    as (H1 & H2 & H3 & H4 & H5); auto.
  { exists i, sub. auto. }
  { intros k key Hk. lia. }
  split; [exact H2|]. split; [exact H3|]. split; [exact H5|].
  exists i, sub, s1.
  split; [exact Hl|]. split; [exact Hidx|]. split; [reflexivity|].
  split; [exact H1|]. split; [exact H2|]. split; [exact H3|].
  split; [reflexivity|]. simpl. rewrite H1. reflexivity.
Qed.

(** The deletion returns when every AppKey slot is occupied, and faults on
    the first empty one. *)
Lemma app_keys_cascade_full (net_idx : Z) :
  forall (n j : nat) (s : state),
    (j + n = length (p_app_keys (bt_mesh s)))%nat ->
    net_idx_live s net_idx ->
    (forall (k : nat) (key : bt_mesh_app_key),
       (k < j)%nat -> p_app_keys (bt_mesh s) !! k = Some (Some key) ->
       key_net_idx key <> net_idx) ->
    (forall k : nat, (j <= k)%nat -> p_app_keys (bt_mesh s) !! k <> Some None) ->
    exists s' : state, app_keys_cascade net_idx j n s = Ok s'.
Proof.
  induction n as [|n IH]; intros j s Hlen Hnet Hprefix Hfull; simpl; [eauto|].
  assert (Hjlt : (j < length (p_app_keys (bt_mesh s)))%nat) by lia.
  destruct (lookup_lt_is_Some_2 _ _ Hjlt) as [[key|] Hj]; rewrite Hj.
  2:{ exfalso. apply (Hfull j); [lia | exact Hj]. }
  destruct (key_net_idx key =? net_idx) eqn:Hk.
  - apply Z.eqb_eq in Hk.
    assert (Hnet' : net_idx_live s (key_net_idx key)) by (rewrite Hk; exact Hnet).
    assert (Hprefix' : forall (k : nat) (key' : bt_mesh_app_key),
               (k < j)%nat -> p_app_keys (bt_mesh s) !! k = Some (Some key') ->
               key_net_idx key' <> key_net_idx key)
      by (rewrite Hk; exact Hprefix).
    destruct (app_key_delete_at j key s Hnet' Hj Hprefix')
      as (s1 & Hdel & Hkeys & Hsub & Hcomp).
    rewrite Hdel. simpl. apply IH.
    + rewrite Hkeys, length_insert. lia.
    + apply (net_idx_live_p_sub s); auto.
    + intros k key' Hlt Hl. rewrite Hkeys in Hl.
      destruct (Nat.eq_dec k j) as [->|Hne].
      * rewrite list_lookup_insert_eq in Hl by exact Hjlt. discriminate.
      * rewrite list_lookup_insert_ne in Hl by auto.
        apply (Hprefix k key'); [lia | exact Hl].
    + intros k Hk'. rewrite Hkeys, list_lookup_insert_ne by lia.
      apply Hfull. lia.
  - apply Z.eqb_neq in Hk. apply IH; auto; [lia | |].
    + intros k key' Hlt Hl. destruct (Nat.eq_dec k j) as [->|Hne].
      * congruence.
      * apply (Hprefix k key'); [lia | exact Hl].
    + intros k Hk'. apply Hfull. lia.
Qed.

Lemma net_key_delete_returns (n : Z) (s : state) :
  net_idx_live s n ->
  table_full (p_app_keys (bt_mesh s)) ->
  exists s' : state, bt_mesh_provisioner_local_net_key_delete n s = Ok (OK, s').
Proof.
  intros Hnet Hfull. unfold bt_mesh_provisioner_local_net_key_delete.
  rewrite (check_net_idx_live _ _ false Hnet). simpl.
  destruct Hnet as (i0 & sub0 & Hl0 & Hidx0).
  destruct (find_row_found (fun sub => sub_net_idx sub =? n) _ 0 i0 sub0 Hl0)
    as (i & sub & E); [apply Z.eqb_eq; exact Hidx0|].
  rewrite E. apply find_row_0 in E as (Hl & Hidx & _). apply Z.eqb_eq in Hidx.
  rewrite Hidx.
  destruct (app_keys_cascade_full n (length (p_app_keys (bt_mesh s))) 0 s)
    as (s1 & ->); eauto.
  - exists i, sub. auto.
  - intros k key Hk. lia.
Qed.

Lemma app_keys_cascade_fault (net_idx : Z) :
  forall (n j : nat) (s : state),
    p_app_keys (bt_mesh s) !! j = Some None ->
    app_keys_cascade net_idx j (S n) s = Fault.
Proof. intros n j s Hl. simpl. rewrite Hl. reflexivity. Qed.

(** ** Deciding the table predicates by running the checks *)

Lemma net_idx_dead_by_check (s : state) (idx : Z) :
  provisioner_check_net_idx idx false s = - ENODEV -> ~ net_idx_live s idx.
Proof.
  intros H Hl. rewrite (check_net_idx_live _ _ false Hl) in H. discriminate.
Qed.

Lemma app_idx_dead_by_check (s : state) (idx : Z) :
  provisioner_check_app_idx idx false s = - ENODEV -> ~ app_idx_live s idx.
Proof.
  intros H Hl. rewrite (check_app_idx_live _ _ false Hl) in H. discriminate.
Qed.

Lemma net_idx_live_by_check (s : state) (idx : Z) :
  provisioner_check_net_idx idx false s = 0 -> net_idx_live s idx.
Proof.
  intros H. destruct (net_idx_live_dec s idx) as [Hl|Hd]; [exact Hl|].
  rewrite (check_net_idx_dead _ _ false Hd) in H. discriminate.
Qed.

Lemma net_key_fresh_by_check (s : state) (net_key : option bytes) :
  (provisioner_check_net_key net_key 0 s).1 = 0 -> net_key_fresh s net_key.
Proof.
  intros H k -> Hs.
  destruct (check_net_key_stored s k 0 Hs) as (i & sub & _ & _ & _ & Hchk).
  rewrite Hchk in H. discriminate.
Qed.

Lemma app_key_fresh_by_check (s : state) (app_key : option bytes) :
  (provisioner_check_app_key app_key 0 s).1 = 0 -> app_key_fresh s app_key.
Proof.
  intros H k -> Hs.
  destruct (check_app_key_stored s k 0 Hs) as (i & key & _ & _ & _ & Hchk).
  rewrite Hchk in H. discriminate.
Qed.

Lemma find_free_first_inv {A : Type} (tbl : list (option A)) :
  forall (base i : nat),
    find_free base tbl = Some i ->
    exists k : nat, i = (base + k)%nat /\ first_free tbl k.
Proof.
  induction tbl as [|[x|] tl IH]; intros base i H; simpl in H.
  - discriminate.
  - apply IH in H as (k & -> & Hl & Hmin). exists (S k). split; [lia|].
    split; [exact Hl|]. intros [|j] Hj; simpl; [discriminate|].
    apply Hmin. lia.
  - inversion H; subst. exists 0%nat. split; [lia|].
    split; [reflexivity|]. intros j Hj. lia.
Qed.

Lemma first_free_by_find {A : Type} (tbl : list (option A)) (i : nat) :
  find_free 0 tbl = Some i -> first_free tbl i.
Proof.
  intros H. apply find_free_first_inv in H as (k & -> & H). exact H.
Qed.

Lemma table_full_by_find {A : Type} (tbl : list (option A)) :
  find_free 0 tbl = None -> table_full tbl.
Proof. intros H j. exact (find_free_None_inv tbl 0 H j). Qed.

(** * Further properties

    Properties of the key stores, the node registry and the lookups that
    go beyond the numbered claims. *)

(** ** What an add does to the tables *)

Lemma check_net_key_cases (net_key : option bytes) (idx : Z) (s : state) :
  (provisioner_check_net_key net_key idx s = (0, idx) /\ net_key_fresh s net_key)
  \/ exists (k : bytes) (i : nat) (sub : bt_mesh_subnet),
       net_key = Some k /\ p_sub (bt_mesh s) !! i = Some (Some sub)
       /\ net_key_matches k sub = true
       /\ provisioner_check_net_key net_key idx s = (- EEXIST, sub_net_idx sub).
Proof.
  unfold provisioner_check_net_key. destruct net_key as [k|].
  - destruct (find_row _ 0 _) as [[i sub]|] eqn:E.
    + right. apply find_row_0 in E as (Hl & Hm & _). exists k, i, sub. auto.
    + left. split; [reflexivity|]. intros k' [= <-] (i & sub & Hl & Hm).
      rewrite (find_row_None_inv _ _ _ E i sub Hl) in Hm. discriminate.
  - left. split; [reflexivity|]. intros k' Hk. discriminate.
Qed.

Lemma check_app_key_cases (app_key : option bytes) (idx : Z) (s : state) :
  (provisioner_check_app_key app_key idx s = (0, idx) /\ app_key_fresh s app_key)
  \/ exists (k : bytes) (i : nat) (key : bt_mesh_app_key),
       app_key = Some k /\ p_app_keys (bt_mesh s) !! i = Some (Some key)
       /\ app_key_matches k key = true
       /\ provisioner_check_app_key app_key idx s = (- EEXIST, key_app_idx key).
Proof.
  unfold provisioner_check_app_key. destruct app_key as [k|].
  - destruct (find_row _ 0 _) as [[i key]|] eqn:E.
    + right. apply find_row_0 in E as (Hl & Hm & _). exists k, i, key. auto.
    + left. split; [reflexivity|]. intros k' [= <-] (i & key & Hl & Hm).
      rewrite (find_row_None_inv _ _ _ E i key Hl) in Hm. discriminate.
  - left. split; [reflexivity|]. intros k' Hk. discriminate.
Qed.

Lemma check_net_key_full_cases (s : state) :
  (provisioner_check_net_key_full s = - ENOMEM /\ table_full (p_sub (bt_mesh s)))
  \/ exists i : nat,
       provisioner_check_net_key_full s = Z.of_nat i
       /\ first_free (p_sub (bt_mesh s)) i.
Proof.
  unfold provisioner_check_net_key_full.
  destruct (find_free 0 (p_sub (bt_mesh s))) as [i|] eqn:E.
  - right. exists i. split; [reflexivity|]. apply first_free_by_find. exact E.
  - left. split; [reflexivity|]. apply table_full_by_find. exact E.
Qed.

Lemma check_app_key_full_cases (s : state) :
  (provisioner_check_app_key_full s = - ENOMEM /\ table_full (p_app_keys (bt_mesh s)))
  \/ exists i : nat,
       provisioner_check_app_key_full s = Z.of_nat i
       /\ first_free (p_app_keys (bt_mesh s)) i.
Proof.
  unfold provisioner_check_app_key_full.
  destruct (find_free 0 (p_app_keys (bt_mesh s))) as [i|] eqn:E.
  - right. exists i. split; [reflexivity|]. apply first_free_by_find. exact E.
  - left. split; [reflexivity|]. apply table_full_by_find. exact E.
Qed.

Lemma idx_alloc_inr (in_use : Z -> bool) :
  forall (fuel : nat) (c j : Z),
    c < 0x1000 -> idx_alloc in_use fuel c = Some (inr j) ->
    in_use j = false /\ j < 0x1000.
Proof.
  induction fuel as [|fuel IH]; intros c j Hc H;
    unfold idx_alloc in H; fold idx_alloc in H; [discriminate|].
  destruct (in_use c) eqn:Hu.
  - destruct (u16 (c + 1) >=? 0x1000) eqn:Hge; [discriminate|].
    rewrite Z.geb_leb in Hge. apply Z.leb_gt in Hge. exact (IH _ _ Hge H).
  - inversion H; subst. auto.
Qed.

(** A NetKey add either leaves the subnet table alone (every failure, and
    the success on stored key bytes, which changes nothing at all), or
    writes one new row: into the first free row, under an index below
    0x1000 that no live row carries, with the key it was given or
    generated. *)
Lemma net_key_add_inv (e : env) (net_key : option bytes) (net_idx : option Z)
    (s : state) (st : status) (out : option Z) (s' : state) :
  bt_mesh_provisioner_local_net_key_add e net_key net_idx s = Some (st, out, s') ->
  (p_sub (bt_mesh s') = p_sub (bt_mesh s)
   /\ (st = OK ->
       s' = s
       /\ exists (k : bytes) (i : nat) (sub : bt_mesh_subnet),
            net_key = Some k /\ p_sub (bt_mesh s) !! i = Some (Some sub)
            /\ net_key_matches k sub = true /\ out = Some (sub_net_idx sub)))
  \/ exists (add : nat) (j : Z) (p_key : bytes) (n : Z),
       st = OK /\ out = Some j
       /\ net_key_fresh s net_key
       /\ first_free (p_sub (bt_mesh s)) add
       /\ ~ net_idx_live s j /\ j < 0x1000
       /\ fill_p_key e net_key = Some p_key
       /\ bt_mesh_net_keys_create e p_key = Some n
       /\ p_sub (bt_mesh s') = <[add := Some (new_subnet j p_key n)]> (p_sub (bt_mesh s)).
Proof.
  unfold bt_mesh_provisioner_local_net_key_add.
  destruct (p_net_idx_next (bt_mesh s) >=? 0x1000) eqn:Hc.
  { intros H; inversion H; subst. left. split; [reflexivity | discriminate]. }
  rewrite Z.geb_leb in Hc. apply Z.leb_gt in Hc.
  destruct net_idx as [idx0|].
  2:{ intros H; inversion H; subst. left. split; [reflexivity | discriminate]. }
  destruct (negb (idx0 =? 0xFFFF) && (idx0 >=? 0x1000)) eqn:Harg.
  { intros H; inversion H; subst. left. split; [reflexivity | discriminate]. }
  destruct (check_net_key_cases net_key idx0 s)
    as [[-> Hfresh]|(k & i & sub & Hk & Hl & Hm & ->)].
  2:{ simpl. intros H; inversion H; subst. left. split; [reflexivity|].
      intros _. split; [reflexivity|]. exists k, i, sub. auto. }
  simpl.
  destruct (negb (provisioner_check_net_idx idx0 true s =? 0)) eqn:Huse.
  { intros H; inversion H; subst. left. split; [reflexivity | discriminate]. }
  assert (Hdead : idx0 <> 0xFFFF -> ~ net_idx_live s idx0).
  { intros _ Hl. rewrite (check_net_idx_live _ _ true Hl) in Huse. discriminate. }
  destruct (check_net_key_full_cases s) as [[-> Hfull]|(add & -> & Hfree)].
  { simpl. intros H; inversion H; subst. left. split; [reflexivity | discriminate]. }
  rewrite of_nat_ltb_0.
  destruct (fill_p_key e net_key) as [p_key|] eqn:Hp.
  2:{ intros H; inversion H; subst. left. split; [reflexivity | discriminate]. }
  destruct (negb (osi_calloc e)).
  { intros H; inversion H; subst. left. split; [reflexivity | discriminate]. }
  destruct (bt_mesh_net_keys_create e p_key) as [n|] eqn:Hd.
  2:{ intros H; inversion H; subst. left. split; [reflexivity | discriminate]. }
  destruct (negb (idx0 =? 0xFFFF)) eqn:Hexp.
  - intros H; inversion H; subst. right. exists add, idx0, p_key, n.
    split; [reflexivity|]. split; [reflexivity|]. split; [exact Hfresh|].
    split; [exact Hfree|].
    split; [apply Hdead; apply negb_true_iff, Z.eqb_neq in Hexp; exact Hexp|].
    split.
    { simpl in Harg. rewrite Z.geb_leb in Harg. apply Z.leb_gt in Harg. exact Harg. }
    split; [reflexivity|]. split; [exact Hd|].
    simpl. rewrite Nat2Z.id. reflexivity.
  - destruct (idx_alloc _ _ _) as [[next|j]|] eqn:Ha; [| |discriminate].
    + intros H; inversion H; subst. left. split; [reflexivity | discriminate].
    + intros H; inversion H; subst. right. exists add, j, p_key, n.
      destruct (idx_alloc_inr _ _ _ _ Hc Ha) as [Hfreej Hj].
      split; [reflexivity|]. split; [reflexivity|]. split; [exact Hfresh|].
      split; [exact Hfree|].
      split; [intros Hl; apply net_idx_in_use_live in Hl; congruence|].
      split; [exact Hj|]. split; [reflexivity|]. split; [exact Hd|].
      simpl. rewrite Nat2Z.id. reflexivity.
Qed.

Lemma app_key_add_inv (e : env) (app_key : option bytes) (net_idx : Z)
    (app_idx : option Z) (s : state) (st : status) (out : option Z) (s' : state) :
  bt_mesh_provisioner_local_app_key_add e app_key net_idx app_idx s
    = Some (st, out, s') ->
  (p_app_keys (bt_mesh s') = p_app_keys (bt_mesh s)
   /\ (st = OK ->
       s' = s
       /\ exists (k : bytes) (i : nat) (key : bt_mesh_app_key),
            app_key = Some k /\ p_app_keys (bt_mesh s) !! i = Some (Some key)
            /\ app_key_matches k key = true /\ out = Some (key_app_idx key)))
  \/ exists (add : nat) (j : Z) (p_key : bytes) (a : Z),
       st = OK /\ out = Some j
       /\ app_key_fresh s app_key
       /\ net_idx_live s net_idx
       /\ first_free (p_app_keys (bt_mesh s)) add
       /\ ~ app_idx_live s j /\ j < 0x1000
       /\ fill_p_key e app_key = Some p_key
       /\ bt_mesh_app_id e p_key = Some a
       /\ p_sub (bt_mesh s') = p_sub (bt_mesh s)
       /\ p_app_keys (bt_mesh s')
          = <[add := Some (new_app_key net_idx j p_key a)]> (p_app_keys (bt_mesh s)).
Proof.
  unfold bt_mesh_provisioner_local_app_key_add.
  destruct (p_app_idx_next (bt_mesh s) >=? 0x1000) eqn:Hc.
  { intros H; inversion H; subst. left. split; [reflexivity | discriminate]. }
  rewrite Z.geb_leb in Hc. apply Z.leb_gt in Hc.
  destruct app_idx as [idx0|].
  2:{ intros H; inversion H; subst. left. split; [reflexivity | discriminate]. }
  destruct (negb (idx0 =? 0xFFFF) && (idx0 >=? 0x1000)) eqn:Harg.
  { intros H; inversion H; subst. left. split; [reflexivity | discriminate]. }
  destruct (check_app_key_cases app_key idx0 s)
    as [[-> Hfresh]|(k & i & key & Hk & Hl & Hm & ->)].
  2:{ simpl. intros H; inversion H; subst. left. split; [reflexivity|].
      intros _. split; [reflexivity|]. exists k, i, key. auto. }
  simpl.
  destruct (negb (provisioner_check_net_idx net_idx false s =? 0)) eqn:Hnet.
  { intros H; inversion H; subst. left. split; [reflexivity | discriminate]. }
  assert (Hlive : net_idx_live s net_idx).
  { apply net_idx_live_by_check. apply negb_false_iff, Z.eqb_eq in Hnet. exact Hnet. }
  destruct (negb (provisioner_check_app_idx idx0 true s =? 0)) eqn:Huse.
  { intros H; inversion H; subst. left. split; [reflexivity | discriminate]. }
  assert (Hdead : ~ app_idx_live s idx0).
  { intros Hl. rewrite (check_app_idx_live _ _ true Hl) in Huse. discriminate. }
  destruct (check_app_key_full_cases s) as [[-> Hfull]|(add & -> & Hfree)].
  { simpl. intros H; inversion H; subst. left. split; [reflexivity | discriminate]. }
  rewrite of_nat_ltb_0.
  destruct (fill_p_key e app_key) as [p_key|] eqn:Hp.
  2:{ intros H; inversion H; subst. left. split; [reflexivity | discriminate]. }
  destruct (negb (osi_calloc e)).
  { intros H; inversion H; subst. left. split; [reflexivity | discriminate]. }
  destruct (bt_mesh_app_id e p_key) as [a|] eqn:Hd.
  2:{ intros H; inversion H; subst. left. split; [reflexivity | discriminate]. }
  destruct (negb (idx0 =? 0xFFFF)) eqn:Hexp.
  - intros H; inversion H; subst. right. exists add, idx0, p_key, a.
    split; [reflexivity|]. split; [reflexivity|]. split; [exact Hfresh|].
    split; [exact Hlive|]. split; [exact Hfree|]. split; [exact Hdead|].
    split.
    { simpl in Harg. rewrite Z.geb_leb in Harg. apply Z.leb_gt in Harg. exact Harg. }
    split; [reflexivity|]. split; [exact Hd|]. split; [reflexivity|].
    simpl. rewrite Nat2Z.id. reflexivity.
  - destruct (idx_alloc _ _ _) as [[next|j]|] eqn:Ha; [| |discriminate].
    + intros H; inversion H; subst. left. split; [reflexivity | discriminate].
    + intros H; inversion H; subst. right. exists add, j, p_key, a.
      destruct (idx_alloc_inr _ _ _ _ Hc Ha) as [Hfreej Hj].
      split; [reflexivity|]. split; [reflexivity|]. split; [exact Hfresh|].
      split; [exact Hlive|]. split; [exact Hfree|].
      split; [intros Hl; apply app_idx_in_use_live in Hl; congruence|].
      split; [exact Hj|]. split; [reflexivity|]. split; [exact Hd|].
      split; [reflexivity|].
      simpl. rewrite Nat2Z.id. reflexivity.
Qed.

(** ** Unique indices *)

Lemma insert_row_unique {A : Type} (f : A -> Z) (tbl : list (option A))
    (a : nat) (x : A) :
  (forall (i j : nat) (r r' : A),
     tbl !! i = Some (Some r) -> tbl !! j = Some (Some r') -> f r = f r' -> i = j) ->
  tbl !! a = Some None ->
  (forall (i : nat) (r : A), tbl !! i = Some (Some r) -> f r <> f x) ->
  forall (i j : nat) (r r' : A),
    <[a := Some x]> tbl !! i = Some (Some r) ->
    <[a := Some x]> tbl !! j = Some (Some r') -> f r = f r' -> i = j.
Proof.
  intros Hu Ha Hnew i j r r' Hi Hj Heq.
  assert (Hlt : (a < length tbl)%nat) by (apply lookup_lt_Some in Ha; exact Ha).
  destruct (Nat.eq_dec i a) as [->|Hia]; destruct (Nat.eq_dec j a) as [->|Hja].
  - reflexivity.
  - rewrite list_lookup_insert_eq in Hi by exact Hlt.
    rewrite list_lookup_insert_ne in Hj by auto.
    inversion Hi; subst. exfalso. apply (Hnew j r' Hj). auto.
  - rewrite list_lookup_insert_ne in Hi by auto.
    rewrite list_lookup_insert_eq in Hj by exact Hlt.
    inversion Hj; subst. exfalso. apply (Hnew i r Hi). auto.
  - rewrite list_lookup_insert_ne in Hi by auto.
    rewrite list_lookup_insert_ne in Hj by auto. eauto.
Qed.

Lemma insert_row_bounded {A : Type} (f : A -> Z) (tbl : list (option A))
    (a : nat) (x : A) (bound : Z) :
  (forall (i : nat) (r : A), tbl !! i = Some (Some r) -> f r < bound) ->
  f x < bound ->
  forall (i : nat) (r : A), <[a := Some x]> tbl !! i = Some (Some r) -> f r < bound.
Proof.
  intros Hb Hx i r Hi. destruct (Nat.eq_dec i a) as [->|Hia].
  - destruct (Nat.lt_ge_cases a (length tbl)) as [Hlt|Hge].
    + rewrite list_lookup_insert_eq in Hi by exact Hlt. inversion Hi; subst. exact Hx.
    + rewrite list_insert_ge in Hi by exact Hge. eauto.
  - rewrite list_lookup_insert_ne in Hi by auto. eauto.
Qed.

(** X1: a NetKey add, whatever its arguments and its outcome, keeps the
    live subnet indices pairwise distinct and below 0x1000. *)
Theorem net_key_add_keeps_idx_unique (e : env) (net_key : option bytes)
    (net_idx : option Z) (s : state) (st : status) (out : option Z) (s' : state) :
  net_idx_unique s -> net_idx_in_range s ->
  bt_mesh_provisioner_local_net_key_add e net_key net_idx s = Some (st, out, s') ->
  net_idx_unique s' /\ net_idx_in_range s'.
Proof.
  intros Hu Hr H.
  destruct (net_key_add_inv _ _ _ _ _ _ _ H)
    as [[Hsame _]|(add & j & p_key & n & _ & _ & _ & [Hfree _] & Hdead & Hj & _ & _ & Hsub)].
  - unfold net_idx_unique, net_idx_in_range. rewrite Hsame. auto.
  - unfold net_idx_unique, net_idx_in_range. rewrite Hsub. split.
    + apply (insert_row_unique sub_net_idx); auto.
      intros i r Hl Heq. apply Hdead. exists i, r. auto.
    + apply (insert_row_bounded sub_net_idx); auto.
Qed.

(** X2: the same for the AppKey add and the AppKey indices. *)
Theorem app_key_add_keeps_idx_unique (e : env) (app_key : option bytes) (net_idx : Z)
    (app_idx : option Z) (s : state) (st : status) (out : option Z) (s' : state) :
  app_idx_unique s -> app_idx_in_range s ->
  bt_mesh_provisioner_local_app_key_add e app_key net_idx app_idx s
    = Some (st, out, s') ->
  app_idx_unique s' /\ app_idx_in_range s'.
Proof.
  intros Hu Hr H.
  destruct (app_key_add_inv _ _ _ _ _ _ _ _ H)
    as [[Hsame _]|(add & j & p_key & a & _ & _ & _ & _ & [Hfree _] & Hdead & Hj & _ & _ & _ & Hkeys)].
  - unfold app_idx_unique, app_idx_in_range. rewrite Hsame. auto.
  - unfold app_idx_unique, app_idx_in_range. rewrite Hkeys. split.
    + apply (insert_row_unique key_app_idx); auto.
      intros i r Hl Heq. apply Hdead. exists i, r. auto.
    + apply (insert_row_bounded key_app_idx); auto.
Qed.

(** ** Add, then get *)

Lemma find_row_insert_new {A : Type} (f : A -> bool) (tbl : list (option A))
    (a : nat) (x : A) :
  tbl !! a = Some None ->
  (forall (i : nat) (r : A), tbl !! i = Some (Some r) -> f r = false) ->
  f x = true ->
  find_row f 0 (<[a := Some x]> tbl) = Some (a, x).
Proof.
  intros Ha Hold Hx.
  assert (Hlt : (a < length tbl)%nat) by (apply lookup_lt_Some in Ha; exact Ha).
  assert (Hl : <[a := Some x]> tbl !! a = Some (Some x))
    by (apply list_lookup_insert_eq; exact Hlt).
  destruct (find_row_found f _ 0 a x Hl Hx) as (i & r & E).
  rewrite E. apply find_row_0 in E as (Hi & Hf & _).
  destruct (Nat.eq_dec i a) as [->|Hia].
  - congruence.
  - rewrite list_lookup_insert_ne in Hi by auto.
    rewrite (Hold i r Hi) in Hf. discriminate.
Qed.

Lemma net_idx_live_insert (s s' : state) (add : nat) (sub : bt_mesh_subnet) :
  p_sub (bt_mesh s) !! add = Some None ->
  p_sub (bt_mesh s') = <[add := Some sub]> (p_sub (bt_mesh s)) ->
  net_idx_live s' (sub_net_idx sub).
Proof.
  intros Ha Hs. exists add, sub. split; [|reflexivity].
  rewrite Hs. apply list_lookup_insert_eq. apply lookup_lt_Some in Ha. exact Ha.
Qed.

(** X3: when a NetKey add of new key material returns 0 and the index
    [j], both get functions return for [j] the key that was added: the 16
    bytes supplied, or the bytes the random generator gave. *)
Theorem net_key_add_then_get (e : env) (net_key : option bytes) (net_idx : option Z)
    (s : state) (j : Z) (s' : state) :
  net_key_fresh s net_key ->
  bt_mesh_provisioner_local_net_key_add e net_key net_idx s = Some (OK, Some j, s') ->
  exists p_key : bytes,
    fill_p_key e net_key = Some p_key
    /\ bt_mesh_provisioner_local_net_key_get j s' = Some p_key
    /\ provisioner_net_key_get j s' = Some p_key.
Proof.
  intros Hfresh H.
  destruct (net_key_add_inv _ _ _ _ _ _ _ H)
    as [[_ Hdup]|(add & j' & p_key & n & _ & Hout & _ & [Hfree _] & Hdead & _ & Hp & _ & Hsub)].
  { destruct (Hdup eq_refl) as (_ & k & i & sub & Hk & Hl & Hm & _).
    exfalso. apply (Hfresh k Hk). exists i, sub. auto. }
  inversion Hout; subst j'. exists p_key. split; [exact Hp|].
  assert (Hfind : find_row (fun sub => sub_net_idx sub =? j) 0 (p_sub (bt_mesh s'))
                  = Some (add, new_subnet j p_key n)).
  { rewrite Hsub. apply find_row_insert_new; auto.
    - intros i r Hl. apply Z.eqb_neq. intros Heq. apply Hdead. exists i, r. auto.
    - apply Z.eqb_refl. }
  split.
  - unfold bt_mesh_provisioner_local_net_key_get.
    rewrite (check_net_idx_live s' j false)
      by (apply (net_idx_live_insert s s' add (new_subnet j p_key n)); auto).
    simpl. rewrite Hfind. reflexivity.
  - unfold provisioner_net_key_get. rewrite Hfind. reflexivity.
Qed.

(** X4: when an AppKey add of new key material for the subnet [net_idx]
    returns 0 and the index [j], the get for [(net_idx, j)] returns the
    key that was added, and [provisioner_app_key_find] finds the new row
    (unless [net_idx] is the unused marker, which that function skips). *)
Theorem app_key_add_then_get (e : env) (app_key : option bytes) (net_idx : Z)
    (app_idx : option Z) (s : state) (j : Z) (s' : state) :
  app_key_fresh s app_key ->
  bt_mesh_provisioner_local_app_key_add e app_key net_idx app_idx s
    = Some (OK, Some j, s') ->
  exists (p_key : bytes) (a : Z),
    fill_p_key e app_key = Some p_key
    /\ bt_mesh_app_id e p_key = Some a
    /\ bt_mesh_provisioner_local_app_key_get net_idx j s' = Some p_key
    /\ (net_idx <> BLE_MESH_KEY_UNUSED ->
        provisioner_app_key_find j s' = Some (new_app_key net_idx j p_key a)).
Proof.
  intros Hfresh H.
  destruct (app_key_add_inv _ _ _ _ _ _ _ _ H)
    as [[_ Hdup]|(add & j' & p_key & a & _ & Hout & _ & Hlive & [Hfree _] & Hdead
                  & _ & Hp & Hd & Hsub & Hkeys)].
  { destruct (Hdup eq_refl) as (_ & k & i & key & Hk & Hl & Hm & _).
    exfalso. apply (Hfresh k Hk). exists i, key. auto. }
  inversion Hout; subst j'. exists p_key, a.
  split; [exact Hp|]. split; [exact Hd|]. split.
  - unfold bt_mesh_provisioner_local_app_key_get.
    rewrite (check_net_idx_live s' net_idx false)
      by (apply (net_idx_live_p_sub s); auto).
    assert (Hl' : app_idx_live s' j).
    { exists add, (new_app_key net_idx j p_key a). split; [|reflexivity].
      rewrite Hkeys. apply list_lookup_insert_eq. apply lookup_lt_Some in Hfree.
      exact Hfree. }
    rewrite (check_app_idx_live s' j false Hl'). simpl.
    rewrite Hkeys, (find_row_insert_new _ _ add (new_app_key net_idx j p_key a)); auto.
    + intros i r Hl. unfold app_key_is. apply andb_false_iff. right.
      apply Z.eqb_neq. intros Heq. apply Hdead. exists i, r. auto.
    + unfold app_key_is. simpl. rewrite !Z.eqb_refl. reflexivity.
  - intros Hne. unfold provisioner_app_key_find.
    rewrite Hkeys, (find_row_insert_new _ _ add (new_app_key net_idx j p_key a)); auto.
    + intros i r Hl. apply andb_false_iff. right.
      apply Z.eqb_neq. intros Heq. apply Hdead. exists i, r. auto.
    + simpl. rewrite Z.eqb_refl. apply andb_true_iff. split; [|reflexivity].
      apply negb_true_iff, Z.eqb_neq. exact Hne.
Qed.

(** ** Deleting keys *)

Lemma find_row_None_intro {A : Type} (f : A -> bool) (tbl : list (option A)) :
  forall base : nat,
    (forall (j : nat) (a : A), tbl !! j = Some (Some a) -> f a = false) ->
    find_row f base tbl = None.
Proof.
  induction tbl as [|x tl IH]; intros base H; [reflexivity|].
  simpl. destruct x as [a|].
  - rewrite (H 0%nat a eq_refl). apply IH. intros j a' Hl. apply (H (S j) a' Hl).
  - apply IH. intros j a' Hl. apply (H (S j) a' Hl).
Qed.

Lemma find_row_delete_other {A : Type} (f : A -> bool) (tbl : list (option A)) :
  forall (i base : nat) (a : A),
    tbl !! i = Some (Some a) -> f a = false ->
    find_row f base (<[i := None]> tbl) = find_row f base tbl.
Proof.
  induction tbl as [|x tl IH]; intros i base a Hl Hf; [reflexivity|].
  destruct i as [|i]; simpl in *.
  - inversion Hl; subst. rewrite Hf. reflexivity.
  - destruct x as [y|]; [destruct (f y)|]; eauto.
Qed.

Lemma delete_row_lookup {A : Type} (tbl : list (option A)) (i j : nat) (a : A) :
  <[i := None]> tbl !! j = Some (Some a) -> tbl !! j = Some (Some a) /\ j <> i.
Proof.
  intros H. apply list_lookup_insert_Some in H as [(_ & Hx & _)|(Hne & Hl)].
  - discriminate.
  - auto.
Qed.

(** X5: an AppKey delete returns 0 exactly when the subnet index is live
    and some live row is bound to both indices; every other call returns
    -ENODEV and leaves the state as it was.  This includes the return
    after the loop: both indices live, but the AppKey bound to another
    subnet. *)
Theorem app_key_delete_status (net_idx app_idx : Z) (s : state) :
  ((bt_mesh_provisioner_local_app_key_delete net_idx app_idx s).1 = OK
   <-> net_idx_live s net_idx
       /\ exists (i : nat) (key : bt_mesh_app_key),
            p_app_keys (bt_mesh s) !! i = Some (Some key)
            /\ key_net_idx key = net_idx /\ key_app_idx key = app_idx)
  /\ ((bt_mesh_provisioner_local_app_key_delete net_idx app_idx s).1 <> OK ->
      (bt_mesh_provisioner_local_app_key_delete net_idx app_idx s).2 = s
      /\ ret (bt_mesh_provisioner_local_app_key_delete net_idx app_idx s).1 = - ENODEV).
Proof.
  unfold bt_mesh_provisioner_local_app_key_delete.
  destruct (net_idx_live_dec s net_idx) as [Hn|Hn].
  2:{ rewrite (check_net_idx_dead s net_idx false Hn). simpl. split.
      - split; [discriminate|]. intros [Hl _]. contradiction.
      - auto. }
  rewrite (check_net_idx_live s net_idx false Hn). simpl.
  destruct (app_idx_live_dec s app_idx) as [Ha|Ha].
  2:{ rewrite (check_app_idx_dead s app_idx false Ha). simpl. split.
      - split; [discriminate|]. intros (_ & i & key & Hl & _ & Hk).
        exfalso. apply Ha. exists i, key. auto.
      - auto. }
  rewrite (check_app_idx_live s app_idx false Ha). simpl.
  destruct (find_row (app_key_is net_idx app_idx) 0 (p_app_keys (bt_mesh s)))
    as [[i key]|] eqn:E.
  - destruct (bt_mesh_model_foreach (_model_unbind app_idx) (comp s)) as [elems evs].
    simpl. split; [|congruence].
    split; [|reflexivity]. intros _. split; [exact Hn|].
    apply find_row_0 in E as (Hl & Hf & _).
    unfold app_key_is in Hf. apply andb_true_iff in Hf as [H1 H2].
    apply Z.eqb_eq in H1, H2. exists i, key. auto.
  - simpl. split; [|auto].
    split; [discriminate|]. intros (_ & i & key & Hl & H1 & H2).
    pose proof (find_row_None_inv _ _ _ E i key Hl) as Hf.
    unfold app_key_is in Hf. rewrite <- H1, <- H2, !Z.eqb_refl in Hf. discriminate.
Qed.

(** X6: an AppKey delete that returns 0 clears the first row bound to
    both indices and nothing else of the two key tables or the node
    table; afterwards no model slot refers to the index, and AppKey
    indices that were unbound stay unbound.  When the AppKey indices of
    the table are pairwise distinct, the index is then dead and the get
    for the pair returns NULL. *)
Theorem app_key_delete_effect (net_idx app_idx : Z) (s s' : state) :
  bt_mesh_provisioner_local_app_key_delete net_idx app_idx s = (OK, s') ->
  (exists (i : nat) (key : bt_mesh_app_key),
     p_app_keys (bt_mesh s) !! i = Some (Some key)
     /\ key_net_idx key = net_idx /\ key_app_idx key = app_idx
     /\ (forall (j : nat) (key' : bt_mesh_app_key),
           (j < i)%nat -> p_app_keys (bt_mesh s) !! j = Some (Some key') ->
           app_key_is net_idx app_idx key' = false)
     /\ p_app_keys (bt_mesh s') = <[i := None]> (p_app_keys (bt_mesh s)))
  /\ p_sub (bt_mesh s') = p_sub (bt_mesh s)
  /\ mesh_nodes s' = mesh_nodes s
  /\ unbound (comp s') app_idx
  /\ (forall a : Z, unbound (comp s) a -> unbound (comp s') a)
  /\ (app_idx_unique s ->
      ~ app_idx_live s' app_idx
      /\ bt_mesh_provisioner_local_app_key_get net_idx app_idx s' = None).
Proof.
  unfold bt_mesh_provisioner_local_app_key_delete. intros H.
  destruct (negb (provisioner_check_net_idx net_idx false s =? 0)); [discriminate|].
  destruct (negb (provisioner_check_app_idx app_idx false s =? 0)); [discriminate|].
  destruct (find_row (app_key_is net_idx app_idx) 0 (p_app_keys (bt_mesh s)))
    as [[i key]|] eqn:E; [|discriminate].
  pose proof (unbind_unbound app_idx (comp s)) as Hub.
  pose proof (fun a => unbind_keeps_unbound app_idx a (comp s)) as Hkeep.
  destruct (bt_mesh_model_foreach (_model_unbind app_idx) (comp s)) as [elems evs].
  simpl in Hub, Hkeep. inversion H; subst s'; clear H. simpl.
  apply find_row_0 in E as (Hl & Hf & Hfirst).
  unfold app_key_is in Hf. apply andb_true_iff in Hf as [H1 H2].
  apply Z.eqb_eq in H1, H2.
  split; [exists i, key; auto|].
  split; [reflexivity|]. split; [reflexivity|].
  split; [exact Hub|]. split; [exact Hkeep|].
  intros Hu.
  assert (Hdead : ~ app_idx_live
                      (set_bt_mesh
                         (set_p_app_keys (<[i := None]> (p_app_keys (bt_mesh s))) (bt_mesh s))
                         (emit (settings [bt_mesh_clear_p_app_key key])
                            (emit evs (set_comp elems s)))) app_idx).
  { intros (j & key' & Hj & Hk). simpl in Hj.
    apply delete_row_lookup in Hj as [Hj Hne].
    apply Hne. apply (Hu j i key' key Hj Hl). congruence. }
  split; [exact Hdead|].
  unfold bt_mesh_provisioner_local_app_key_get.
  rewrite (check_app_idx_dead _ app_idx false Hdead).
  destruct (negb (provisioner_check_net_idx net_idx false _ =? 0)); reflexivity.
Qed.

Lemma app_keys_cascade_gap (net_idx : Z) :
  forall (n j : nat) (s : state),
    (j + n = length (p_app_keys (bt_mesh s)))%nat ->
    net_idx_live s net_idx ->
    (forall (k : nat) (key : bt_mesh_app_key),
       (k < j)%nat -> p_app_keys (bt_mesh s) !! k = Some (Some key) ->
       key_net_idx key <> net_idx) ->
    (exists k : nat, (j <= k)%nat /\ p_app_keys (bt_mesh s) !! k = Some None) ->
    app_keys_cascade net_idx j n s = Fault.
Proof.
  induction n as [|n IH]; intros j s Hlen Hlive Hbefore (k & Hk & Hgap).
  - apply lookup_lt_Some in Hgap. lia.
  - simpl. destruct (p_app_keys (bt_mesh s) !! j) as [[key|]|] eqn:Hj;
      [|reflexivity|reflexivity].
    assert (Hkj : k <> j) by (intros ->; congruence).
    destruct (key_net_idx key =? net_idx) eqn:Hnet.
    + apply Z.eqb_eq in Hnet.
      destruct (app_key_delete_at j key s) as (s1 & Hdel & Hkeys & Hsub & _); auto.
      { rewrite Hnet. exact Hlive. }
      { intros k' key' Hlt Hl. rewrite Hnet. eauto. }
      rewrite Hdel. simpl. apply IH.
      * rewrite Hkeys, length_insert. lia.
      * apply (net_idx_live_p_sub s); auto.
      * intros k' key' Hlt Hl. rewrite Hkeys in Hl.
        apply delete_row_lookup in Hl as [Hl Hne].
        apply (Hbefore k' key'); [lia|exact Hl].
      * exists k. split; [lia|]. rewrite Hkeys.
        rewrite list_lookup_insert_ne by auto. exact Hgap.
    + apply Z.eqb_neq in Hnet. apply IH; auto.
      * lia.
      * intros k' key' Hlt Hl. destruct (Nat.eq_dec k' j) as [->|Hne].
        -- congruence.
        -- apply (Hbefore k' key'); [lia|exact Hl].
      * exists k. split; [lia|exact Hgap].
Qed.

(** X7: the three outcomes of a NetKey delete.  An index that is not
    live gives -ENODEV and an unchanged state; a live index gives 0 when
    the AppKey table has no empty slot; and a live index with an empty
    slot anywhere in the AppKey table ends in the read of [key->net_idx]
    through a NULL pointer. *)
Theorem net_key_delete_outcome (n : Z) (s : state) :
  (~ net_idx_live s n ->
   bt_mesh_provisioner_local_net_key_delete n s = Ok (ERR NetIdxMissing, s))
  /\ (net_idx_live s n -> table_full (p_app_keys (bt_mesh s)) ->
      exists s' : state, bt_mesh_provisioner_local_net_key_delete n s = Ok (OK, s'))
  /\ (net_idx_live s n -> ~ table_full (p_app_keys (bt_mesh s)) ->
      bt_mesh_provisioner_local_net_key_delete n s = Fault).
Proof.
  split; [|split].
  - intros Hdead. unfold bt_mesh_provisioner_local_net_key_delete.
    rewrite (check_net_idx_dead s n false Hdead). reflexivity.
  - apply net_key_delete_returns.
  - intros Hlive Hgap. unfold bt_mesh_provisioner_local_net_key_delete.
    rewrite (check_net_idx_live s n false Hlive). simpl.
    destruct Hlive as (i0 & sub0 & Hl0 & Hidx0).
    destruct (find_row_found (fun sub => sub_net_idx sub =? n) _ 0 i0 sub0 Hl0)
      as (i & sub & E); [apply Z.eqb_eq; exact Hidx0|].
    rewrite E. apply find_row_0 in E as (Hl & Hf & _). apply Z.eqb_eq in Hf.
    rewrite app_keys_cascade_gap; auto.
    + exists i, sub. auto.
    + intros k key Hlt. lia.
    + destruct (find_free 0 (p_app_keys (bt_mesh s))) as [k|] eqn:F.
      * apply first_free_by_find in F as [Hk _]. exists k. split; [lia|exact Hk].
      * exfalso. apply Hgap. apply table_full_by_find. exact F.
Qed.

Lemma net_key_get_same (n : Z) (s : state) :
  bt_mesh_provisioner_local_net_key_get n s = provisioner_net_key_get n s.
Proof.
  unfold bt_mesh_provisioner_local_net_key_get, provisioner_net_key_get,
    provisioner_check_net_idx, subnet_active_key.
  destruct (find_row (fun sub => sub_net_idx sub =? n) 0 (p_sub (bt_mesh s)))
    as [[i sub]|]; simpl; [destruct (kr_flag sub)|]; reflexivity.
Qed.

(** X8: when the subnet indices of the table are pairwise distinct, a
    NetKey delete that returns 0 makes both get functions return NULL
    for the index, leaves the answer for every other index as it was, and
    keeps the indices distinct. *)
Theorem net_key_delete_then_get (n : Z) (s s' : state) :
  net_idx_unique s ->
  bt_mesh_provisioner_local_net_key_delete n s = Ok (OK, s') ->
  bt_mesh_provisioner_local_net_key_get n s' = None
  /\ provisioner_net_key_get n s' = None
  /\ (forall m : Z, m <> n ->
        bt_mesh_provisioner_local_net_key_get m s'
        = bt_mesh_provisioner_local_net_key_get m s)
  /\ net_idx_unique s'.
Proof.
  intros Hu H. unfold bt_mesh_provisioner_local_net_key_delete in H.
  destruct (negb (provisioner_check_net_idx n false s =? 0)); [discriminate|].
  destruct (find_row (fun sub => sub_net_idx sub =? n) 0 (p_sub (bt_mesh s)))
    as [[i sub]|] eqn:E; [|discriminate].
  apply find_row_0 in E as (Hl & Hf & _). apply Z.eqb_eq in Hf.
  destruct (app_keys_cascade (sub_net_idx sub) 0 (length (p_app_keys (bt_mesh s))) s)
    as [s1|] eqn:C; [|discriminate].
  inversion H; subst s'; clear H.
  destruct (app_keys_cascade_spec (sub_net_idx sub)
              (length (p_app_keys (bt_mesh s))) 0%nat s s1) as (Hsub & _); auto.
  { exists i, sub. auto. }
  { intros k key Hlt. lia. }
  assert (Hp : p_sub (bt_mesh (subnet_free i sub s1)) = <[i := None]> (p_sub (bt_mesh s)))
    by (simpl; rewrite Hsub; reflexivity).
  assert (Hnone : provisioner_net_key_get n (subnet_free i sub s1) = None).
  { unfold provisioner_net_key_get. rewrite Hp.
    rewrite find_row_None_intro; [reflexivity|].
    intros j sub' Hj. apply delete_row_lookup in Hj as [Hj Hne].
    apply Z.eqb_neq. intros Heq. apply Hne. apply (Hu j i sub' sub Hj Hl). congruence. }
  split; [rewrite net_key_get_same; exact Hnone|].
  split; [exact Hnone|].
  split.
  - intros m Hm. rewrite !net_key_get_same. unfold provisioner_net_key_get.
    rewrite Hp, (find_row_delete_other _ _ i 0%nat sub Hl); [reflexivity|].
    apply Z.eqb_neq. congruence.
  - unfold net_idx_unique. rewrite Hp. intros j j' r r' Hj Hj' Heq.
    apply delete_row_lookup in Hj as [Hj _]. apply delete_row_lookup in Hj' as [Hj' _].
    eauto.
Qed.

(** ** Lookups *)

(** X9: [provisioner_net_key_get] and
    [bt_mesh_provisioner_local_net_key_get] return the same for every
    index and state: NULL exactly when no live row carries the index,
    otherwise the key of the first such row that its key-refresh flag
    selects. *)
Theorem net_key_get_agree (n : Z) (s : state) :
  provisioner_net_key_get n s = bt_mesh_provisioner_local_net_key_get n s
  /\ (provisioner_net_key_get n s = None <-> ~ net_idx_live s n)
  /\ (forall k : bytes,
        provisioner_net_key_get n s = Some k ->
        exists (i : nat) (sub : bt_mesh_subnet),
          p_sub (bt_mesh s) !! i = Some (Some sub) /\ sub_net_idx sub = n
          /\ (forall (j : nat) (sub' : bt_mesh_subnet),
                (j < i)%nat -> p_sub (bt_mesh s) !! j = Some (Some sub') ->
                sub_net_idx sub' <> n)
          /\ k = net (if kr_flag sub then sub_keys1 sub else sub_keys0 sub)).
Proof.
  split; [symmetry; apply net_key_get_same|].
  unfold provisioner_net_key_get, subnet_active_key.
  destruct (find_row (fun sub => sub_net_idx sub =? n) 0 (p_sub (bt_mesh s)))
    as [[i sub]|] eqn:E.
  - apply find_row_0 in E as (Hl & Hf & Hfirst). apply Z.eqb_eq in Hf. split.
    + split; [discriminate|]. intros Hdead. exfalso. apply Hdead. exists i, sub. auto.
    + intros k Hk. inversion Hk; subst k. exists i, sub.
      split; [exact Hl|]. split; [exact Hf|]. split.
      * intros j sub' Hlt Hj. apply Z.eqb_neq. eauto.
      * destruct (kr_flag sub); reflexivity.
  - split; [|discriminate]. split; [|reflexivity]. intros _ (i & sub & Hl & Hidx).
    pose proof (find_row_None_inv _ _ _ E i sub Hl) as Hf. simpl in Hf.
    apply Z.eqb_neq in Hf. contradiction.
Qed.

(** X10: for an index other than [BLE_MESH_KEY_ANY],
    [provisioner_subnet_get] returns the subnet whose active key
    [provisioner_net_key_get] returns, and that subnet carries the
    index; for [BLE_MESH_KEY_ANY] it returns slot 0 of the table as it
    is, empty or not. *)
Theorem subnet_get_net_key_get (n : Z) (s : state) :
  (n <> BLE_MESH_KEY_ANY ->
   exists r : option bt_mesh_subnet,
     provisioner_subnet_get n s = Ok r
     /\ provisioner_net_key_get n s = subnet_active_key <$> r
     /\ (forall sub : bt_mesh_subnet, r = Some sub -> sub_net_idx sub = n))
  /\ (forall row : option bt_mesh_subnet,
        p_sub (bt_mesh s) !! 0%nat = Some row ->
        provisioner_subnet_get BLE_MESH_KEY_ANY s = Ok row).
Proof.
  split.
  - intros Hn. unfold provisioner_subnet_get, provisioner_net_key_get.
    apply Z.eqb_neq in Hn. rewrite Hn.
    destruct (find_row (fun sub => sub_net_idx sub =? n) 0 (p_sub (bt_mesh s)))
      as [[i sub]|] eqn:E.
    + exists (Some sub). split; [reflexivity|]. split; [reflexivity|].
      intros sub' Hs. inversion Hs; subst sub'.
      apply find_row_0 in E as (_ & Hf & _). apply Z.eqb_eq. exact Hf.
    + exists None. split; [reflexivity|]. split; [reflexivity|]. discriminate.
  - intros row Hrow. unfold provisioner_subnet_get. rewrite Z.eqb_refl, Hrow. reflexivity.
Qed.

(** X11: binding a live AppKey index to a live subnet index returns 0
    and rewrites the subnet index of the first row that carries the
    AppKey index: the other fields of that row, the other rows, and the
    rest of the state stay as they were, and no call is made.  The get
    for the new pair then returns that row's key.  With either index not
    live the call returns -ENODEV and changes nothing. *)
Theorem bind_app_net_idx_then_get (net_idx app_idx : Z) (s : state) :
  (net_idx_live s net_idx -> app_idx_live s app_idx ->
   exists (i : nat) (key key' : bt_mesh_app_key) (s' : state),
     bt_mesh_provisioner_bind_local_app_net_idx net_idx app_idx s = (0, s')
     /\ p_app_keys (bt_mesh s) !! i = Some (Some key)
     /\ key_app_idx key = app_idx
     /\ (forall (j : nat) (k : bt_mesh_app_key),
           (j < i)%nat -> p_app_keys (bt_mesh s) !! j = Some (Some k) ->
           key_app_idx k <> app_idx)
     /\ p_app_keys (bt_mesh s') = <[i := Some key']> (p_app_keys (bt_mesh s))
     /\ key_net_idx key' = net_idx
     /\ key_app_idx key' = key_app_idx key
     /\ updated key' = updated key
     /\ app_keys0 key' = app_keys0 key
     /\ app_keys1 key' = app_keys1 key
     /\ p_sub (bt_mesh s') = p_sub (bt_mesh s)
     /\ rpl (bt_mesh s') = rpl (bt_mesh s)
     /\ p_net_idx_next (bt_mesh s') = p_net_idx_next (bt_mesh s)
     /\ p_app_idx_next (bt_mesh s') = p_app_idx_next (bt_mesh s)
     /\ mesh_nodes s' = mesh_nodes s
     /\ all_node_count s' = all_node_count s
     /\ prov_node_count s' = prov_node_count s
     /\ comp s' = comp s
     /\ log s' = log s
     /\ bt_mesh_provisioner_local_app_key_get net_idx app_idx s'
        = Some (val (if updated key then app_keys1 key else app_keys0 key)))
  /\ (~ (net_idx_live s net_idx /\ app_idx_live s app_idx) ->
      bt_mesh_provisioner_bind_local_app_net_idx net_idx app_idx s = (- ENODEV, s)).
Proof.
  unfold bt_mesh_provisioner_bind_local_app_net_idx. split.
  - intros Hn Ha.
    rewrite (check_net_idx_live s net_idx false Hn),
            (check_app_idx_live s app_idx false Ha). simpl.
    destruct Ha as (i0 & key0 & Hl0 & Hidx0).
    destruct (find_row_found (fun key => key_app_idx key =? app_idx) _ 0 i0 key0 Hl0)
      as (i & key & E); [apply Z.eqb_eq; exact Hidx0|].
    rewrite E. apply find_row_0 in E as (Hl & Hf & Hfirst). apply Z.eqb_eq in Hf.
    eexists i, key, (set_key_net_idx net_idx key), _. split; [reflexivity|]. simpl.
    split; [exact Hl|]. split; [exact Hf|].
    split; [intros j k Hlt Hj; apply Z.eqb_neq; apply (Hfirst j k Hlt Hj)|].
    do 15 (split; [reflexivity|]).
    assert (Hlt : (i < length (p_app_keys (bt_mesh s)))%nat)
      by (apply lookup_lt_Some in Hl; exact Hl).
    unfold bt_mesh_provisioner_local_app_key_get.
    match goal with
    | |- context [provisioner_check_net_idx net_idx false ?t] =>
        rewrite (check_net_idx_live t net_idx false) by (apply (net_idx_live_p_sub s); auto);
        rewrite (check_app_idx_live t app_idx false)
    end.
    2:{ exists i, (set_key_net_idx net_idx key). simpl. split; [|exact Hf].
        apply list_lookup_insert_eq. exact Hlt. }
    simpl.
    assert (Hfind : find_row (app_key_is net_idx app_idx) 0
                      (<[i := Some (set_key_net_idx net_idx key)]> (p_app_keys (bt_mesh s)))
                    = Some (i, set_key_net_idx net_idx key)).
    { assert (Hrow : <[i := Some (set_key_net_idx net_idx key)]> (p_app_keys (bt_mesh s)) !! i
                     = Some (Some (set_key_net_idx net_idx key)))
        by (apply list_lookup_insert_eq; exact Hlt).
      destruct (find_row_found (app_key_is net_idx app_idx) _ 0 i _ Hrow) as (i' & key' & E').
      { unfold app_key_is. simpl. rewrite Hf, !Z.eqb_refl. reflexivity. }
      rewrite E'. apply find_row_0 in E' as (Hl' & Hf' & Hfirst').
      destruct (Nat.lt_trichotomy i' i) as [Hlt'|[->|Hgt]].
      - rewrite list_lookup_insert_ne in Hl' by lia.
        pose proof (Hfirst i' key' Hlt' Hl') as Hno. simpl in Hno.
        unfold app_key_is in Hf'. apply andb_true_iff in Hf' as [_ Hf'].
        congruence.
      - congruence.
      - pose proof (Hfirst' i _ Hgt Hrow) as Hno.
        unfold app_key_is in Hno. simpl in Hno.
        rewrite Hf, !Z.eqb_refl in Hno. discriminate. }
    rewrite Hfind. simpl. destruct (updated key); reflexivity.
  - intros Hnot.
    destruct (net_idx_live_dec s net_idx) as [Hn|Hn].
    + rewrite (check_net_idx_live s net_idx false Hn). simpl.
      destruct (app_idx_live_dec s app_idx) as [Ha|Ha]; [exfalso; auto|].
      rewrite (check_app_idx_dead s app_idx false Ha). reflexivity.
    + rewrite (check_net_idx_dead s net_idx false Hn). reflexivity.
Qed.

(** ** The node table *)

Lemma scan_free_exact {A : Type} (tbl : list (option A)) :
  forall (n lo : nat),
    (lo + n <= length tbl)%nat ->
    (scan_free tbl lo n = Ok None /\ full_in tbl lo (lo + n))
    \/ exists i : nat,
         first_free_in tbl lo (lo + n) i /\ scan_free tbl lo n = Ok (Some i).
Proof.
  induction n as [|n IH]; intros lo Hlen; simpl.
  - left. split; [reflexivity|]. intros j Hj. lia.
  - destruct (tbl !! lo) as [[a|]|] eqn:Hl.
    + destruct (IH (S lo)) as [[Hr Hfull]|(i & (Hi & Hf & Hmin) & Hr)]; [lia| |].
      * left. split; [exact Hr|]. intros j Hj.
        destruct (Nat.eq_dec j lo) as [->|Hne]; [congruence|]. apply Hfull. lia.
      * right. exists i. split; [|exact Hr].
        split; [lia|]. split; [exact Hf|]. intros j Hj.
        destruct (Nat.eq_dec j lo) as [->|Hne]; [congruence|]. apply Hmin. lia.
    + right. exists lo. split; [|reflexivity].
      split; [lia|]. split; [exact Hl|]. intros j Hj. lia.
    + apply lookup_ge_None in Hl. lia.
Qed.

Lemma first_free_in_unique {A : Type} (tbl : list (option A)) (lo hi i j : nat) :
  first_free_in tbl lo hi i -> first_free_in tbl lo hi j -> i = j.
Proof.
  intros (Hi & Hfi & Hmi) (Hj & Hfj & Hmj).
  destruct (Nat.lt_trichotomy i j) as [Hlt|[Heq|Hgt]]; [|exact Heq|].
  - exfalso. apply (Hmj i); [lia|exact Hfi].
  - exfalso. apply (Hmi j); [lia|exact Hfj].
Qed.

Lemma partition_bounds (prov : bool) (s : state) :
  config_ok s ->
  (partition_lo prov <= partition_hi prov s <= length (mesh_nodes s))%nat
  /\ (if prov then partition_hi prov s = Z.to_nat CONFIG_BLE_MESH_MAX_PROV_NODES
      else partition_lo prov = Z.to_nat CONFIG_BLE_MESH_MAX_PROV_NODES).
Proof.
  intros [Hprov Hsize]. unfold partition_lo, partition_hi. destruct prov; split; auto; lia.
Qed.

Lemma node_count_inc_frame (prov : bool) (s : state) :
  bt_mesh (provisioner_node_count_inc prov s) = bt_mesh s
  /\ comp (provisioner_node_count_inc prov s) = comp s
  /\ all_node_count (provisioner_node_count_inc prov s) = u16 (all_node_count s + 1)
  /\ prov_node_count (provisioner_node_count_inc prov s)
     = (if prov then u16 (prov_node_count s + 1) else prov_node_count s).
Proof.
  unfold provisioner_node_count_inc. destruct prov; simpl; auto.
Qed.

(** Every way a store into the node table can end, when the
    configuration fits the table. *)
Lemma store_node_cases (e : env) (node : bt_mesh_node_t) (prov : bool) (s : state) :
  config_ok s ->
  (provisioner_store_node e node prov s = Ok (- ENOMEM, None, s)
   /\ (osi_calloc e = false
       \/ full_in (mesh_nodes s) (partition_lo prov) (partition_hi prov s)))
  \/ exists (i : nat) (s' : state),
       provisioner_store_node e node prov s = Ok (0, Some i, s')
       /\ osi_calloc e = true
       /\ first_free_in (mesh_nodes s) (partition_lo prov) (partition_hi prov s) i
       /\ mesh_nodes s' = <[i := Some node]> (mesh_nodes s)
       /\ all_node_count s' = u16 (all_node_count s + 1)
       /\ prov_node_count s'
          = (if prov then u16 (prov_node_count s + 1) else prov_node_count s)
       /\ bt_mesh s' = bt_mesh s
       /\ comp s' = comp s.
Proof.
  intros [Hprov Hsize]. unfold provisioner_store_node.
  rewrite (u16_small CONFIG_BLE_MESH_MAX_PROV_NODES) by lia.
  rewrite (u16_small (Z.of_nat (length (mesh_nodes s)))) by lia.
  assert (Hlo : Z.to_nat (if prov then 0 else CONFIG_BLE_MESH_MAX_PROV_NODES)
                = partition_lo prov) by (unfold partition_lo; destruct prov; reflexivity).
  assert (Hhi : (partition_lo prov
                 + Z.to_nat ((if prov then CONFIG_BLE_MESH_MAX_PROV_NODES
                              else Z.of_nat (length (mesh_nodes s)))
                             - (if prov then 0 else CONFIG_BLE_MESH_MAX_PROV_NODES))
                 = partition_hi prov s)%nat)
    by (unfold partition_lo, partition_hi; destruct prov; lia).
  rewrite Hlo.
  assert (Hin : (partition_hi prov s <= length (mesh_nodes s))%nat)
    by (unfold partition_hi; destruct prov; lia).
  destruct (scan_free_exact (mesh_nodes s)
              (Z.to_nat ((if prov then CONFIG_BLE_MESH_MAX_PROV_NODES
                          else Z.of_nat (length (mesh_nodes s)))
                         - (if prov then 0 else CONFIG_BLE_MESH_MAX_PROV_NODES)))
              (partition_lo prov))
    as [[-> Hfull]|(i & Hfirst & ->)]; [lia| |].
  - left. split; [reflexivity|]. right. rewrite Hhi in Hfull. exact Hfull.
  - rewrite Hhi in Hfirst. destruct (osi_calloc e).
    2:{ left. split; [reflexivity|]. left. reflexivity. }
    right. eexists i, _. split; [reflexivity|]. split; [reflexivity|].
    split; [exact Hfirst|].
    cbn [emit mesh_nodes all_node_count prov_node_count bt_mesh comp].
    rewrite node_count_inc_mesh_nodes.
    destruct (node_count_inc_frame prov
                (set_mesh_nodes (<[i := Some node]> (mesh_nodes s)) s))
      as (-> & -> & -> & ->).
    repeat split.
Qed.

(** X12: a store scans only the partition that its flag selects, slots
    0 .. MAX_PROV_NODES-1 for a self-provisioned node and the rest
    otherwise.  With a free slot there and memory, it returns 0 and the
    first free slot of the partition, puts the node there and counts it;
    with the partition full, or no memory, it returns -ENOMEM and
    changes nothing, whatever room the other partition has. *)
Theorem store_node_partition (e : env) (node : bt_mesh_node_t) (prov : bool) (s : state) :
  config_ok s ->
  (forall i : nat,
     first_free_in (mesh_nodes s) (partition_lo prov) (partition_hi prov s) i ->
     osi_calloc e = true ->
     exists s' : state,
       provisioner_store_node e node prov s = Ok (0, Some i, s')
       /\ mesh_nodes s' = <[i := Some node]> (mesh_nodes s)
       /\ all_node_count s' = u16 (all_node_count s + 1)
       /\ prov_node_count s'
          = (if prov then u16 (prov_node_count s + 1) else prov_node_count s)
       /\ bt_mesh s' = bt_mesh s /\ comp s' = comp s)
  /\ (full_in (mesh_nodes s) (partition_lo prov) (partition_hi prov s)
      \/ osi_calloc e = false ->
      provisioner_store_node e node prov s = Ok (- ENOMEM, None, s)).
Proof.
  intros Hcfg.
  destruct (store_node_cases e node prov s Hcfg)
    as [[Hr Hwhy]|(i & s' & Hr & Hmem & Hfirst & Hrest)].
  - split; [|intros _; exact Hr].
    intros i Hfirst Hmem. exfalso. destruct Hwhy as [Hno|Hfull]; [congruence|].
    destruct Hfirst as (Hi & Hf & _). apply (Hfull i Hi Hf).
  - split.
    + intros i' Hfirst' _.
      rewrite <- (first_free_in_unique _ _ _ _ _ Hfirst Hfirst').
      exists s'. auto.
    + intros [Hfull|Hno]; [|congruence].
      exfalso. destruct Hfirst as (Hi & Hf & _). apply (Hfull i Hi Hf).
Qed.

Lemma memcmp0_sym (a b : bytes) (n : nat) : memcmp0 a b n = memcmp0 b a n.
Proof.
  unfold memcmp0. destruct (bool_decide (take n a = take n b)) eqn:E.
  - apply bool_decide_eq_true in E. symmetry. apply bool_decide_eq_true. auto.
  - apply bool_decide_eq_false in E. symmetry. apply bool_decide_eq_false. auto.
Qed.

Lemma memcmp0_trans (a b c : bytes) (n : nat) :
  memcmp0 a b n = true -> memcmp0 c b n = true -> memcmp0 a c n = true.
Proof.
  unfold memcmp0. intros H1 H2.
  apply bool_decide_eq_true in H1, H2. apply bool_decide_eq_true. congruence.
Qed.

(** X13: [bt_mesh_provisioner_store_node_info] refuses, with -EEXIST and
    no change, a node whose 16 UUID bytes some live node of the table
    already has, in either partition; so it keeps the UUIDs of the table
    pairwise distinct. *)
Theorem store_node_info_uuid_unique (e : env) (node : bt_mesh_node_t) (prov : bool)
    (s : state) (err : Z) (s' : state) :
  config_ok s -> uuid_unique s ->
  bt_mesh_provisioner_store_node_info e (Some node) prov s = Ok (err, s') ->
  uuid_unique s'
  /\ ((exists (i : nat) (n : bt_mesh_node_t),
         mesh_nodes s !! i = Some (Some n)
         /\ memcmp0 (dev_uuid n) (dev_uuid node) 16 = true) ->
      err = - EEXIST /\ s' = s).
Proof.
  intros Hcfg Hu H. unfold bt_mesh_provisioner_store_node_info in H.
  destruct (find_row (fun n => memcmp0 (dev_uuid n) (dev_uuid node) 16) 0 (mesh_nodes s))
    as [[i0 n0]|] eqn:E.
  - inversion H; subst. auto.
  - pose proof (find_row_None_inv _ _ _ E) as Hnew. simpl in Hnew. split.
    2:{ intros (i & n & Hl & Hm). rewrite (Hnew i n Hl) in Hm. discriminate. }
    destruct (store_node_cases e node prov s Hcfg)
      as [[Hr _]|(i & s1 & Hr & _ & (_ & Hfree & _) & Hnodes & _)];
      rewrite Hr in H; inversion H; subst; [exact Hu|].
    unfold uuid_unique. rewrite Hnodes.
    assert (Hlt : (i < length (mesh_nodes s))%nat)
      by (apply lookup_lt_Some in Hfree; exact Hfree).
    intros j j' n n' Hj Hj' Hm.
    destruct (Nat.eq_dec j i) as [->|Hji]; destruct (Nat.eq_dec j' i) as [->|Hji'].
    + reflexivity.
    + rewrite list_lookup_insert_eq in Hj by exact Hlt.
      rewrite list_lookup_insert_ne in Hj' by auto. inversion Hj; subst n.
      rewrite memcmp0_sym, (Hnew j' n' Hj') in Hm. discriminate.
    + rewrite list_lookup_insert_ne in Hj by auto.
      rewrite list_lookup_insert_eq in Hj' by exact Hlt. inversion Hj'; subst n'.
      rewrite (Hnew j n Hj) in Hm. discriminate.
    + rewrite list_lookup_insert_ne in Hj by auto.
      rewrite list_lookup_insert_ne in Hj' by auto. eauto.
Qed.

Lemma reset_node_frame (i : nat) (s : state) (err : Z) (s' : state) :
  provisioner_reset_node i s = Ok (err, s') ->
  p_sub (bt_mesh s') = p_sub (bt_mesh s)
  /\ p_app_keys (bt_mesh s') = p_app_keys (bt_mesh s)
  /\ comp s' = comp s.
Proof.
  unfold provisioner_reset_node. destruct (mesh_nodes s !! i) as [[node|]|]; [| |discriminate].
  - cbn [emit bt_mesh].
    destruct (reset_rpl node (rpl (bt_mesh s))) as [rpl' evs].
    intros H. inversion H; subst. unfold provisioner_node_count_dec. simpl.
    repeat match goal with |- context [if ?b then _ else _] => destruct b end;
      simpl; auto.
  - intros H. inversion H; subst. auto.
Qed.

Lemma config_ok_length (s s' : state) :
  length (mesh_nodes s') = length (mesh_nodes s) -> config_ok s -> config_ok s'.
Proof. unfold config_ok. intros ->. auto. Qed.

Lemma reset_all_loop_spec :
  forall (n i : nat) (s : state),
    (i + n = length (mesh_nodes s))%nat ->
    exists s' : state,
      reset_all_loop i n s = Ok (0, s')
      /\ length (mesh_nodes s') = length (mesh_nodes s)
      /\ (forall k : nat, (k < i)%nat -> mesh_nodes s' !! k = mesh_nodes s !! k)
      /\ (forall k : nat, (i <= k < length (mesh_nodes s))%nat ->
            mesh_nodes s' !! k = Some None)
      /\ p_sub (bt_mesh s') = p_sub (bt_mesh s)
      /\ p_app_keys (bt_mesh s') = p_app_keys (bt_mesh s)
      /\ comp s' = comp s
      /\ (config_ok s -> counts_ok s -> counts_ok s').
Proof.
  induction n as [|n IH]; intros i s Hlen.
  - exists s. simpl. split; [reflexivity|]. split; [reflexivity|].
    split; [reflexivity|]. split; [intros k Hk; lia|]. auto.
  - simpl.
    destruct (reset_node_in_range i s) as (s1 & Hr & Hn1); [lia|].
    rewrite Hr. change (0 =? - ENODEV) with false. cbv iota.
    assert (Hlen1 : length (mesh_nodes s1) = length (mesh_nodes s))
      by (rewrite Hn1; apply length_insert).
    destruct (reset_node_frame i s 0 s1 Hr) as (Hs1 & Ha1 & Hc1).
    destruct (IH (S i) s1) as (s' & Hloop & Hlen' & Hlow & Hhigh & Hs & Ha & Hc & Hcnt);
      [lia|].
    exists s'. split; [exact Hloop|]. split; [congruence|].
    split; [|split; [|split; [|split; [|split]]]]; try congruence.
    + intros k Hk. rewrite Hlow by lia. rewrite Hn1.
      apply list_lookup_insert_ne. lia.
    + intros k Hk. destruct (Nat.eq_dec k i) as [->|Hne].
      * rewrite Hlow by lia. rewrite Hn1. apply list_lookup_insert_eq. lia.
      * apply Hhigh. lia.
    + intros Hcfg Hok.
      destruct (reset_node_counts i s Hcfg Hok) as (s2 & Hr2 & _ & Hok2); [lia|].
      rewrite Hr in Hr2. inversion Hr2; subst s2.
      apply Hcnt; [apply (config_ok_length s); auto|exact Hok2].
Qed.

(** X14: [provisioner_reset_all_nodes] returns 0 with every slot of the
    node table empty and the key tables and models untouched; the early
    return on -ENODEV is never taken.  When the counters agreed with the
    table before, both are 0 afterwards. *)
Theorem reset_all_nodes_empties (s : state) :
  exists s' : state,
    provisioner_reset_all_nodes s = Ok (0, s')
    /\ mesh_nodes s' = replicate (length (mesh_nodes s)) None
    /\ p_sub (bt_mesh s') = p_sub (bt_mesh s)
    /\ p_app_keys (bt_mesh s') = p_app_keys (bt_mesh s)
    /\ comp s' = comp s
    /\ (config_ok s -> counts_ok s ->
        all_node_count s' = 0 /\ prov_node_count s' = 0
        /\ bt_mesh_provisioner_get_node_count s' = 0).
Proof.
  destruct (reset_all_loop_spec (length (mesh_nodes s)) 0 s)
    as (s' & Hloop & Hlen & _ & Hnone & Hs & Ha & Hc & Hcnt); [lia|].
  exists s'. split; [exact Hloop|].
  assert (Hrep : mesh_nodes s' = replicate (length (mesh_nodes s)) None).
  { apply list_eq. intros k.
    destruct (Nat.lt_ge_cases k (length (mesh_nodes s))) as [Hlt|Hge].
    - rewrite Hnone by lia. symmetry. apply lookup_replicate_2. exact Hlt.
    - rewrite (proj2 (lookup_ge_None _ _)) by lia.
      symmetry. apply lookup_replicate_None. exact Hge. }
  split; [exact Hrep|]. split; [exact Hs|]. split; [exact Ha|]. split; [exact Hc|].
  intros Hcfg Hok. destruct (Hcnt Hcfg Hok) as [Hall Hp].
  unfold bt_mesh_provisioner_get_node_count.
  rewrite Hall, Hp, Hrep, !occupied_replicate_None. auto.
Qed.

Lemma index_check_live (i : nat) (node : bt_mesh_node_t) (s : state) :
  mesh_nodes s !! i = Some (Some node) -> provisioner_index_check (Z.of_nat i) s = 0.
Proof.
  intros Hl. unfold provisioner_index_check.
  pose proof (lookup_lt_Some _ _ _ Hl) as Hlt.
  destruct (Z.of_nat i <? 0) eqn:E1; [apply Z.ltb_lt in E1; lia|].
  destruct (Z.of_nat i >=? Z.of_nat (length (mesh_nodes s))) eqn:E2.
  { rewrite Z.geb_leb in E2. apply Z.leb_le in E2. lia. }
  rewrite Nat2Z.id, Hl. reflexivity.
Qed.

Lemma index_check_empty (i : nat) (s : state) :
  mesh_nodes s !! i = Some None -> provisioner_index_check (Z.of_nat i) s = - EINVAL.
Proof.
  intros Hl. unfold provisioner_index_check.
  destruct (Z.of_nat i <? 0); [reflexivity|].
  destruct (Z.of_nat i >=? Z.of_nat (length (mesh_nodes s))); [reflexivity|].
  rewrite Nat2Z.id, Hl. reflexivity.
Qed.

(** X15: when the counters agree with the table, resetting the slot
    that a successful store returned undoes the store: the node table
    and both counters are as before.  [provisioner_index_check] accepts
    the slot after the store and rejects it after the reset. *)
Theorem store_then_reset_restores (e : env) (node : bt_mesh_node_t) (prov : bool)
    (s : state) (i : nat) (s' : state) :
  config_ok s -> counts_ok s ->
  provisioner_store_node e node prov s = Ok (0, Some i, s') ->
  provisioner_index_check (Z.of_nat i) s' = 0
  /\ exists s'' : state,
       provisioner_reset_node i s' = Ok (0, s'')
       /\ mesh_nodes s'' = mesh_nodes s
       /\ all_node_count s'' = all_node_count s
       /\ prov_node_count s'' = prov_node_count s
       /\ provisioner_index_check (Z.of_nat i) s'' = - EINVAL.
Proof.
  intros Hcfg [Hall Hp] H.
  destruct (store_node_cases e node prov s Hcfg)
    as [[Hr _]|(i' & s1 & Hr & _ & (Hi & Hfree & _) & Hnodes & Hall' & Hp' & _)];
    rewrite Hr in H; [discriminate|]. inversion H; subst i' s1; clear H.
  destruct (partition_bounds prov s Hcfg) as [Hpb Hside].
  assert (Hlt : (i < length (mesh_nodes s))%nat) by lia.
  assert (Hrow : mesh_nodes s' !! i = Some (Some node))
    by (rewrite Hnodes; apply list_lookup_insert_eq; exact Hlt).
  split; [apply (index_check_live i node); exact Hrow|].
  destruct (reset_node_occupied i node s' Hrow) as (s'' & Hreset & Hn'' & Ha'' & Hp'').
  exists s''. split; [exact Hreset|].
  assert (Hback : mesh_nodes s'' = mesh_nodes s).
  { rewrite Hn'', Hnodes, list_insert_insert_eq. apply list_insert_id. exact Hfree. }
  split; [exact Hback|].
  destruct Hcfg as [Hprov Hsize].
  pose proof (occupied_bounds (<[i := Some node]> (mesh_nodes s))
                (length (mesh_nodes s))) as Hb1.
  pose proof (occupied_bounds (<[i := Some node]> (mesh_nodes s))
                (Z.to_nat CONFIG_BLE_MESH_MAX_PROV_NODES)) as Hb2.
  pose proof (occupied_bounds (mesh_nodes s) (length (mesh_nodes s))) as Hb3.
  pose proof (occupied_bounds (mesh_nodes s)
                (Z.to_nat CONFIG_BLE_MESH_MAX_PROV_NODES)) as Hb4.
  rewrite length_insert in Hb1, Hb2.
  rewrite (occupied_insert (Some node) None _ _ _ Hfree) in Hb1.
  rewrite (occupied_insert (Some node) None _ _ _ Hfree) in Hb2.
  simpl slot_weight in Hb1, Hb2.
  assert (Hlt' : (i <? length (mesh_nodes s))%nat = true) by (apply Nat.ltb_lt; lia).
  rewrite Hlt' in Hb1.
  assert (Ha1 : all_node_count s' = all_node_count s + 1)
    by (rewrite Hall'; apply u16_small; lia).
  split; [|split].
  - rewrite Ha'', Ha1.
    destruct (all_node_count s + 1 =? 0) eqn:E; [apply Z.eqb_eq in E; lia|lia].
  - rewrite Hp'', Hp'. unfold partition_lo, partition_hi in Hi. destruct prov.
    + assert (Hip : (Z.of_nat i <? CONFIG_BLE_MESH_MAX_PROV_NODES) = true)
        by (apply Z.ltb_lt; lia).
      assert (Hltp : (i <? Z.to_nat CONFIG_BLE_MESH_MAX_PROV_NODES)%nat = true)
        by (apply Nat.ltb_lt; lia).
      rewrite Hltp in Hb2. rewrite Hip.
      rewrite (u16_small (prov_node_count s + 1)) by lia.
      destruct (prov_node_count s + 1 =? 0) eqn:E; [apply Z.eqb_eq in E; lia|lia].
    + assert (Hip : (Z.of_nat i <? CONFIG_BLE_MESH_MAX_PROV_NODES) = false)
        by (apply Z.ltb_ge; lia).
      rewrite Hip. reflexivity.
  - apply index_check_empty. rewrite Hback. exact Hfree.
Qed.

Lemma uuid_matches_self (u : bytes) (node : bt_mesh_node_t) :
  dev_uuid node = take 16 u -> uuid_matches u node = true.
Proof.
  intros Hu. unfold uuid_matches, memcmp0. apply bool_decide_eq_true.
  rewrite Hu, take_take. reflexivity.
Qed.

Lemma addr_matches_self (a : bt_mesh_addr_t) (node : bt_mesh_node_t) :
  node_addr node = a -> addr_matches a node = true.
Proof.
  intros Ha. unfold addr_matches, memcmp0. rewrite Ha, Z.eqb_refl, andb_true_r.
  apply bool_decide_eq_true. reflexivity.
Qed.

Lemma find_reset_loop_hit (matches : bt_mesh_node_t -> bool) (s : state) (j : nat) :
  (Z.to_nat CONFIG_BLE_MESH_MAX_PROV_NODES <= length (mesh_nodes s))%nat ->
  (j < Z.to_nat CONFIG_BLE_MESH_MAX_PROV_NODES)%nat ->
  node_match matches s j ->
  find_reset_loop matches false 0 (Z.to_nat CONFIG_BLE_MESH_MAX_PROV_NODES) s
  = Ok (true, s).
Proof.
  intros Hlen Hj Hm.
  destruct (find_reset_loop_spec matches false
              (Z.to_nat CONFIG_BLE_MESH_MAX_PROV_NODES) 0 s)
    as [[Hno _]|(j' & s' & _ & _ & _ & Hr & ->)]; [lia| |exact Hr].
  exfalso. apply (Hno j); [lia|exact Hm].
Qed.

(** X16: after [provisioner_node_provision] returns 0, both find
    functions find the new node, by the UUID and by the device address
    it was provisioned with. *)
Theorem node_provision_then_find (e : env) (a : bt_mesh_addr_t) (u : bytes)
    (oob unicast element_count net_idx flags iv : Z) (k : bytes)
    (s : state) (idx : option nat) (s' : state) :
  config_ok s ->
  provisioner_node_provision e (Some a) (Some u) oob unicast element_count net_idx
    flags iv (Some k) true s = Ok (0, idx, s') ->
  provisioner_find_reset_node_with_uuid u false s' = Ok (true, s')
  /\ provisioner_find_reset_node_with_addr a false s' = Ok (true, s').
Proof.
  intros Hcfg H. unfold provisioner_node_provision in H.
  match type of H with
  | provisioner_store_node e ?n true s = _ => set (node := n) in *
  end.
  destruct (store_node_cases e node true s Hcfg)
    as [[Hr _]|(i & s1 & Hr & _ & (Hi & Hfree & _) & Hnodes & _)];
    rewrite Hr in H; [discriminate|]. inversion H; subst idx s1; clear H.
  destruct (partition_bounds true s Hcfg) as [Hpb Hhi].
  unfold partition_lo in Hi. rewrite Hhi in Hi, Hpb.
  assert (Hlen : length (mesh_nodes s') = length (mesh_nodes s))
    by (rewrite Hnodes; apply length_insert).
  assert (Hrow : mesh_nodes s' !! i = Some (Some node))
    by (rewrite Hnodes; apply list_lookup_insert_eq; lia).
  split.
  - apply (find_reset_loop_hit _ s' i); [lia|lia|].
    exists node. split; [exact Hrow|]. apply uuid_matches_self. reflexivity.
  - apply (find_reset_loop_hit _ s' i); [lia|lia|].
    exists node. split; [exact Hrow|]. apply addr_matches_self. reflexivity.
Qed.

(** X17: after [provisioner_node_provision] returns 0 for a unicast
    address that was the primary address of no node of the table,
    [provisioner_get_device_key] returns for that address the 16 bytes
    of the device key that was passed; and when the node has at least
    one element, the address is an accepted message destination. *)
Theorem node_provision_then_device_key (e : env) (a : bt_mesh_addr_t) (u : bytes)
    (oob unicast element_count net_idx flags iv : Z) (k : bytes)
    (s : state) (idx : option nat) (s' : state) :
  config_ok s ->
  BLE_MESH_ADDR_IS_UNICAST unicast = true ->
  (forall (i : nat) (n : bt_mesh_node_t),
     mesh_nodes s !! i = Some (Some n) -> unicast_addr n <> unicast) ->
  provisioner_node_provision e (Some a) (Some u) oob unicast element_count net_idx
    flags iv (Some k) true s = Ok (0, idx, s') ->
  provisioner_get_device_key unicast s' = Some (take 16 k)
  /\ (0 < element_count -> provisioner_check_msg_dst_addr unicast s' = true).
Proof.
  intros Hcfg Huni Hnew H. unfold provisioner_node_provision in H.
  match type of H with
  | provisioner_store_node e ?n true s = _ => set (node := n) in *
  end.
  destruct (store_node_cases e node true s Hcfg)
    as [[Hr _]|(i & s1 & Hr & _ & (Hi & Hfree & _) & Hnodes & _)];
    rewrite Hr in H; [discriminate|]. inversion H; subst idx s1; clear H.
  split.
  - unfold provisioner_get_device_key. rewrite Huni. simpl.
    rewrite Hnodes, (find_row_insert_new _ _ i node); auto.
    + intros j n Hl. apply Z.eqb_neq. eauto.
    + apply Z.eqb_refl.
  - intros Hpos. unfold provisioner_check_msg_dst_addr. rewrite Huni. simpl.
    assert (Hrow : mesh_nodes s' !! i = Some (Some node)).
    { rewrite Hnodes. apply list_lookup_insert_eq.
      apply lookup_lt_Some in Hfree. exact Hfree. }
    destruct (find_row_found (node_has_addr unicast) _ 0 i node Hrow) as (i' & n' & ->);
      [|reflexivity].
    unfold node_has_addr. simpl. apply andb_true_iff. split.
    + rewrite Z.geb_leb. apply Z.leb_le. lia.
    + apply Z.ltb_lt. lia.
Qed.

(** X18: [provisioner_check_msg_dst_addr] accepts an address exactly
    when it is not unicast or [bt_mesh_provisioner_get_node_info] finds
    a node for it; and the node that function returns is a live node of
    the table whose element addresses include the address. *)
Theorem check_msg_dst_addr_get_node_info (a : Z) (s : state) :
  (provisioner_check_msg_dst_addr a s = true
   <-> BLE_MESH_ADDR_IS_UNICAST a = false
       \/ exists node : bt_mesh_node_t,
            bt_mesh_provisioner_get_node_info a s = Some node)
  /\ (forall node : bt_mesh_node_t,
        bt_mesh_provisioner_get_node_info a s = Some node ->
        BLE_MESH_ADDR_IS_UNICAST a = true
        /\ (exists i : nat, mesh_nodes s !! i = Some (Some node))
        /\ unicast_addr node <= a < unicast_addr node + element_num node).
Proof.
  unfold provisioner_check_msg_dst_addr, bt_mesh_provisioner_get_node_info.
  destruct (BLE_MESH_ADDR_IS_UNICAST a); simpl.
  - destruct (find_row (node_has_addr a) 0 (mesh_nodes s)) as [[i node]|] eqn:E.
    + split.
      * split; [intros _; right; exists node; reflexivity|reflexivity].
      * intros node' Hn. inversion Hn; subst node'.
        apply find_row_0 in E as (Hl & Hf & _).
        unfold node_has_addr in Hf. apply andb_true_iff in Hf as [H1 H2].
        rewrite Z.geb_leb in H1. apply Z.leb_le in H1. apply Z.ltb_lt in H2.
        split; [reflexivity|]. split; [exists i; exact Hl|lia].
    + split; [|discriminate].
      split; [discriminate|]. intros [Hf|(node & Hn)]; discriminate.
  - split; [|discriminate]. split; [intros _; left; reflexivity|reflexivity].
Qed.

(** X19: when the UUIDs of the table are pairwise distinct, a find by
    UUID that resets the node it found leaves no node for a second find
    by the same UUID, which returns false and changes nothing. *)
Theorem find_reset_uuid_once (uuid : bytes) (reset' : bool) (s s' : state) :
  config_ok s -> uuid_unique s ->
  provisioner_find_reset_node_with_uuid uuid true s = Ok (true, s') ->
  provisioner_find_reset_node_with_uuid uuid reset' s' = Ok (false, s').
Proof.
  intros [Hprov Hsize] Hu H. unfold provisioner_find_reset_node_with_uuid in *.
  destruct (find_reset_loop_spec (uuid_matches uuid) true
              (Z.to_nat CONFIG_BLE_MESH_MAX_PROV_NODES) 0 s)
    as [[_ Hr]|(j & s1 & Hj & (node & Hl & Hm) & _ & Hr & _ & Hnodes)]; [lia| |];
    rewrite Hr in H; [discriminate|]. inversion H; subst s1; clear H.
  destruct (find_reset_loop_spec (uuid_matches uuid) reset'
              (Z.to_nat CONFIG_BLE_MESH_MAX_PROV_NODES) 0 s')
    as [[_ Hr']|(j' & s2 & Hj' & (node' & Hl' & Hm') & _)].
  - rewrite Hnodes, length_insert. lia.
  - exact Hr'.
  - exfalso. rewrite Hnodes in Hl'. apply delete_row_lookup in Hl' as [Hl' Hne].
    apply Hne. apply (Hu j' j node' node Hl' Hl).
    unfold uuid_matches in Hm, Hm'. apply (memcmp0_trans _ uuid); assumption.
Qed.

(** ** The replay protection list *)

Lemma reset_rpl_fst (node : bt_mesh_node_t) :
  forall l : list bt_mesh_rpl,
    (reset_rpl node l).1 = (fun r => if rpl_of_node node r then rpl_zero else r) <$> l.
Proof.
  induction l as [|r tl IH]; [reflexivity|].
  simpl. destruct (reset_rpl node tl) as [tl' evs]. simpl in IH.
  unfold rpl_of_node at 1.
  destruct ((rpl_src r >=? unicast_addr node)
            && (rpl_src r <? unicast_addr node + element_num node));
    simpl; rewrite IH; reflexivity.
Qed.

(** X20: resetting an occupied slot zeroes every entry of the replay
    protection list whose source is an element address of the node, and
    leaves the other entries and the key tables as they are.  For a node
    with an assigned primary address, no entry of the list then has a
    source among its element addresses. *)
Theorem reset_node_clears_rpl (i : nat) (node : bt_mesh_node_t) (s : state) :
  mesh_nodes s !! i = Some (Some node) ->
  exists s' : state,
    provisioner_reset_node i s = Ok (0, s')
    /\ rpl (bt_mesh s')
       = (fun r => if rpl_of_node node r then rpl_zero else r) <$> rpl (bt_mesh s)
    /\ p_sub (bt_mesh s') = p_sub (bt_mesh s)
    /\ p_app_keys (bt_mesh s') = p_app_keys (bt_mesh s)
    /\ (0 < unicast_addr node ->
        forall r : bt_mesh_rpl, r ∈ rpl (bt_mesh s') -> rpl_of_node node r = false).
Proof.
  intros Hl.
  assert (Hrpl : exists s' : state,
             provisioner_reset_node i s = Ok (0, s')
             /\ rpl (bt_mesh s') = (reset_rpl node (rpl (bt_mesh s))).1).
  { unfold provisioner_reset_node. rewrite Hl. cbn [emit bt_mesh].
    destruct (reset_rpl node (rpl (bt_mesh s))) as [rpl' evs].
    eexists. split; [reflexivity|].
    unfold provisioner_node_count_dec. simpl.
    repeat match goal with |- context [if ?b then _ else _] => destruct b end;
      reflexivity. }
  destruct Hrpl as (s' & Hr & Hrpl). rewrite reset_rpl_fst in Hrpl.
  destruct (reset_node_frame i s 0 s' Hr) as (Hs & Ha & _).
  exists s'. split; [exact Hr|]. split; [exact Hrpl|]. split; [exact Hs|].
  split; [exact Ha|].
  intros Hpos r Hin. rewrite Hrpl in Hin.
  apply list_elem_of_fmap in Hin as (r0 & -> & _).
  destruct (rpl_of_node node r0) eqn:E; [|exact E].
  unfold rpl_of_node, rpl_zero. simpl.
  destruct (0 >=? unicast_addr node) eqn:G; [|reflexivity].
  rewrite Z.geb_leb in G. apply Z.leb_le in G. lia.
Qed.

(** ** Binding models *)



Lemma bind_slot_None (app_idx : Z) :
  forall keys : list Z,
    bind_slot app_idx keys = None -> BLE_MESH_KEY_UNUSED ∉ keys.
Proof.
  induction keys as [|k tl IH]; intros H Hin.
  - inversion Hin.
  - simpl in H. destruct (k =? BLE_MESH_KEY_UNUSED) eqn:E; [discriminate|].
    apply Z.eqb_neq in E. destruct (bind_slot app_idx tl); [discriminate|].
    apply elem_of_cons in Hin as [Heq|Hin]; [congruence|]. apply IH; auto.
Qed.



(** ** Frame of an add *)

(** X22: a NetKey add and an AppKey add, whatever they return, keep
    every live row of their table where it is, and touch neither the
    other key table, nor the node table and its counters, nor the
    models. *)
Theorem key_add_keeps_rows (e : env) (key : option bytes) (net_idx : Z)
    (idx : option Z) (s : state) :
  (forall (st : status) (out : option Z) (s' : state),
     bt_mesh_provisioner_local_net_key_add e key idx s = Some (st, out, s') ->
     (forall (i : nat) (sub : bt_mesh_subnet),
        p_sub (bt_mesh s) !! i = Some (Some sub) ->
        p_sub (bt_mesh s') !! i = Some (Some sub))
     /\ p_app_keys (bt_mesh s') = p_app_keys (bt_mesh s)
     /\ mesh_nodes s' = mesh_nodes s /\ comp s' = comp s
     /\ all_node_count s' = all_node_count s
     /\ prov_node_count s' = prov_node_count s)
  /\ (forall (st : status) (out : option Z) (s' : state),
        bt_mesh_provisioner_local_app_key_add e key net_idx idx s = Some (st, out, s') ->
        (forall (i : nat) (k : bt_mesh_app_key),
           p_app_keys (bt_mesh s) !! i = Some (Some k) ->
           p_app_keys (bt_mesh s') !! i = Some (Some k))
        /\ p_sub (bt_mesh s') = p_sub (bt_mesh s)
        /\ mesh_nodes s' = mesh_nodes s /\ comp s' = comp s
        /\ all_node_count s' = all_node_count s
        /\ prov_node_count s' = prov_node_count s).
Proof.
  split; intros st out s' H.
  - split.
    + destruct (net_key_add_inv _ _ _ _ _ _ _ H)
        as [[Hsame _]|(add & j & p_key & n & _ & _ & _ & [Hfree _] & _ & _ & _ & _ & Hsub)].
      * rewrite Hsame. auto.
      * intros i sub Hl. rewrite Hsub. rewrite list_lookup_insert_ne; [exact Hl|].
        intros ->. congruence.
    + unfold bt_mesh_provisioner_local_net_key_add in H.
      break_add H; inversion H; subst; repeat split; reflexivity.
  - split.
    + destruct (app_key_add_inv _ _ _ _ _ _ _ _ H)
        as [[Hsame _]|(add & j & p_key & a & _ & _ & _ & _ & [Hfree _] & _ & _ & _ & _
                       & _ & Hkeys)].
      * rewrite Hsame. auto.
      * intros i k Hl. rewrite Hkeys. rewrite list_lookup_insert_ne; [exact Hl|].
        intros ->. congruence.
    + unfold bt_mesh_provisioner_local_app_key_add in H.
      break_add H; inversion H; subst; repeat split; reflexivity.
Qed.

(** ** Fast provisioning *)

Lemma net_key_add_ok_live (e : env) (net_key : option bytes) (net_idx : option Z)
    (s : state) (out : option Z) (s' : state) :
  bt_mesh_provisioner_local_net_key_add e net_key net_idx s = Some (OK, out, s') ->
  exists j : Z, out = Some j /\ net_idx_live s' j.
Proof.
  intros H.
  destruct (net_key_add_inv _ _ _ _ _ _ _ H)
    as [[_ Hdup]|(add & j & p_key & n & _ & Hout & _ & [Hfree _] & _ & _ & _ & _ & Hsub)].
  - destruct (Hdup eq_refl) as (-> & k & i & sub & _ & Hl & _ & Hout).
    exists (sub_net_idx sub). split; [exact Hout|]. exists i, sub. auto.
  - exists j. split; [exact Hout|].
    apply (net_idx_live_insert s s' add (new_subnet j p_key n)); auto.
Qed.

Lemma net_key_get_live (s : state) (n : Z) :
  net_idx_live s n ->
  exists k : bytes, bt_mesh_provisioner_local_net_key_get n s = Some k.
Proof.
  intros (i & sub & Hl & Hidx). rewrite net_key_get_same. unfold provisioner_net_key_get.
  destruct (find_row_found (fun sub => sub_net_idx sub =? n) _ 0 i sub Hl) as (i' & sub' & ->).
  - apply Z.eqb_eq. exact Hidx.
  - eauto.
Qed.

(** X23: in [bt_mesh_add_fast_prov_net_key] the get that follows a
    successful add always finds a key, so the second return of 0x01 is
    never taken: when the add returns 0 the result is the status of
    storing, for fast provisioning, the index that the add reported and
    the key that the get returns for it. *)
Theorem add_fast_prov_net_key_get_succeeds (e : env) (net_key : option bytes)
    (s : state) (out : option Z) (s1 : state) :
  bt_mesh_provisioner_local_net_key_add e net_key
    (Some provisioner_get_fast_prov_net_idx)
    (set_bt_mesh (set_p_net_idx_next provisioner_get_fast_prov_net_idx (bt_mesh s)) s)
  = Some (OK, out, s1) ->
  exists (j : Z) (keys : bytes),
    out = Some j
    /\ net_idx_live s1 j
    /\ bt_mesh_provisioner_local_net_key_get j s1 = Some keys
    /\ bt_mesh_add_fast_prov_net_key e net_key s
       = Some (provisioner_set_fast_prov_net_idx (Some keys) j, s1).
Proof.
  intros H. destruct (net_key_add_ok_live _ _ _ _ _ _ H) as (j & -> & Hlive).
  destruct (net_key_get_live s1 j Hlive) as (keys & Hget).
  exists j, keys. split; [reflexivity|]. split; [exact Hlive|]. split; [exact Hget|].
  unfold bt_mesh_add_fast_prov_net_key. rewrite H. simpl. rewrite Hget. reflexivity.
Qed.

(** X24: [bt_mesh_add_fast_prov_net_key] writes the fast provisioning
    index into the NetKey index cursor before it adds.  When that index
    is 0x1000 or more (the unused marker 0xFFFF included) the call
    returns 0x01 with the table unchanged and the cursor left at that
    value, and from then on every NetKey add fails with -EIO. *)
Theorem add_fast_prov_net_key_spends_cursor (e : env) (net_key : option bytes)
    (s : state) :
  0x1000 <= provisioner_get_fast_prov_net_idx ->
  exists s' : state,
    bt_mesh_add_fast_prov_net_key e net_key s = Some (0x01, s')
    /\ p_sub (bt_mesh s') = p_sub (bt_mesh s)
    /\ p_net_idx_next (bt_mesh s') = provisioner_get_fast_prov_net_idx
    /\ forall (e' : env) (k : option bytes) (idx : option Z),
         bt_mesh_provisioner_local_net_key_add e' k idx s'
         = Some (ERR NoIndexAvailable, idx, s').
Proof.
  intros Hbig. unfold bt_mesh_add_fast_prov_net_key.
  rewrite net_key_add_cursor_spent by exact Hbig. simpl.
  eexists. split; [reflexivity|]. split; [reflexivity|]. split; [reflexivity|].
  intros e' k idx. apply net_key_add_cursor_spent. exact Hbig.
Qed.

(** ** Unbinding and publication *)

Lemma model_pub_clear_cleared (model : bt_mesh_model) :
  pub_cleared (model_pub_clear model).1
  /\ mod_id (model_pub_clear model).1 = mod_id model.
Proof.
  unfold model_pub_clear, pub_cleared.
  destruct (mod_pub model) as [pub|] eqn:E.
  - destruct (pub_addr pub =? BLE_MESH_ADDR_UNASSIGNED) eqn:A; simpl.
    + rewrite E. apply Z.eqb_eq in A. auto.
    + auto.
  - simpl. rewrite E. auto.
Qed.

Lemma model_unbind_slots_miss (app_idx : Z) :
  forall (slots : list Z) (model : bt_mesh_model),
    app_idx ∉ slots ->
    model_unbind_slots app_idx slots model = (slots, model, []).
Proof.
  induction slots as [|k tl IH]; intros model Hnot; simpl; [reflexivity|].
  destruct (k =? app_idx) eqn:E.
  - apply Z.eqb_eq in E. subst k. exfalso. apply Hnot. apply elem_of_cons. auto.
  - rewrite IH; [reflexivity|]. intros Hin. apply Hnot. apply elem_of_cons. auto.
Qed.

Lemma model_unbind_slots_pub (app_idx : Z) :
  forall (slots : list Z) (model : bt_mesh_model),
    (pub_cleared model \/ app_idx ∈ slots ->
     pub_cleared (model_unbind_slots app_idx slots model).1.2)
    /\ mod_id (model_unbind_slots app_idx slots model).1.2 = mod_id model.
Proof.
  induction slots as [|k tl IH]; intros model; simpl.
  - split; [|reflexivity]. intros [H|H]; [exact H|inversion H].
  - destruct (k =? app_idx) eqn:E.
    + destruct (model_pub_clear_cleared model) as [Hc Hid].
      destruct (model_pub_clear model) as [model1 evs1]. simpl in Hc, Hid.
      destruct (IH model1) as [IHc IHid].
      destruct (model_unbind_slots app_idx tl model1) as [[tl' model2] evs2].
      simpl in *. split; [intros _; auto|congruence].
    + apply Z.eqb_neq in E. destruct (IH model) as [IHc IHid].
      destruct (model_unbind_slots app_idx tl model) as [[tl' model2] evs2].
      simpl in *. split; [|exact IHid].
      intros [H|H]; [auto|]. apply elem_of_cons in H as [H|H]; [congruence|auto].
Qed.

(** X25: [model_unbind] leaves a model that is not bound to the index
    as it is and makes no call.  For a model bound to the index it
    resets every slot that holds it, and the publication of the model is
    cleared whichever key the model published with. *)
Theorem model_unbind_clears_pub (model : bt_mesh_model) (app_idx : Z) :
  (app_idx ∉ mod_keys model -> model_unbind model app_idx = (model, []))
  /\ (app_idx ∈ mod_keys model ->
      pub_cleared (model_unbind model app_idx).1
      /\ mod_id (model_unbind model app_idx).1 = mod_id model
      /\ mod_keys (model_unbind model app_idx).1
         = unbind_slot app_idx <$> mod_keys model).
Proof.
  split.
  - intros Hnot. unfold model_unbind.
    rewrite (model_unbind_slots_miss app_idx _ model Hnot).
    destruct model; reflexivity.
  - intros Hin. split; [|split; [|apply model_unbind_keys]].
    + unfold model_unbind.
      destruct (model_unbind_slots_pub app_idx (mod_keys model) model) as [Hc _].
      destruct (model_unbind_slots app_idx (mod_keys model) model) as [[keys model'] evs].
      simpl in *. unfold pub_cleared in *. simpl. apply Hc. right. exact Hin.
    + unfold model_unbind.
      destruct (model_unbind_slots_pub app_idx (mod_keys model) model) as [_ Hid].
      destruct (model_unbind_slots app_idx (mod_keys model) model) as [[keys model'] evs].
      simpl in *. exact Hid.
Qed.

(** ** Unique indices, continued *)

Lemma delete_row_unique {A : Type} (f : A -> Z) (tbl : list (option A)) (i0 : nat) :
  (forall (i j : nat) (r r' : A),
     tbl !! i = Some (Some r) -> tbl !! j = Some (Some r') -> f r = f r' -> i = j) ->
  forall (i j : nat) (r r' : A),
    <[i0 := None]> tbl !! i = Some (Some r) ->
    <[i0 := None]> tbl !! j = Some (Some r') -> f r = f r' -> i = j.
Proof.
  intros Hu i j r r' Hi Hj Heq.
  apply delete_row_lookup in Hi as [Hi _]. apply delete_row_lookup in Hj as [Hj _]. eauto.
Qed.

(** X26: the operations that remove or rebind AppKeys keep the AppKey
    indices of the table pairwise distinct: the AppKey delete, the
    binding of an AppKey to another subnet, and the NetKey delete with
    its cascade. *)
Theorem key_delete_bind_keep_idx_unique (net_idx app_idx : Z) (s : state) :
  app_idx_unique s ->
  app_idx_unique (bt_mesh_provisioner_local_app_key_delete net_idx app_idx s).2
  /\ app_idx_unique (bt_mesh_provisioner_bind_local_app_net_idx net_idx app_idx s).2
  /\ (forall (st : status) (s' : state),
        bt_mesh_provisioner_local_net_key_delete net_idx s = Ok (st, s') ->
        app_idx_unique s').
Proof.
  intros Hu. split; [|split].
  - unfold bt_mesh_provisioner_local_app_key_delete.
    destruct (negb (provisioner_check_net_idx net_idx false s =? 0)); [exact Hu|].
    destruct (negb (provisioner_check_app_idx app_idx false s =? 0)); [exact Hu|].
    destruct (find_row (app_key_is net_idx app_idx) 0 (p_app_keys (bt_mesh s)))
      as [[i key]|]; [|exact Hu].
    destruct (bt_mesh_model_foreach (_model_unbind app_idx) (comp s)) as [elems evs].
    unfold app_idx_unique. simpl. apply (delete_row_unique key_app_idx). exact Hu.
  - unfold bt_mesh_provisioner_bind_local_app_net_idx.
    destruct (negb (provisioner_check_net_idx net_idx false s =? 0)); [exact Hu|].
    destruct (negb (provisioner_check_app_idx app_idx false s =? 0)); [exact Hu|].
    destruct (find_row (fun key => key_app_idx key =? app_idx) 0 (p_app_keys (bt_mesh s)))
      as [[i key]|] eqn:E; [|exact Hu].
    apply find_row_0 in E as (Hl & _ & _).
    unfold app_idx_unique. simpl. intros a b r r' Ha Hb Heq.
    apply list_lookup_insert_Some in Ha as [(<- & Hr & _)|(Hna & Ha)];
      apply list_lookup_insert_Some in Hb as [(<- & Hr' & _)|(Hnb & Hb)].
    + reflexivity.
    + inversion Hr; subst r. simpl in Heq. exfalso. apply Hnb.
      apply (Hu i b key r' Hl Hb Heq).
    + inversion Hr'; subst r'. simpl in Heq. exfalso. apply Hna.
      apply (Hu i a key r Hl Ha). auto.
    + eauto.
  - intros st s' H. unfold bt_mesh_provisioner_local_net_key_delete in H.
    destruct (negb (provisioner_check_net_idx net_idx false s =? 0));
      [inversion H; subst; exact Hu|].
    destruct (find_row (fun sub => sub_net_idx sub =? net_idx) 0 (p_sub (bt_mesh s)))
      as [[i sub]|] eqn:E; [|inversion H; subst; exact Hu].
    apply find_row_0 in E as (Hl & _ & _).
    destruct (app_keys_cascade (sub_net_idx sub) 0 (length (p_app_keys (bt_mesh s))) s)
      as [s1|] eqn:C; [|discriminate].
    inversion H; subst st s'; clear H.
    destruct (app_keys_cascade_spec (sub_net_idx sub)
                (length (p_app_keys (bt_mesh s))) 0%nat s s1)
      as (_ & _ & _ & _ & _ & Hkept); auto.
    { exists i, sub. auto. }
    { intros k key Hlt. lia. }
    unfold app_idx_unique. simpl. intros a b r r' Ha Hb Heq.
    apply (Hu a b r r'); auto.
Qed.

End Provisioner.

(** * Worked examples *)

(** ** Network key deletion *)

(** Witness of C1: deleting subnet 1 of [base_state]. *)
Lemma net_key_delete_cascade_witness :
  exists s' : state,
    bt_mesh_provisioner_local_net_key_delete true 1 base_state = Ok (OK, s')
    /\ no_app_key_of s' 1
    /\ app_keys_unbound base_state s' 1
    /\ p_app_keys (bt_mesh s') = [None; Some app6]
    /\ p_sub (bt_mesh s') = [Some sub0; None; None].
Proof.
  eexists. split; [vm_compute; reflexivity|].
  match goal with
  | |- no_app_key_of ?s' _ /\ _ =>
      destruct (net_key_delete_cascade true 1 base_state s') as (H1 & H2 & _)
  end.
  - vm_compute. reflexivity.
  - split; [exact H1|]. split; [exact H2|]. split; reflexivity.
Defined.

(** After that deletion the SIG model has lost its binding and its
    publication, the vendor model keeps AppKey 6 only. *)
Example net_key_delete_models :
  match bt_mesh_provisioner_local_net_key_delete true 1 base_state with
  | Ok (_, s') =>
      map (fun el => (map mod_keys (models el), map mod_keys (vnd_models el),
                      map (fun m => option_map pub_addr (mod_pub m)) (models el)))
          (comp s')
  | Fault => []
  end = [([[65535; 65535]], [[6; 65535]], [Some 0])].
Proof. vm_compute. reflexivity. Qed.

(** With an empty AppKey row the deletion reads [key->net_idx] through a
    [NULL] pointer. *)
Example net_key_delete_sparse_table :
  bt_mesh_provisioner_local_net_key_delete true 1 sparse_state = Fault.
Proof. vm_compute. reflexivity. Qed.

(** ** Application key add *)

(** Counterexample to C2 as stated: index 7 names no subnet, the key bytes
    are those of the stored AppKey 5, and the add returns 0 with that
    index. *)
Lemma app_key_add_unknown_net_idx_counterexample :
  ~ net_idx_live base_state 7
  /\ bt_mesh_provisioner_local_app_key_add true env_ok (Some key_b) 7 (Some 65535) base_state
     = Some (OK, Some 5, base_state)
  /\ ret OK = 0.
Proof.
  split; [apply net_idx_dead_by_check; vm_compute; reflexivity|].
  split; [vm_compute; reflexivity | reflexivity].
Qed.

(** Witness of C2 as amended: the same call with new key bytes. *)
Lemma app_key_add_unknown_net_idx_witness :
  bt_mesh_provisioner_local_app_key_add true env_ok (Some key_n) 7 (Some 65535) base_state
    = Some (ERR NetIdxMissing, Some 65535, base_state)
  /\ ret (ERR NetIdxMissing) = - ENODEV.
Proof.
  apply (app_key_add_unknown_net_idx true env_ok (Some key_n) 7 65535 base_state).
  - vm_compute. reflexivity.
  - left. reflexivity.
  - apply app_key_fresh_by_check. vm_compute. reflexivity.
  - apply net_idx_dead_by_check. vm_compute. reflexivity.
Defined.

(** ** Adding a stored key *)

(** How the cursor gets to 0x1000: in [late_state], where index 0xFFF is
    taken, an auto-index add steps the cursor to 0x1000, gives up and
    leaves [spent_state]. *)
Example spent_state_reached :
  bt_mesh_provisioner_local_net_key_add true env_ok (Some key_n) (Some 65535) late_state
    = Some (ERR NoIndexAvailable, Some 65535, spent_state).
Proof. vm_compute. reflexivity. Qed.

(** Counterexample to C3 as stated: in [spent_state] the key of the second
    subnet is added again, under index 2; the add fails with [-EIO]. *)
Lemma net_key_add_stored_key_counterexample :
  net_key_stored spent_state key_a
  /\ bt_mesh_provisioner_local_net_key_add true env_ok (Some key_a) (Some 2) spent_state
     = Some (ERR NoIndexAvailable, Some 2, spent_state)
  /\ ret (ERR NoIndexAvailable) = - EIO.
Proof.
  split.
  - exists 1%nat, sub4095. split; vm_compute; reflexivity.
  - split; [vm_compute; reflexivity | reflexivity].
Qed.

(** The other test ahead of the duplicate check: an index outside the
    range, with a stored key. *)
Example net_key_add_stored_key_bad_idx :
  bt_mesh_provisioner_local_net_key_add true env_ok (Some key_a) (Some 8192) base_state
    = Some (ERR InvalidParameter, Some 8192, base_state).
Proof. vm_compute. reflexivity. Qed.

(** Witness of C3 as amended: the key of subnet 1 added again under index
    2 reports index 1. *)
Lemma net_key_add_stored_key_witness :
  exists (i : nat) (sub : bt_mesh_subnet),
    p_sub (bt_mesh base_state) !! i = Some (Some sub)
    /\ net_key_matches key_a sub = true
    /\ (forall (j : nat) (sub' : bt_mesh_subnet),
          (j < i)%nat -> p_sub (bt_mesh base_state) !! j = Some (Some sub') ->
          net_key_matches key_a sub' = false)
    /\ bt_mesh_provisioner_local_net_key_add true env_ok (Some key_a) (Some 2) base_state
       = Some (OK, Some (sub_net_idx sub), base_state).
Proof.
  apply (net_key_add_stored_key true env_ok key_a 2 base_state).
  - vm_compute. reflexivity.
  - right. vm_compute. reflexivity.
  - exists 1%nat, sub1. split; vm_compute; reflexivity.
Defined.

Example net_key_add_stored_key_index :
  bt_mesh_provisioner_local_net_key_add true env_ok (Some key_a) (Some 2) base_state
    = Some (OK, Some 1, base_state).
Proof. vm_compute. reflexivity. Qed.

(** ** Explicit index *)

(** Counterexample to C4 as stated: in [spent_state] index 0xFFF is in use
    and the key is new, yet the add fails with [-EIO], which is neither
    [-EEXIST] nor [-ENOMEM]. *)
Lemma net_key_add_explicit_idx_counterexample :
  net_idx_live spent_state 4095
  /\ net_key_fresh spent_state (Some key_n)
  /\ bt_mesh_provisioner_local_net_key_add true env_ok (Some key_n) (Some 4095) spent_state
     = Some (ERR NoIndexAvailable, Some 4095, spent_state)
  /\ ret (ERR NoIndexAvailable) = - EIO
  /\ ret (ERR NoIndexAvailable) <> - EEXIST
  /\ ret (ERR NoIndexAvailable) <> - ENOMEM.
Proof.
  split; [apply net_idx_live_by_check; vm_compute; reflexivity|].
  split; [apply net_key_fresh_by_check; vm_compute; reflexivity|].
  split; [vm_compute; reflexivity|].
  split; [reflexivity|]. split; vm_compute; discriminate.
Qed.

(** Witness of C4 as amended, in [base_state]: index 1 is in use. *)
Lemma net_key_add_explicit_idx_witness :
  bt_mesh_provisioner_local_net_key_add true env_ok (Some key_n) (Some 1) base_state
    = Some (ERR IndexExists, Some 1, base_state)
  /\ ret (ERR IndexExists) = - EEXIST.
Proof.
  apply (net_key_add_explicit_idx true env_ok (Some key_n) 1 base_state).
  - vm_compute. reflexivity.
  - vm_compute. reflexivity.
  - apply net_key_fresh_by_check. vm_compute. reflexivity.
  - apply net_idx_live_by_check. vm_compute. reflexivity.
Defined.

(** A free index goes into the free row, and the cursor stays. *)
Example net_key_add_explicit_idx_free :
  match bt_mesh_provisioner_local_net_key_add true env_ok (Some key_n) (Some 9) base_state with
  | Some (st, out, s') =>
      (st, out, map (option_map sub_net_idx) (p_sub (bt_mesh s')),
       p_net_idx_next (bt_mesh s'), log s')
  | None => (OK, None, [], 0, [])
  end
  = (OK, Some 9, [Some 0; Some 1; Some 9], 0,
     [bt_mesh_store_p_net_idx; bt_mesh_store_p_subnet (new_subnet 9 key_n 125)]).
Proof. vm_compute. reflexivity. Qed.

(** ** Automatic index *)

(** Witness of C5 on the NetKey table: the cursor of [base_state] is 0,
    indices 0 and 1 are in use, and the add takes index 2. *)
Lemma key_add_auto_index_witness :
  exists (st : status) (out : Z) (s' : state),
    bt_mesh_provisioner_local_net_key_add true env_ok (Some key_n) (Some 65535) base_state
      = Some (st, Some out, s')
    /\ p_net_idx_next (bt_mesh base_state) <= p_net_idx_next (bt_mesh s')
    /\ p_app_keys (bt_mesh s') = p_app_keys (bt_mesh base_state)
    /\ ((least_unused (net_idx_live base_state) (p_net_idx_next (bt_mesh base_state)) out
         /\ st = OK /\ out < 4096
         /\ p_net_idx_next (bt_mesh s') = out
         /\ p_sub (bt_mesh s')
            = <[2%nat := Some (new_subnet out key_n 125)]> (p_sub (bt_mesh base_state)))
        \/ (exhausted (net_idx_live base_state) (p_net_idx_next (bt_mesh base_state))
            /\ st = ERR NoIndexAvailable /\ ret st = - EIO
            /\ p_net_idx_next (bt_mesh s') = 4096
            /\ p_sub (bt_mesh s') = p_sub (bt_mesh base_state))).
Proof.
  apply (proj1 (key_add_auto_index true env_ok base_state (Some key_n) None 0
                  2 0 key_n [] 125 0)).
  unfold net_add_reaches_alloc.
  split; [vm_compute; split; [discriminate | reflexivity]|].
  split; [apply net_key_fresh_by_check; vm_compute; reflexivity|].
  split; [apply net_idx_dead_by_check; vm_compute; reflexivity|].
  split; [apply first_free_by_find; vm_compute; reflexivity|].
  split; [vm_compute; reflexivity|]. split; vm_compute; reflexivity.
Defined.

Example net_key_add_auto_takes_2 :
  match bt_mesh_provisioner_local_net_key_add true env_ok (Some key_n) (Some 65535) base_state with
  | Some (st, out, s') =>
      (st, out, map (option_map sub_net_idx) (p_sub (bt_mesh s')),
       p_net_idx_next (bt_mesh s'))
  | None => (OK, None, [], 0)
  end = (OK, Some 2, [Some 0; Some 1; Some 2], 2).
Proof. vm_compute. reflexivity. Qed.

(** The AppKey cursor of [base_state] is 5 and index 5 is in use, but the
    table has no free row: the add stops before the allocation loop. *)
Example app_key_add_auto_full_table :
  bt_mesh_provisioner_local_app_key_add true env_ok (Some key_n) 0 (Some 65535) base_state
    = Some (ERR QueueFull, Some 65535, base_state).
Proof. vm_compute. reflexivity. Qed.

(** With the second row free, the AppKey add skips index 5 and takes 6. *)
Example app_key_add_auto_takes_6 :
  match bt_mesh_provisioner_local_app_key_add true env_ok None 0 (Some 65535) sparse_state with
  | Some (st, out, s') =>
      (st, out, map (option_map key_app_idx) (p_app_keys (bt_mesh s')),
       p_app_idx_next (bt_mesh s'))
  | None => (OK, None, [], 0)
  end = (OK, Some 6, [Some 5; Some 6], 6).
Proof. vm_compute. reflexivity. Qed.

(** A cursor at 0xFFF whose index is taken: the loop steps to 0x1000 and
    gives up; no row is added and the cursor stays at 0x1000. *)
Example net_key_add_auto_exhausted :
  match bt_mesh_provisioner_local_net_key_add true env_ok (Some key_n) (Some 65535)
          late_state with
  | Some (st, out, s') =>
      (st, out, p_sub (bt_mesh s'), p_net_idx_next (bt_mesh s'))
  | None => (OK, None, [], 0)
  end = (ERR NoIndexAvailable, Some 65535, [Some sub0; Some sub4095; None], 4096).
Proof. vm_compute. reflexivity. Qed.

(** Once there, an add with an explicit free index and a new key is
    refused as well. *)
Example net_key_add_after_exhaustion :
  bt_mesh_provisioner_local_net_key_add true env_ok (Some key_n) (Some 9) spent_state
    = Some (ERR NoIndexAvailable, Some 9, spent_state).
Proof. vm_compute. reflexivity. Qed.

(** ** Failed adds *)

(** Witness of C6: the derivation fails after the allocation. *)
Lemma key_add_failure_rollback_witness :
  bt_mesh_provisioner_local_net_key_add true env_no_derive (Some key_n) (Some 9) base_state
    = Some (ERR DeriveFailed, Some 9, base_state)
  /\ p_sub (bt_mesh base_state) = p_sub (bt_mesh base_state)
  /\ p_app_keys (bt_mesh base_state) = p_app_keys (bt_mesh base_state)
  /\ (DeriveFailed = DeriveFailed \/ DeriveFailed = RandFailed
      \/ DeriveFailed = QueueFull \/ DeriveFailed = AllocFailed ->
      base_state = base_state).
Proof.
  assert (H : bt_mesh_provisioner_local_net_key_add true env_no_derive (Some key_n)
                (Some 9) base_state
              = Some (ERR DeriveFailed, Some 9, base_state))
    by (vm_compute; reflexivity).
  split; [exact H|].
  exact (key_add_failure_rollback true env_no_derive (Some key_n) 0 (Some 9)
           base_state DeriveFailed (Some 9) base_state (or_introl H)).
Defined.

(** ** Node registry *)

(** Witness of C7: slot 0 of [base_state], with two slots for
    self-provisioned nodes. *)
Lemma reset_node_idempotent_witness :
  (mesh_nodes base_state !! 0%nat = Some None ->
   provisioner_reset_node 2 true 0 base_state = Ok (0, base_state))
  /\ exists s1 : state,
       provisioner_reset_node 2 true 0 base_state = Ok (0, s1)
       /\ mesh_nodes s1 !! 0%nat = Some None
       /\ provisioner_reset_node 2 true 0 s1 = Ok (0, s1)
       /\ forall s2 : state,
            provisioner_reset_node 2 true 0 s1 = Ok (0, s2) ->
            mesh_nodes s2 = mesh_nodes s1
            /\ provisioner_get_node_count s2 = provisioner_get_node_count s1
            /\ provisioner_get_prov_node_count s2 = provisioner_get_prov_node_count s1.
Proof.
  apply (reset_node_idempotent 2 true 0 base_state).
  vm_compute. lia.
Defined.

(** The first reset clears the replay entries of addresses 2 and 3 and
    both counters go down; the calls made are in the log. *)
Example reset_node_slot_0 :
  match provisioner_reset_node 2 true 0 base_state with
  | Ok (err, s') =>
      (err, map (option_map unicast_addr) (mesh_nodes s'),
       all_node_count s', prov_node_count s',
       map rpl_src (rpl (bt_mesh s')), log s')
  | Fault => (0, [], 0, 0, [], [])
  end
  = (0, [None; None; Some 4], 1, 0, [0; 4],
     [bt_mesh_msg_cache_clear 2 2; bt_mesh_clear_rpl_single 2;
      bt_mesh_clear_node_info 2 true]).
Proof. vm_compute. reflexivity. Qed.

(** Witness of C8 as amended: AppKey 5 belongs to subnet 1, so the get
    for (1, 5) returns its key and the get for (0, 5) returns [NULL]. *)
Lemma app_key_get_bound_key_witness :
  (exists (j : nat) (key : bt_mesh_app_key),
     p_app_keys (bt_mesh base_state) !! j = Some (Some key)
     /\ key_net_idx key = 1 /\ key_app_idx key = 5
     /\ (forall (j' : nat) (key' : bt_mesh_app_key),
           (j' < j)%nat -> p_app_keys (bt_mesh base_state) !! j' = Some (Some key') ->
           ~ (key_net_idx key' = 1 /\ key_app_idx key' = 5))
     /\ bt_mesh_provisioner_local_app_key_get 1 5 base_state
        = Some (if updated key then val (app_keys1 key) else val (app_keys0 key)))
  /\ bt_mesh_provisioner_local_app_key_get 0 5 base_state = None.
Proof.
  split.
  - apply (app_key_get_bound_key 1 5 base_state).
    + apply net_idx_live_by_check. vm_compute. reflexivity.
    + exists 0%nat, app5. repeat split.
  - apply (app_key_get_bound_key 0 5 base_state).
    + apply net_idx_live_by_check. vm_compute. reflexivity.
    + intros j key Hl Ha.
      destruct j as [|[|j]]; vm_compute in Hl; try discriminate;
        inversion Hl; subst; vm_compute in Ha; try discriminate;
        vm_compute; discriminate.
Defined.

Example app_key_get_1_5 :
  bt_mesh_provisioner_local_app_key_get 1 5 base_state = Some key_b.
Proof. vm_compute. reflexivity. Qed.

(** Counterexample to C8 as stated: subnet 0 is live and AppKey 5 is
    live, but AppKey 5 belongs to subnet 1 and the get returns [NULL]. *)
Lemma app_key_get_counterexample :
  net_idx_live base_state 0
  /\ app_idx_live base_state 5
  /\ bt_mesh_provisioner_local_app_key_get 0 5 base_state = None.
Proof.
  split; [exists 0%nat, sub0; split; reflexivity|].
  split; [exists 0%nat, app5; split; reflexivity|].
  vm_compute. reflexivity.
Qed.

(** Witness of C9 on [base_state]. *)
Lemma find_reset_node_prov_partition_witness :
  find_reset_scope 2 true (uuid_matches uuid2) true base_state
    (provisioner_find_reset_node_with_uuid 2 true uuid2 true base_state)
  /\ find_reset_scope 2 true
       (addr_matches {| addr_val := mac1; addr_type := 0 |}) true base_state
       (provisioner_find_reset_node_with_addr 2 true
          {| addr_val := mac1; addr_type := 0 |} true base_state).
Proof.
  apply (find_reset_node_prov_partition 2 true uuid2
           {| addr_val := mac1; addr_type := 0 |} true base_state).
  vm_compute. lia.
Defined.

(** The node with [uuid2] sits in slot 2, outside the two slots of the
    self-provisioned nodes: it is not found and not reset. *)
Example find_uuid_outside_partition :
  provisioner_find_reset_node_with_uuid 2 true uuid2 true base_state
    = Ok (false, base_state).
Proof. vm_compute. reflexivity. Qed.

(** The node with [mac1] sits in slot 0: found, and reset on request. *)
Example find_addr_inside_partition :
  match provisioner_find_reset_node_with_addr 2 true
          {| addr_val := mac1; addr_type := 0 |} true base_state with
  | Ok (b, s') => (b, map (option_map unicast_addr) (mesh_nodes s'),
                   all_node_count s', prov_node_count s')
  | Fault => (false, [], 0, 0)
  end = (true, [None; None; Some 4], 1, 0).
Proof. vm_compute. reflexivity. Qed.

(** Witness of C10: a table of three slots, two of them for
    self-provisioned nodes. *)
Lemma node_counts_track_table_witness :
  counts_ok 2 (init_state 3 (bt_mesh base_state) [elem0])
  /\ forall (s : state) (ops : list node_op),
       length (mesh_nodes s) = 3%nat ->
       counts_ok 2 s ->
       Forall (op_in_range 3) ops ->
       exists s' : state,
         run_ops 2 true ops s = Ok s'
         /\ length (mesh_nodes s') = 3%nat
         /\ provisioner_get_node_count s'
            = occupied (length (mesh_nodes s')) (mesh_nodes s')
         /\ provisioner_get_prov_node_count s'
            = occupied (Z.to_nat 2) (mesh_nodes s')
         /\ 0 <= provisioner_get_node_count s'
         /\ 0 <= provisioner_get_prov_node_count s'.
Proof.
  apply (node_counts_track_table 2 true 3 (bt_mesh base_state) [elem0]).
  - vm_compute. split; discriminate.
  - vm_compute. discriminate.
Defined.

(** Three stores and two resets from the initial state: the self-provisioned
    partition fills up, the third self-provisioned node is refused, and
    the counters follow. *)
Example node_ops_run :
  match run_ops 2 true
          [op_store env_ok (node_of uuid1 mac1 2) true;
           op_store env_ok (node_of uuid2 mac2 4) false;
           op_store env_ok (node_of uuid2 mac2 6) true;
           op_store env_ok (node_of uuid1 mac2 8) true;
           op_reset 1; op_reset 1; op_reset 2]
          (init_state 3 (bt_mesh base_state) [elem0]) with
  | Ok s' => (map (option_map unicast_addr) (mesh_nodes s'),
              all_node_count s', prov_node_count s')
  | Fault => ([], 0, 0)
  end = ([Some 2; None; None], 1, 1).
Proof. vm_compute. reflexivity. Qed.

(** ** Further worked examples *)

(** The tables of [base_state] and [sparse_state] satisfy the invariants
    and fit the configuration with two slots for self-provisioned
    nodes. *)
Lemma base_state_net_idx_unique : net_idx_unique base_state.
Proof.
  intros i j r r' Hi Hj Heq.
  destruct i as [|[|[|i]]]; destruct j as [|[|[|j]]]; try reflexivity;
    vm_compute in Hi, Hj; try discriminate;
    inversion Hi; inversion Hj; subst; vm_compute in Heq; discriminate.
Qed.

Lemma base_state_net_idx_in_range : net_idx_in_range base_state.
Proof.
  intros i r Hi.
  destruct i as [|[|[|i]]]; vm_compute in Hi; try discriminate;
    inversion Hi; subst; vm_compute; reflexivity.
Qed.

Lemma base_state_app_idx_unique : app_idx_unique base_state.
Proof.
  intros i j r r' Hi Hj Heq.
  destruct i as [|[|i]]; destruct j as [|[|j]]; try reflexivity;
    vm_compute in Hi, Hj; try discriminate;
    inversion Hi; inversion Hj; subst; vm_compute in Heq; discriminate.
Qed.

Lemma sparse_state_app_idx_unique : app_idx_unique sparse_state.
Proof.
  intros i j r r' Hi Hj Heq.
  destruct i as [|[|i]]; destruct j as [|[|j]]; try reflexivity;
    vm_compute in Hi, Hj; discriminate.
Qed.

Lemma sparse_state_app_idx_in_range : app_idx_in_range sparse_state.
Proof.
  intros i r Hi.
  destruct i as [|[|i]]; vm_compute in Hi; try discriminate;
    inversion Hi; subst; vm_compute; reflexivity.
Qed.

Lemma base_state_uuid_unique : uuid_unique base_state.
Proof.
  intros i j r r' Hi Hj Heq.
  destruct i as [|[|[|i]]]; destruct j as [|[|[|j]]]; try reflexivity;
    vm_compute in Hi, Hj; try discriminate;
    inversion Hi; inversion Hj; subst; vm_compute in Heq; discriminate.
Qed.

Lemma base_state_config_ok : config_ok 2 base_state.
Proof. vm_compute. repeat split; discriminate. Qed.

Lemma base_state_counts_ok : counts_ok 2 base_state.
Proof. split; vm_compute; reflexivity. Qed.

(** ** Key tables *)

(** Witness of X1: an auto-index NetKey add in [base_state] takes index 2. *)
Lemma net_key_add_keeps_idx_unique_witness :
  exists s' : state,
    bt_mesh_provisioner_local_net_key_add true env_ok (Some key_n) (Some 65535) base_state
      = Some (OK, Some 2, s')
    /\ net_idx_unique s' /\ net_idx_in_range s'.
Proof.
  eexists. split; [vm_compute; reflexivity|].
  apply (net_key_add_keeps_idx_unique true env_ok (Some key_n) (Some 65535) base_state
           OK (Some 2)).
  - apply base_state_net_idx_unique.
  - apply base_state_net_idx_in_range.
  - vm_compute. reflexivity.
Defined.

(** Witness of X2: an auto-index AppKey add in [sparse_state] takes
    index 6. *)
Lemma app_key_add_keeps_idx_unique_witness :
  exists s' : state,
    bt_mesh_provisioner_local_app_key_add true env_ok (Some key_n) 0 (Some 65535) sparse_state
      = Some (OK, Some 6, s')
    /\ app_idx_unique s' /\ app_idx_in_range s'.
Proof.
  eexists. split; [vm_compute; reflexivity|].
  apply (app_key_add_keeps_idx_unique true env_ok (Some key_n) 0 (Some 65535) sparse_state
           OK (Some 6)).
  - apply sparse_state_app_idx_unique.
  - apply sparse_state_app_idx_in_range.
  - vm_compute. reflexivity.
Defined.

(** Witness of X3: the key added under index 2 is read back. *)
Lemma net_key_add_then_get_witness :
  exists s' : state,
    bt_mesh_provisioner_local_net_key_add true env_ok (Some key_n) (Some 65535) base_state
      = Some (OK, Some 2, s')
    /\ exists p_key : bytes,
         fill_p_key env_ok (Some key_n) = Some p_key
         /\ bt_mesh_provisioner_local_net_key_get 2 s' = Some p_key
         /\ provisioner_net_key_get 2 s' = Some p_key.
Proof.
  eexists. split; [vm_compute; reflexivity|].
  apply (net_key_add_then_get true env_ok (Some key_n) (Some 65535) base_state 2).
  - apply net_key_fresh_by_check. vm_compute. reflexivity.
  - vm_compute. reflexivity.
Defined.

(** Witness of X4: the same for an AppKey of subnet 0, with a key from
    the random generator. *)
Lemma app_key_add_then_get_witness :
  exists s' : state,
    bt_mesh_provisioner_local_app_key_add true env_ok None 0 (Some 65535) sparse_state
      = Some (OK, Some 6, s')
    /\ exists (p_key : bytes) (a : Z),
         fill_p_key env_ok None = Some p_key
         /\ bt_mesh_app_id env_ok p_key = Some a
         /\ bt_mesh_provisioner_local_app_key_get 0 6 s' = Some p_key
         /\ (0 <> BLE_MESH_KEY_UNUSED ->
             provisioner_app_key_find 6 s' = Some (new_app_key 0 6 p_key a)).
Proof.
  eexists. split; [vm_compute; reflexivity|].
  apply (app_key_add_then_get true env_ok None 0 (Some 65535) sparse_state 6).
  - intros k Hk. discriminate.
  - vm_compute. reflexivity.
Defined.

(** Both indices of the pair (0, 5) are live in [base_state], but AppKey
    5 belongs to subnet 1: the delete leaves its loop without a match. *)
Example app_key_delete_other_subnet :
  bt_mesh_provisioner_local_app_key_delete true 0 5 base_state
  = (ERR AppIdxMissing, base_state).
Proof. vm_compute. reflexivity. Qed.

(** Witness of X6: deleting AppKey 5 of subnet 1. *)
Lemma app_key_delete_effect_witness :
  exists s' : state,
    bt_mesh_provisioner_local_app_key_delete true 1 5 base_state = (OK, s')
    /\ p_app_keys (bt_mesh s') = [None; Some app6]
    /\ unbound (comp s') 5
    /\ bt_mesh_provisioner_local_app_key_get 1 5 s' = None.
Proof.
  eexists. split; [vm_compute; reflexivity|].
  match goal with
  | |- p_app_keys (bt_mesh ?s') = _ /\ _ =>
      destruct (app_key_delete_effect true 1 5 base_state s')
        as (_ & _ & _ & Hub & _ & Hget)
  end.
  - vm_compute. reflexivity.
  - split; [reflexivity|]. split; [exact Hub|].
    apply Hget. apply base_state_app_idx_unique.
Defined.

(** Witness of X8: deleting subnet 1 of [base_state]. *)
Lemma net_key_delete_then_get_witness :
  exists s' : state,
    bt_mesh_provisioner_local_net_key_delete true 1 base_state = Ok (OK, s')
    /\ bt_mesh_provisioner_local_net_key_get 1 s' = None
    /\ provisioner_net_key_get 1 s' = None
    /\ bt_mesh_provisioner_local_net_key_get 0 s' = Some key_p
    /\ net_idx_unique s'.
Proof.
  eexists. split; [vm_compute; reflexivity|].
  match goal with
  | |- bt_mesh_provisioner_local_net_key_get 1 ?s' = None /\ _ =>
      destruct (net_key_delete_then_get true 1 base_state s')
        as (H1 & H2 & H3 & H4)
  end.
  - apply base_state_net_idx_unique.
  - vm_compute. reflexivity.
  - split; [exact H1|]. split; [exact H2|]. split; [|exact H4].
    rewrite H3 by discriminate. vm_compute. reflexivity.
Defined.

(** Rebinding AppKey 5 from subnet 1 to subnet 0. *)
Example bind_app_net_idx_5_to_0 :
  match bt_mesh_provisioner_bind_local_app_net_idx 0 5 base_state with
  | (err, s') =>
      (err, bt_mesh_provisioner_local_app_key_get 0 5 s',
       bt_mesh_provisioner_local_app_key_get 1 5 s')
  end = (0, Some key_b, None).
Proof. vm_compute. reflexivity. Qed.

(** ** Node table *)

(** Witness of X12: the first free slot of the partition of
    self-provisioned nodes is slot 1; the other partition is full. *)
Lemma store_node_partition_witness :
  (exists s' : state,
     provisioner_store_node 2 true env_ok (node_of (replicate 16 51) mac2 9) true base_state
       = Ok (0, Some 1%nat, s')
     /\ mesh_nodes s'
        = <[1%nat := Some (node_of (replicate 16 51) mac2 9)]> (mesh_nodes base_state))
  /\ provisioner_store_node 2 true env_ok (node_of (replicate 16 51) mac2 9) false base_state
     = Ok (- ENOMEM, None, base_state).
Proof.
  split.
  - destruct (store_node_partition 2 true env_ok (node_of (replicate 16 51) mac2 9) true
                base_state base_state_config_ok) as [Hfree _].
    destruct (Hfree 1%nat) as (s' & Hr & Hn & _).
    + split; [vm_compute; lia|]. split; [reflexivity|].
      intros j Hj. assert (j = 0%nat) as -> by (vm_compute in Hj; lia). discriminate.
    + reflexivity.
    + exists s'. auto.
  - apply (store_node_partition 2 true env_ok (node_of (replicate 16 51) mac2 9) false
             base_state base_state_config_ok).
    left. intros j Hj. assert (j = 2%nat) as -> by (vm_compute in Hj; lia). discriminate.
Defined.

(** Witness of X13: a node with a new UUID is stored, and the UUIDs stay
    distinct. *)
Lemma store_node_info_uuid_unique_witness :
  exists s' : state,
    bt_mesh_provisioner_store_node_info 2 true env_ok
      (Some (node_of (replicate 16 51) mac2 9)) true base_state = Ok (0, s')
    /\ uuid_unique s'.
Proof.
  eexists. split; [vm_compute; reflexivity|].
  apply (store_node_info_uuid_unique 2 true env_ok (node_of (replicate 16 51) mac2 9) true
           base_state 0).
  - apply base_state_config_ok.
  - apply base_state_uuid_unique.
  - vm_compute. reflexivity.
Defined.

(** The UUID of the node in slot 2, outside the partition that the store
    would scan, is refused as well. *)
Example store_node_info_duplicate :
  bt_mesh_provisioner_store_node_info 2 true env_ok (Some (node_of uuid2 mac1 9)) true
    base_state = Ok (- EEXIST, base_state).
Proof. vm_compute. reflexivity. Qed.

(** Resetting all nodes of [base_state]. *)
Example reset_all_nodes_base :
  match provisioner_reset_all_nodes 2 true base_state with
  | Ok (err, s') => Some (err, mesh_nodes s', all_node_count s', prov_node_count s',
                          map rpl_src (rpl (bt_mesh s')))
  | Fault => None
  end = Some (0, [None; None; None], 0, 0, [0; 0]).
Proof. vm_compute. reflexivity. Qed.

(** Witness of X15: a store into slot 1 of [base_state], undone by a
    reset of slot 1. *)
Lemma store_then_reset_restores_witness :
  exists s' : state,
    provisioner_store_node 2 true env_ok (node_of (replicate 16 51) mac2 9) true base_state
      = Ok (0, Some 1%nat, s')
    /\ provisioner_index_check 1 s' = 0
    /\ exists s'' : state,
         provisioner_reset_node 2 true 1 s' = Ok (0, s'')
         /\ mesh_nodes s'' = mesh_nodes base_state
         /\ all_node_count s'' = 2
         /\ prov_node_count s'' = 1
         /\ provisioner_index_check 1 s'' = - EINVAL.
Proof.
  eexists. split; [vm_compute; reflexivity|].
  apply (store_then_reset_restores 2 true env_ok (node_of (replicate 16 51) mac2 9) true
           base_state 1).
  - apply base_state_config_ok.
  - apply base_state_counts_ok.
  - vm_compute. reflexivity.
Defined.

(** Witness of X16: a node provisioned into [base_state] is found by
    its UUID and by its device address. *)
Lemma node_provision_then_find_witness :
  exists s' : state,
    provisioner_node_provision 2 true 8 env_ok
      (Some {| addr_val := mac2; addr_type := 1 |}) (Some (replicate 16 51))
      0 9 1 0 0 0 (Some key_a) true base_state = Ok (0, Some 1%nat, s')
    /\ provisioner_find_reset_node_with_uuid 2 true (replicate 16 51) false s'
       = Ok (true, s')
    /\ provisioner_find_reset_node_with_addr 2 true
         {| addr_val := mac2; addr_type := 1 |} false s' = Ok (true, s').
Proof.
  eexists. split; [vm_compute; reflexivity|].
  apply (node_provision_then_find 2 true 8 env_ok {| addr_val := mac2; addr_type := 1 |}
           (replicate 16 51) 0 9 1 0 0 0 key_a base_state (Some 1%nat)).
  - apply base_state_config_ok.
  - vm_compute. reflexivity.
Defined.

(** Witness of X17: the device key of that node is then returned for
    its primary address 9, with the unicast test of the mesh profile
    (addresses 1 to 0x7FFF). *)
Lemma node_provision_then_device_key_witness :
  exists s' : state,
    provisioner_node_provision 2 true 8 env_ok
      (Some {| addr_val := mac2; addr_type := 1 |}) (Some (replicate 16 51))
      0 9 1 0 0 0 (Some key_a) true base_state = Ok (0, Some 1%nat, s')
    /\ provisioner_get_device_key (fun a => (0 <? a) && (a <? 32768)) 9 s'
       = Some (take 16 key_a)
    /\ (0 < 1 ->
        provisioner_check_msg_dst_addr (fun a => (0 <? a) && (a <? 32768)) 9 s' = true).
Proof.
  eexists. split; [vm_compute; reflexivity|].
  apply (node_provision_then_device_key 2 true (fun a => (0 <? a) && (a <? 32768)) 8 env_ok
           {| addr_val := mac2; addr_type := 1 |} (replicate 16 51) 0 9 1 0 0 0 key_a
           base_state (Some 1%nat)).
  - apply base_state_config_ok.
  - reflexivity.
  - intros i n Hi.
    destruct i as [|[|[|i]]]; vm_compute in Hi; try discriminate;
      inversion Hi; subst; vm_compute; discriminate.
  - vm_compute. reflexivity.
Defined.

(** Address 3 is the second element of the node in slot 0: it is an
    accepted destination, but no device key is returned for it. *)
Example dst_addr_secondary_element :
  (provisioner_check_msg_dst_addr (fun a => (0 <? a) && (a <? 32768)) 3 base_state,
   provisioner_get_device_key (fun a => (0 <? a) && (a <? 32768)) 3 base_state)
  = (true, None).
Proof. vm_compute. reflexivity. Qed.

(** Witness of X19: the node with [uuid1] is found and reset once. *)
Lemma find_reset_uuid_once_witness :
  exists s' : state,
    provisioner_find_reset_node_with_uuid 2 true uuid1 true base_state = Ok (true, s')
    /\ provisioner_find_reset_node_with_uuid 2 true uuid1 true s' = Ok (false, s').
Proof.
  eexists. split; [vm_compute; reflexivity|].
  apply (find_reset_uuid_once 2 true uuid1 true base_state).
  - apply base_state_config_ok.
  - apply base_state_uuid_unique.
  - vm_compute. reflexivity.
Defined.

(** Witness of X20: the node in slot 0 has the element addresses 2 and
    3; of the two entries of the list, the one with source 3 is zeroed. *)
Lemma reset_node_clears_rpl_witness :
  exists s' : state,
    provisioner_reset_node 2 true 0 base_state = Ok (0, s')
    /\ rpl (bt_mesh s')
       = [rpl_zero; {| rpl_src := 4; rpl_old_iv := false; rpl_seq := 12 |}]
    /\ p_sub (bt_mesh s') = p_sub (bt_mesh base_state).
Proof.
  destruct (reset_node_clears_rpl 2 true 0 (node_of uuid1 mac1 2) base_state eq_refl)
    as (s' & Hr & Hrpl & Hsub & _).
  exists s'. split; [exact Hr|]. split; [|exact Hsub].
  rewrite Hrpl. vm_compute. reflexivity.
Defined.

(** ** Model binding *)


(** A model with no unused slot: the vendor model of element 1. *)
Example bind_model_no_slot :
  bt_mesh_provisioner_bind_local_model_app_idx true
    (fun _ _ => Some 0%nat) (fun _ _ _ => Some 0%nat) true 1 741 2 6
    (set_comp [ {| elem_addr := 1; models := [];
                   vnd_models := [ {| mod_id := 741; mod_keys := [5; 5];
                                      mod_pub := None |} ] |} ] base_state)
  = Ok (- ENOMEM,
        set_comp [ {| elem_addr := 1; models := [];
                      vnd_models := [ {| mod_id := 741; mod_keys := [5; 5];
                                         mod_pub := None |} ] |} ] base_state).
Proof. vm_compute. reflexivity. Qed.

(** ** Fast provisioning *)

(** Witness of X23: with the fast provisioning index 7 the key is added
    under index 7 and read back. *)
Lemma add_fast_prov_net_key_get_succeeds_witness :
  exists (s1 : state) (j : Z) (keys : bytes),
    Some 7 = Some j
    /\ net_idx_live s1 j
    /\ bt_mesh_provisioner_local_net_key_get j s1 = Some keys
    /\ bt_mesh_add_fast_prov_net_key true 7 (fun _ _ => 0) env_ok (Some key_n) base_state
       = Some (0, s1).
Proof.
  eexists.
  apply (add_fast_prov_net_key_get_succeeds true 7 (fun _ _ => 0) env_ok (Some key_n)
           base_state (Some 7)).
  vm_compute. reflexivity.
Defined.

(** Witness of X24: with the fast provisioning index 0xFFFF the call
    fails and leaves the cursor at 0xFFFF. *)
Lemma add_fast_prov_net_key_spends_cursor_witness :
  exists s' : state,
    bt_mesh_add_fast_prov_net_key true 65535 (fun _ _ => 0) env_ok (Some key_n) base_state
      = Some (1, s')
    /\ p_sub (bt_mesh s') = p_sub (bt_mesh base_state)
    /\ p_net_idx_next (bt_mesh s') = 65535
    /\ forall (e' : env) (k : option bytes) (idx : option Z),
         bt_mesh_provisioner_local_net_key_add true e' k idx s'
         = Some (ERR NoIndexAvailable, idx, s').
Proof.
  apply (add_fast_prov_net_key_spends_cursor true 65535 (fun _ _ => 0) env_ok (Some key_n)
           base_state).
  vm_compute. discriminate.
Defined.

(** ** Unbinding *)

(** A model bound to AppKeys 5 and 6 that publishes with AppKey 6:
    unbinding AppKey 5 clears its publication. *)
Example model_unbind_other_pub_key :
  let model := {| mod_id := 4096; mod_keys := [5; 6];
                  mod_pub := Some {| pub_addr := 49152; pub_key := 6; pub_cred := 0;
                                     pub_ttl := 7; pub_period := 10; pub_retransmit := 1;
                                     pub_count := 0; pub_update := false |} |} in
  (mod_keys (model_unbind true model 5).1,
   option_map (fun p => (pub_addr p, pub_key p)) (mod_pub (model_unbind true model 5).1))
  = ([65535; 6], Some (0, 0)).
Proof. vm_compute. reflexivity. Qed.

(** Witness of X26: in [base_state], for the pair (1, 5). *)
Lemma key_delete_bind_keep_idx_unique_witness :
  app_idx_unique (bt_mesh_provisioner_local_app_key_delete true 1 5 base_state).2
  /\ app_idx_unique (bt_mesh_provisioner_bind_local_app_net_idx 1 5 base_state).2
  /\ (forall (st : status) (s' : state),
        bt_mesh_provisioner_local_net_key_delete true 1 base_state = Ok (st, s') ->
        app_idx_unique s').
Proof.
  apply (key_delete_bind_keep_idx_unique true 1 5 base_state).
  apply base_state_app_idx_unique.
Defined.
